(** * mongoose-plugin-cache: the batched cache-aside engine

    A shallow embedding of [src/createCacheMethods.ts].  The functions of
    [createCacheMethods] are asynchronous JavaScript closures over a
    [Context]; they talk to a Redis client ([redis.multi(batch).execAsync()]),
    to a Mongoose model ([model.find]) and to two optional observer
    callbacks.  Here they are functions in a small state-and-exception monad
    over a [world] that holds the Redis database and the chronological trace
    of every external call the code makes.

    Modelling conventions, fixed once for the whole file:
    - JavaScript values are the type [value]; numbers are integers, printed
      in decimal, and strings are strings of one-byte characters.
    - A JavaScript object used as a dictionary has own properties, an
      association list in insertion order with unique keys ([JsObj]),
      enumerated as the language prescribes (array indices ascending, then
      the other keys in insertion order), and a prototype: a key that is not
      an own property is read from the prototype, which is
      [Object.prototype] for a fresh object, and an assignment to
      [__proto__] replaces the prototype ([Dict], [DocDict]).
    - lodash reads a field name with a dot or a bracket as a path into
      nested objects.  Paths are not modelled: a field is read as one
      property, and the statements about what is read under a field carry
      [plain_path] as a hypothesis, through [plain_lookup] and
      [plain_read].
    - The store is any function from a query to the documents it returns;
      Redis executes a batch command by command and replies in order.
    - The observers [onCacheMiss] and [onDataMiss] return normally; a call
      to one of them is an event of the trace.  [debug(...)] logging is not
      part of the trace.
    - [JSON.stringify] and [JSON.parse] are parameters of the development;
      [Json] at the end of the definitions gives an executable codec used to
      run the engine on concrete inputs. *)

From Stdlib Require Import Ascii String ZArith List Permutation.
From stdpp Require Import gmap strings list pretty.

Set Warnings "-register-all".

Open Scope string_scope.
Open Scope Z_scope.
Open Scope list_scope.

(** ** JavaScript values *)

(** The built-in objects a read can reach through a prototype chain:
    [Object.prototype], [Array.prototype] and their methods, each method
    under the name of the property that holds it. *)
Inductive builtin : Type :=
| ObjectPrototype
| ArrayPrototype
| ObjectMethod (name : string)
| ArrayMethod (name : string).

(** [VObj] is a plain object, as [JSON.parse] and [toObject()] build them:
    own data properties, and [Object.prototype] as prototype. *)
Inductive value : Type :=
| VUndefined
| VNull
| VBool (b : bool)
| VNum (n : Z)
| VStr (s : string)
| VArr (items : list value)
| VObj (fields : list (string * value))
| VBuiltin (b : builtin).

(** [!!v] *)
Definition truthy (v : value) : bool :=
  match v with
  | VUndefined | VNull => false
  | VBool b => b
  | VNum n => negb (n =? 0)
  | VStr EmptyString => false
  | VStr _ => true
  | VArr _ | VObj _ | VBuiltin _ => true
  end.

(** [v || null] *)
Definition or_null (v : value) : value := if truthy v then v else VNull.

(** The source text of a built-in function. *)
Definition native (name : string) : string :=
  "function " +:+ name +:+ "() { [native code] }".

Definition builtin_text (b : builtin) : string :=
  match b with
  | ObjectPrototype => "[object Object]"
  | ArrayPrototype => EmptyString
  | ObjectMethod name =>
      native (if String.eqb name "constructor" then "Object" else name)
  | ArrayMethod name =>
      native (if String.eqb name "constructor" then "Array" else name)
  end.

(** [String(v)], the conversion applied to a value used as a property key or
    inside a template literal. *)
Fixpoint to_string (v : value) : string :=
  match v with
  | VUndefined => "undefined"
  | VNull => "null"
  | VBool true => "true"
  | VBool false => "false"
  | VNum n => pretty n
  | VStr s => s
  | VArr items =>
      let item x :=
        match x with
        | VUndefined | VNull => EmptyString
        | _ => to_string x
        end in
      (fix join (l : list value) : string :=
         match l with
         | [] => EmptyString
         | [x] => item x
         | x :: l' => item x +:+ "," +:+ join l'
         end) items
  | VObj _ => "[object Object]"
  | VBuiltin b => builtin_text b
  end.

(** ** JavaScript objects used as dictionaries *)

Module JsObj.

Section Obj.
Context {V : Type}.

Definition t := list (string * V).

Definition empty : t := [].

(** [o[k]], [None] standing for an absent own property. *)
Fixpoint get (k : string) (o : t) : option V :=
  match o with
  | [] => None
  | (k', v) :: o' => if String.eqb k k' then Some v else get k o'
  end.

(** [o[k] = v]: an existing key keeps its place, a new one goes last. *)
Fixpoint set (k : string) (v : V) (o : t) : t :=
  match o with
  | [] => [(k, v)]
  | (k', v') :: o' =>
      if String.eqb k k' then (k, v) :: o' else (k', v') :: set k v o'
  end.

Definition has (k : string) (o : t) : bool :=
  match get k o with Some _ => true | None => false end.

End Obj.

Arguments t : clear implicits.

(** An array index is the canonical decimal spelling of an integer below
    [2^32 - 1]. *)
Definition digit (c : ascii) : option N :=
  let n := N_of_ascii c in
  if ((48 <=? n) && (n <=? 57))%N then Some (n - 48)%N else None.

Fixpoint digits (s : string) (acc : N) : option N :=
  match s with
  | EmptyString => Some acc
  | String c s' =>
      match digit c with
      | Some d => digits s' (10 * acc + d)%N
      | None => None
      end
  end.

Definition array_index (s : string) : option N :=
  match s with
  | EmptyString => None
  | String c s' =>
      match digit c with
      | None => None
      | Some 0%N => match s' with EmptyString => Some 0%N | _ => None end
      | Some d =>
          if (String.length s' <=? 9)%nat then
            match digits s' d with
            | Some n => if (n <? 4294967295)%N then Some n else None
            | None => None
            end
          else None
      end
  end.

Section Entries.
Context {V : Type}.

Fixpoint insert_sorted (n : N) (e : string * V) (l : list (N * (string * V)))
  : list (N * (string * V)) :=
  match l with
  | [] => [(n, e)]
  | (m, e') :: l' =>
      if (n <? m)%N then (n, e) :: l else (m, e') :: insert_sorted n e l'
  end.

Fixpoint indexed (o : t V) : list (N * (string * V)) :=
  match o with
  | [] => []
  | (k, v) :: o' =>
      match array_index k with
      | Some n => insert_sorted n (k, v) (indexed o')
      | None => indexed o'
      end
  end.

Definition named (o : t V) : list (string * V) :=
  List.filter (fun e => match array_index (fst e) with
                        | Some _ => false | None => true end) o.

(** Keys of a dictionary are pairwise distinct. *)
Definition wf (o : t V) : Prop := List.NoDup (List.map fst o).

(** [Object.entries(o)] *)
Definition entries (o : t V) : list (string * V) :=
  List.map snd (indexed o) ++ named o.

(** Assigning a list of pairs in order. *)
Definition assign (l : list (string * V)) (o : t V) : t V :=
  fold_left (fun o e => set (fst e) (snd e) o) l o.

(** [{...a, ...b}] *)
Definition spread (a b : t V) : t V :=
  assign (entries b) (assign (entries a) empty).

End Entries.

End JsObj.

(** The own property [k] of a record of properties, [undefined] when there
    is none. *)
Definition prop (o : JsObj.t value) (k : string) : value :=
  match JsObj.get k o with Some v => v | None => VUndefined end.

(** ** Prototypes *)

(** The methods of [Object.prototype], and those of [Array.prototype] as of
    ECMAScript 2019. *)
Definition Object_methods : list string :=
  ["constructor"; "__defineGetter__"; "__defineSetter__"; "hasOwnProperty";
   "__lookupGetter__"; "__lookupSetter__"; "isPrototypeOf";
   "propertyIsEnumerable"; "toString"; "valueOf"; "toLocaleString"].

Definition Array_methods : list string :=
  ["constructor"; "concat"; "copyWithin"; "fill"; "find"; "findIndex";
   "lastIndexOf"; "pop"; "push"; "reverse"; "shift"; "unshift"; "slice";
   "sort"; "splice"; "includes"; "indexOf"; "join"; "keys"; "entries";
   "values"; "forEach"; "filter"; "flat"; "flatMap"; "map"; "every"; "some";
   "reduce"; "reduceRight"; "toLocaleString"; "toString"].

Definition names (l : list string) (k : string) : bool :=
  existsb (String.eqb k) l.

(** [k] names a member of [Object.prototype]: one of its methods, or the
    accessor [__proto__]. *)
Definition inherited (k : string) : bool :=
  String.eqb k "__proto__" || names Object_methods k.

(** No key of the list names a member of [Object.prototype]. *)
Definition ordinary (keys : list string) : bool :=
  forallb (fun k => negb (inherited k)) keys.

(** A field name that lodash reads as one property: it holds neither a dot
    nor an opening bracket. *)
Fixpoint plain_path (s : string) : bool :=
  match s with
  | EmptyString => true
  | String c s' =>
      negb (Ascii.eqb c ".") && negb (Ascii.eqb c "[") && plain_path s'
  end.

(** What [Object.prototype] holds under [k], read on behalf of an object
    whose prototype is [p]: the getter of [__proto__] answers [p]. *)
Definition object_member (p : value) (k : string) : value :=
  if String.eqb k "__proto__" then p
  else if names Object_methods k then VBuiltin (ObjectMethod k)
  else VUndefined.

Definition array_member (p : value) (k : string) : value :=
  if names Array_methods k then VBuiltin (ArrayMethod k)
  else object_member p k.

(** The own properties of an array: its elements and its length. *)
Definition array_own (items : list value) (k : string) : option value :=
  match JsObj.array_index k with
  | Some n => nth_error items (N.to_nat n)
  | None =>
      if String.eqb k "length" then Some (VNum (Z.of_nat (length items)))
      else None
  end.

(** The property [k] as found from the object [o] upwards, on behalf of an
    object whose prototype is [p].  A built-in function is never stored
    ([JSON.parse] and [toObject()] return data), and one in the place of a
    prototype is read as far as [Object.prototype] goes. *)
Definition inherit (o p : value) (k : string) : value :=
  match o with
  | VObj fields =>
      match JsObj.get k fields with
      | Some v => v
      | None => object_member p k
      end
  | VArr items =>
      match array_own items k with
      | Some v => v
      | None => array_member p k
      end
  | VBuiltin ArrayPrototype =>
      if String.eqb k "length" then VNum 0 else array_member p k
  | VBuiltin _ => object_member p k
  | _ => VUndefined
  end.

Definition prototype_of (v : value) : value :=
  match v with
  | VObj _ => VBuiltin ObjectPrototype
  | VArr _ => VBuiltin ArrayPrototype
  | VBuiltin ObjectPrototype => VNull
  | VBuiltin _ => VBuiltin ObjectPrototype
  | _ => VUndefined
  end.

(** [v[k]] for a record [v]: an own property, or what the prototype chain
    holds.  Records are objects; the members of a primitive are not
    modelled. *)
Definition value_prop (v : value) (k : string) : value :=
  inherit v (prototype_of v) k.

(** A plain object [{}] that holds values: its own properties and its
    prototype, which is [Object.prototype] until [__proto__] is assigned. *)
Module Dict.

Record t : Type := { own : JsObj.t value; proto : value }.

Definition empty : t :=
  {| own := JsObj.empty; proto := VBuiltin ObjectPrototype |}.

(** [d[k]] *)
Definition get (k : string) (d : t) : value :=
  match JsObj.get k (own d) with
  | Some v => v
  | None => inherit (proto d) (proto d) k
  end.

Definition is_object (v : value) : bool :=
  match v with
  | VObj _ | VArr _ | VBuiltin _ => true
  | _ => false
  end.

Definition is_null (v : value) : bool :=
  match v with VNull => true | _ => false end.

(** The prototype chain from [p] upwards holds [__proto__] as a data
    property, or does not hold it at all: an assignment then defines an own
    property.  Otherwise the assignment reaches the setter of
    [Object.prototype]. *)
Definition shadows (p : value) : bool :=
  match p with
  | VNull => true
  | VObj fields => JsObj.has "__proto__" fields
  | _ => false
  end.

(** [d[k] = v].  The setter of [__proto__] replaces the prototype by an
    object or by [null] and ignores any other value. *)
Definition set (k : string) (v : value) (d : t) : t :=
  if String.eqb k "__proto__" && negb (JsObj.has k (own d))
     && negb (shadows (proto d))
  then
    if is_object v || is_null v then {| own := own d; proto := v |} else d
  else {| own := JsObj.set k v (own d); proto := proto d |}.

(** [Object.entries(d)] *)
Definition entries (d : t) : list (string * value) := JsObj.entries (own d).

(** [{...a, ...b}]: the own properties of both, in a fresh object. *)
Definition spread (a b : t) : t :=
  {| own := JsObj.spread (own a) (own b);
     proto := VBuiltin ObjectPrototype |}.

End Dict.

(** ** Collaborators: the Mongoose model and the Redis client *)

(** A Mongoose document: [props] is what [doc[field]] reads (schema paths and
    virtuals such as [id]), [toObject] the plain-data projection. *)
Record doc : Type := { props : JsObj.t value; toObject : JsObj.t value }.

(** A plain object [{}] that holds documents.  No document carries
    [__proto__] as a data property, so that the assignment of [__proto__]
    makes the document the prototype, and never an own property. *)
Module DocDict.

Record t : Type := { own : JsObj.t doc; proto : option doc }.

Definition empty : t := {| own := JsObj.empty; proto := None |}.

(** [result[k] = d] *)
Definition set (k : string) (d : doc) (m : t) : t :=
  if String.eqb k "__proto__" then {| own := own m; proto := Some d |}
  else {| own := JsObj.set k d (own m); proto := proto m |}.

(** What [m[k]] reads: a document, or a value found on the prototype
    chain. *)
Inductive member : Type :=
| Document (d : doc)
| Member (v : value).

(** [m[k]]: an own property; else, with a document as prototype, the
    document itself for [__proto__] and what the document reads for another
    key; else the member of [Object.prototype]. *)
Definition get (k : string) (m : t) : member :=
  match JsObj.get k (own m) with
  | Some d => Document d
  | None =>
      match proto m with
      | Some d =>
          if String.eqb k "__proto__" then Document d
          else Member (prop (props d) k)
      | None => Member (object_member (VBuiltin ObjectPrototype) k)
      end
  end.

End DocDict.

(** [find field keys] stands for [model.find({ [field]: { $in: keys } })]. *)
Record Model : Type := {
  modelName : string;
  find : string -> list string -> list doc
}.

(** A Mongoose document over a plain record: the schema paths read as stored
    and the virtual [id] is the string form of [_id]. *)
Definition document (plain : JsObj.t value) : doc :=
  {| props := JsObj.set "id" (VStr (to_string (prop plain "_id"))) plain;
     toObject := plain |}.

(** A collection answering [$in] queries: the documents whose stored [field]
    is one of [keys], in storage order. *)
Definition collection_find (docs : list doc) (field : string)
    (keys : list string) : list doc :=
  List.filter
    (fun d => existsb (String.eqb (to_string (prop (toObject d) field))) keys)
    docs.

Definition collection (name : string) (docs : list doc) : Model :=
  {| modelName := name; find := collection_find docs |}.

(** One command of a [redis.multi] batch and its reply. *)
Inductive op : Type :=
| OpGet (key : string)
| OpSet (key payload : string)
| OpDel (key : string).

Inductive reply : Type :=
| RNil
| RStr (s : string)
| RInt (n : Z).

(** External calls, in the order the code makes them. *)
Inductive event : Type :=
| EFind (field : string) (keys : list string)
| EMulti (batch : list op)
| ECacheMiss (name key : string)
| EDataMiss (name key : string).

Record world : Type := { redis : gmap string string; trace : list event }.

(** The world after further external calls. *)
Definition log (w : world) (events : list event) : world :=
  {| redis := redis w; trace := trace w ++ events |}.

(** The [Context] argument of [createCacheMethods]; an observer is present or
    not, and a present one is recorded in the trace when it is called. *)
Record CacheContext : Type := {
  enable : bool;
  additionalCacheKeys : list string;
  model : Model;
  onCacheMiss : bool;
  onDataMiss : bool
}.

(** ** The monad of the engine: state and exceptions *)

Inductive error : Type :=
| SyntaxError (input : string)
| TypeError (message : string).

Inductive result (A : Type) : Type :=
| Ok (a : A)
| Throw (e : error).

Arguments Ok {A} a.
Arguments Throw {A} e.

Definition M (A : Type) : Type := world -> result A * world.

Definition ret {A} (a : A) : M A := fun w => (Ok a, w).

Definition bind {A B} (c : M A) (k : A -> M B) : M B :=
  fun w =>
    match c w with
    | (Ok a, w') => k a w'
    | (Throw e, w') => (Throw e, w')
    end.

Definition throw {A} (e : error) : M A := fun w => (Throw e, w).

Definition emit (e : event) : M unit :=
  fun w => (Ok tt, {| redis := redis w; trace := trace w ++ [e] |}).

Declare Scope engine_scope.
Delimit Scope engine_scope with engine.
Notation "'let!' x ':=' c 'in' k" := (bind c (fun x => k))
  (at level 10, x name, c at level 100, k at level 200) : engine_scope.
Notation "'do!' c 'in' k" := (bind c (fun _ => k))
  (at level 10, c at level 100, k at level 200) : engine_scope.
Open Scope engine_scope.

(** [l.forEach(f)] *)
Fixpoint forEach {A} (f : A -> M unit) (l : list A) : M unit :=
  match l with
  | [] => ret tt
  | x :: l' => do! f x in forEach f l'
  end.

(** [l.map(f)] for an effectful [f] *)
Fixpoint mapM {A B} (f : A -> M B) (l : list A) : M (list B) :=
  match l with
  | [] => ret []
  | x :: l' => let! y := f x in let! ys := mapM f l' in ret (y :: ys)
  end.

(** *** Redis *)

Definition exec_op (o : op) (db : gmap string string)
  : reply * gmap string string :=
  match o with
  | OpGet k => (match db !! k with Some s => RStr s | None => RNil end, db)
  | OpSet k s => (RStr "OK", <[k:=s]> db)
  | OpDel k => (RInt (match db !! k with Some _ => 1 | None => 0 end),
                delete k db)
  end.

Fixpoint exec_batch (batch : list op) (db : gmap string string)
  : list reply * gmap string string :=
  match batch with
  | [] => ([], db)
  | o :: batch' =>
      let '(r, db') := exec_op o db in
      let '(rs, db'') := exec_batch batch' db' in
      (r :: rs, db'')
  end.

(** [redis.multi(batch).execAsync()]: one round trip, replies in command
    order. *)
Definition redis_multi (batch : list op) : M (list reply) :=
  fun w =>
    let '(rs, db) := exec_batch batch (redis w) in
    (Ok rs, {| redis := db; trace := trace w ++ [EMulti batch] |}).

(** [model.find(...)] *)
Definition model_find (m : Model) (field : string) (keys : list string)
  : M (list doc) :=
  do! emit (EFind field keys) in ret (find m field keys).

(** ** lodash [keyBy] and [String.prototype.toLowerCase] *)

(** [keyBy(items, field)]: [result[key] = item] for each item in turn,
    [result] starting as [{}].  The property read is given as [key_of], the
    assignment and the empty object by the kind of items the object
    holds. *)
Definition keyBy {A D} (assign : string -> A -> D -> D) (empty : D)
    (key_of : A -> value) (items : list A) : D :=
  fold_left (fun o x => assign (to_string (key_of x)) x o) items empty.

(** An item that [keyBy] files under [__proto__]. *)
Definition keyed_proto {A} (key_of : A -> value) (x : A) : bool :=
  String.eqb (to_string (key_of x)) "__proto__".

Definition lower_ascii (c : ascii) : ascii :=
  let n := N_of_ascii c in
  if ((65 <=? n) && (n <=? 90))%N then ascii_of_N (n + 32) else c.

Fixpoint toLowerCase (s : string) : string :=
  match s with
  | EmptyString => EmptyString
  | String c s' => String (lower_ascii c) (toLowerCase s')
  end.

(** A reply used as a condition, and as the argument of [JSON.parse]. *)
Definition reply_truthy (r : reply) : bool :=
  match r with
  | RNil => false
  | RStr EmptyString => false
  | RStr _ => true
  | RInt n => negb (n =? 0)
  end.

Definition reply_text (r : reply) : string :=
  match r with
  | RNil => "null"
  | RStr s => s
  | RInt n => pretty n
  end.

(** ** The cache methods *)

Section CacheMethods.

(** [JSON.stringify], and [JSON.parse] with [None] for a thrown
    [SyntaxError]. *)
Variable JSON_stringify : value -> string.
Variable JSON_parse : string -> option value.

Variable ctx : CacheContext.

Definition name : string := modelName (model ctx).

Definition withCachePrefix (key : string) : string :=
  toLowerCase name +:+ ":" +:+ key.

Definition onBatchCacheMiss (keys : list string) : M unit :=
  forEach (fun key =>
             if onCacheMiss ctx then emit (ECacheMiss name key) else ret tt)
          keys.

Definition onBatchDataMiss (keys : list string) : M unit :=
  forEach (fun key =>
             if onDataMiss ctx then emit (EDataMiss name key) else ret tt)
          keys.

Definition keyLookup (queryKey : string) : string :=
  if String.eqb queryKey "id" then "_id" else queryKey.

Definition valueByKey (queryKey : string) (docs : list doc) : DocDict.t :=
  keyBy DocDict.set DocDict.empty (fun d => prop (props d) queryKey) docs.

(** The [TypeError] of [value.toObject()] for a [value] that is not a
    document. *)
Definition not_a_document : error :=
  TypeError "value.toObject is not a function".

(** The body of [keys.map(key => ...)] in [getManyBy]. *)
Definition resolveOne (byKey : DocDict.t) (key : string) : M value :=
  match DocDict.get key byKey with
  | DocDict.Document d => ret (VObj (toObject d))
  | DocDict.Member v =>
      if negb (truthy v) then do! onBatchDataMiss [key] in ret VNull
      else throw not_a_document
  end.

Definition getManyBy (queryKey : string) (keys : list string)
  : M (list value) :=
  let! docs := model_find (model ctx) (keyLookup queryKey) keys in
  let byKey := valueByKey queryKey docs in
  mapM (resolveOne byKey) keys.

Definition getBy (queryKey key : string) : M value :=
  let! values := getManyBy queryKey [key] in
  ret (hd VUndefined values).

(** The batch that [entries.reduce] builds in [cacheSetMany]. *)
Definition set_batch (entries : list (string * value)) : list op :=
  fold_left
    (fun (operations : list op) '(key, v) =>
       if negb (truthy v) then operations
       else operations
              ++ [OpSet (withCachePrefix key) (JSON_stringify v)])
    entries [].

(** The replies of the batch, which no caller reads, are not returned. *)
Definition cacheSetMany (entries : list (string * value)) : M unit :=
  if negb (enable ctx) then ret tt
  else
    let batch := set_batch entries in
    if (length batch =? 0)%nat then ret tt
    else do! redis_multi batch in ret tt.

Definition cacheSet (key : string) (v : value) : M unit :=
  cacheSetMany [(key, v)].

(** [keys.reduce((total, key, index) => ...)] of [cacheGetManyBy], started
    at position [index] with accumulator [total]. *)
Fixpoint cachedKeyValue_from (cachedData : list reply) (keys : list string)
    (index : nat) (total : Dict.t) : result Dict.t :=
  match keys with
  | [] => Ok total
  | key :: keys' =>
      let doc := nth index cachedData RNil in
      if reply_truthy doc then
        match JSON_parse (reply_text doc) with
        | Some v =>
            cachedKeyValue_from cachedData keys' (S index)
                                (Dict.set key v total)
        | None => Throw (SyntaxError (reply_text doc))
        end
      else cachedKeyValue_from cachedData keys' (S index) total
  end.

Definition missedKeysFromCache (cachedKeyValue : Dict.t)
    (keys : list string) : list string :=
  List.filter (fun key => negb (truthy (Dict.get key cachedKeyValue))) keys.

Definition storedDataEntries (cacheKey : string) (storedData : list value)
  : list (string * value) :=
  Dict.entries
    (keyBy Dict.set Dict.empty (fun item => value_prop item cacheKey)
           (List.filter truthy storedData)).

Definition storedKeyValue (entries : list (string * value)) : Dict.t :=
  fold_left
    (fun total '(key, v) =>
       if truthy v then
         fold_left
           (fun total additionalCacheKey =>
              Dict.set (to_string (value_prop v additionalCacheKey)) v total)
           (additionalCacheKeys ctx)
           (Dict.set key v total)
       else total)
    entries Dict.empty.

Definition batchGet (keys : list string) : list op :=
  List.map (fun key => OpGet (withCachePrefix key)) keys.

Definition cacheGetManyBy (cacheKey : string) (keys : list string)
  : M (list value) :=
  if negb (enable ctx) then getManyBy cacheKey keys
  else
    let! cachedData := redis_multi (batchGet keys) in
    match cachedKeyValue_from cachedData keys 0 Dict.empty with
    | Throw e => throw e
    | Ok cachedKeyValue =>
        let missed := missedKeysFromCache cachedKeyValue keys in
        if (0 <? length missed)%nat then
          do! onBatchCacheMiss missed in
          let! storedData := getManyBy cacheKey missed in
          let stored :=
            storedKeyValue (storedDataEntries cacheKey storedData) in
          do! cacheSetMany (Dict.entries stored) in
          let responseKeyValue := Dict.spread cachedKeyValue stored in
          ret (List.map (fun key => or_null (Dict.get key responseKeyValue))
                        keys)
        else
          ret (List.map (fun key => or_null (Dict.get key cachedKeyValue))
                        keys)
    end.

Definition cacheGetBy (cacheKey key : string) : M value :=
  let! values := cacheGetManyBy cacheKey [key] in
  ret (hd VUndefined values).

Definition cacheGetMany (keys : list string) : M (list value) :=
  cacheGetManyBy "_id" keys.

Definition cacheGet (key : string) : M value := cacheGetBy "_id" key.

Definition cacheClearMany (keys : list string) : M unit :=
  let batch := List.map (fun key => OpDel (withCachePrefix key)) keys in
  do! redis_multi batch in ret tt.

Definition cacheClear (key : string) : M unit := cacheClearMany [key].

(** *** What one call reads, resolves and emits

    The same computations as above, named one by one so that statements can
    refer to them. *)

(** The dictionary [getManyBy] builds from the documents [find] returns for
    [keys]. *)
Definition byKey (queryKey : string) (keys : list string) : DocDict.t :=
  valueByKey queryKey (find (model ctx) (keyLookup queryKey) keys).

(** What [getManyBy] makes of a read of that dictionary: the plain object
    of a document, [null] for a falsy read, and nothing for a truthy read
    that is not a document, where [toObject()] fails. *)
Definition settle (m : DocDict.member) : option value :=
  match m with
  | DocDict.Document d => Some (VObj (toObject d))
  | DocDict.Member v => if truthy v then None else Some VNull
  end.

Definition settles (dict : DocDict.t) (key : string) : bool :=
  match settle (DocDict.get key dict) with Some _ => true | None => false end.

(** [getManyBy] returns: no read of the dictionary fails. *)
Definition returns (queryKey : string) (keys : list string) : bool :=
  forallb (settles (byKey queryKey keys)) keys.

(** The results of [getManyBy] when it returns. *)
Definition answers (queryKey : string) (keys : list string) : list value :=
  List.map (fun key =>
              match settle (DocDict.get key (byKey queryKey keys)) with
              | Some v => v
              | None => VNull
              end) keys.

(** The keys for which [getManyBy] reports a data miss: those that read
    falsy, as far as the first read that fails. *)
Fixpoint reported_in (dict : DocDict.t) (keys : list string) : list string :=
  match keys with
  | [] => []
  | key :: keys' =>
      match DocDict.get key dict with
      | DocDict.Document _ => reported_in dict keys'
      | DocDict.Member v =>
          if truthy v then [] else key :: reported_in dict keys'
      end
  end.

Definition reported (queryKey : string) (keys : list string) : list string :=
  reported_in (byKey queryKey keys) keys.

(** The own properties of the dictionary decide the reads of keys that do
    not name a member of [Object.prototype], as long as no document is
    keyed [__proto__]: [found] is the document of a key, [resolved] are the
    results and [unresolved] the keys reported as data misses. *)
Definition found (queryKey : string) (keys : list string) : JsObj.t doc :=
  DocDict.own (byKey queryKey keys).

Definition resolve_key (docs : JsObj.t doc) (key : string) : value :=
  match JsObj.get key docs with
  | None => VNull
  | Some d => VObj (toObject d)
  end.

(** No document [find] returns for [keys] reads [__proto__] in the
    looked-up field. *)
Definition plainly_keyed (queryKey : string) (keys : list string) : bool :=
  forallb (fun d => negb (keyed_proto (fun d => prop (props d) queryKey) d))
          (find (model ctx) (keyLookup queryKey) keys).

Definition resolved (queryKey : string) (keys : list string) : list value :=
  List.map (resolve_key (found queryKey keys)) keys.

Definition unresolved (queryKey : string) (keys : list string)
  : list string :=
  List.filter (fun key => negb (JsObj.has key (found queryKey keys))) keys.

Definition cache_miss_events (keys : list string) : list event :=
  if onCacheMiss ctx then List.map (ECacheMiss name) keys else [].

Definition data_miss_events (keys : list string) : list event :=
  if onDataMiss ctx then List.map (EDataMiss name) keys else [].

(** The replies to the batched read, and the hit map parsed from them. *)
Definition reply_of (cached : option string) : reply :=
  match cached with Some s => RStr s | None => RNil end.

Definition cachedData (db : gmap string string) (keys : list string)
  : list reply :=
  List.map (fun key => reply_of (db !! withCachePrefix key)) keys.

Definition cachedKeyValue (db : gmap string string) (keys : list string)
  : result Dict.t :=
  cachedKeyValue_from (cachedData db keys) keys 0 Dict.empty.

(** The keys [cacheGetManyBy] takes for missing from the cache. *)
Definition misses (db : gmap string string) (keys : list string)
  : list string :=
  match cachedKeyValue db keys with
  | Ok hits => missedKeysFromCache hits keys
  | Throw _ => []
  end.

(** The dictionary of the writes staged for the keys [ms], and the batch of
    the fill, empty when the resolver fails. *)
Definition stored (cacheKey : string) (ms : list string) : Dict.t :=
  storedKeyValue (storedDataEntries cacheKey (answers cacheKey ms)).

Definition fill_of (cacheKey : string) (ms : list string) : list op :=
  if returns cacheKey ms then set_batch (Dict.entries (stored cacheKey ms))
  else [].

(** The external calls of a read after the batched cache read. *)
Definition after_hits (cacheKey : string) (ms : list string) : list event :=
  match ms with
  | [] => []
  | _ =>
      cache_miss_events ms
        ++ EFind (keyLookup cacheKey) ms
        :: data_miss_events (reported cacheKey ms)
        ++ match fill_of cacheKey ms with
           | [] => []
           | batch => [EMulti batch]
           end
  end.

(** The value parsed from the non-empty string cached for [key]. *)
Definition cache_entry (db : gmap string string) (key : string)
  : option value :=
  match db !! withCachePrefix key with
  | Some (String _ _ as s) => JSON_parse s
  | _ => None
  end.

(** The cached string of [key] is empty, absent, or parses. *)
Definition payload_ok (db : gmap string string) (key : string) : bool :=
  match db !! withCachePrefix key with
  | Some (String _ _ as s) =>
      match JSON_parse s with Some _ => true | None => false end
  | _ => true
  end.

Definition payloads_ok (db : gmap string string) (keys : list string)
  : bool :=
  forallb (payload_ok db) keys.

(** The cache-hit value of [key]: a parsed value that is truthy. *)
Definition cache_hit (db : gmap string string) (key : string)
  : option value :=
  match cache_entry db key with
  | Some v => if truthy v then Some v else None
  | None => None
  end.

(** The keys of a call that miss the cache, in order. *)
Definition missed (db : gmap string string) (keys : list string)
  : list string :=
  List.filter (fun key => match cache_hit db key with
                          | Some _ => false | None => true end) keys.

(** A plain lookup, and a plain read: the looked-up field is a plain
    property name, no key names a member of [Object.prototype], and no
    document the store returns (for the keys that miss the cache) is keyed
    [__proto__]. *)
Definition plain_lookup (queryKey : string) (keys : list string) : bool :=
  plain_path queryKey && ordinary keys && plainly_keyed queryKey keys.

Definition plain_read (cacheKey : string) (db : gmap string string)
    (keys : list string) : bool :=
  plain_lookup cacheKey (missed db keys) && ordinary keys.

(** The records [keyBy] retains among the non-null results of the
    resolver, and what it means for a record to be addressed by a key. *)
Definition retained (cacheKey : string) (storedData : list value)
  : list value :=
  List.map snd (storedDataEntries cacheKey storedData).

Definition claims (cacheKey : string) (r : value) (key : string) : Prop :=
  to_string (value_prop r cacheKey) = key \/
  exists additionalCacheKey,
    In additionalCacheKey (additionalCacheKeys ctx) /\
    to_string (value_prop r additionalCacheKey) = key.

(** An entry of the fill is written under its own key and under the string
    form of each additional field of its record. *)
Definition entry_claims (e : string * value) (k : string) : Prop :=
  k = fst e \/
  exists a, In a (additionalCacheKeys ctx) /\
            to_string (value_prop (snd e) a) = k.



(** The state of Redis after a batch. *)
Definition apply_batch (batch : list op) (db : gmap string string)
  : gmap string string :=
  snd (exec_batch batch db).

(** The writes a call stages for the keys that miss the cache, the batch
    that carries them, and the answer the call gives for one key. *)
Definition staged (cacheKey : string) (db : gmap string string)
    (keys : list string) : JsObj.t value :=
  Dict.own
    (storedKeyValue
       (storedDataEntries cacheKey (resolved cacheKey (missed db keys)))).

Definition fill_batch (cacheKey : string) (db : gmap string string)
    (keys : list string) : list op :=
  set_batch (JsObj.entries (staged cacheKey db keys)).

(** The cache after a read. *)
Definition after_read (cacheKey : string) (db : gmap string string)
    (keys : list string) : gmap string string :=
  apply_batch (fill_batch cacheKey db keys) db.

Definition answer (cacheKey : string) (db : gmap string string)
    (keys : list string) (key : string) : value :=
  match JsObj.get key (staged cacheKey db keys) with
  | Some r => r
  | None => match cache_hit db key with Some v => v | None => VNull end
  end.

(** The external calls by which a read resolves the keys that miss the
    cache: the cache-miss reports, the store query, the data-miss reports. *)
Definition resolve_events (cacheKey : string) (db : gmap string string)
    (keys : list string) : list event :=
  let ms := missed db keys in
  cache_miss_events ms
    ++ EFind (keyLookup cacheKey) ms
    :: data_miss_events (unresolved cacheKey ms).

(** The external calls of a read that follow the batched cache read. *)
Definition fill_events (cacheKey : string) (db : gmap string string)
    (keys : list string) : list event :=
  match missed db keys with
  | [] => []
  | ms =>
      cache_miss_events ms
        ++ EFind (keyLookup cacheKey) ms
        :: data_miss_events (unresolved cacheKey ms)
        ++ match fill_batch cacheKey db keys with
           | [] => []
           | batch => [EMulti batch]
           end
  end.

End CacheMethods.


(** A document reads its looked-up field as its plain object stores it,
    under the name of the query and under the name the store is asked for. *)
Definition coherent (cacheKey : string) (d : doc) : Prop :=
  to_string (prop (props d) cacheKey) =
    to_string (value_prop (VObj (toObject d)) cacheKey)
  /\ to_string (prop (props d) cacheKey) =
       to_string (prop (toObject d) (keyLookup cacheKey)).

(** The plain object of a document survives the cache: its serialization is
    not empty and parses back to it. *)
Definition roundtrips (JSON_stringify : value -> string)
    (JSON_parse : string -> option value) (d : doc) : Prop :=
  JSON_stringify (VObj (toObject d)) <> EmptyString /\
  JSON_parse (JSON_stringify (VObj (toObject d))) = Some (VObj (toObject d)).


(** The same context with the cache switched on or off. *)
Definition with_enable (ctx : CacheContext) (flag : bool) : CacheContext :=
  {| enable := flag;
     additionalCacheKeys := additionalCacheKeys ctx;
     model := model ctx;
     onCacheMiss := onCacheMiss ctx;
     onDataMiss := onDataMiss ctx |}.

(** ** The effects of a read, whatever its outcome *)

Section ReadEffects.

Variable JSON_stringify : value -> string.
Variable JSON_parse : string -> option value.
Variable ctx : CacheContext.

(** The external calls of [cacheGetManyBy]: the resolver's when the cache is
    disabled; otherwise the batched cache read, followed by the calls for
    the missing keys when every cached string parses. *)
Definition read_events (cacheKey : string) (db : gmap string string)
    (keys : list string) : list event :=
  if negb (enable ctx) then
    EFind (keyLookup cacheKey) keys
      :: data_miss_events ctx (reported ctx cacheKey keys)
  else
    EMulti (batchGet ctx keys)
      :: after_hits JSON_stringify ctx cacheKey (misses JSON_parse ctx db keys).

(** The cache a call of [cacheGetManyBy] leaves. *)
Definition read_redis (cacheKey : string) (db : gmap string string)
    (keys : list string) : gmap string string :=
  if enable ctx
  then apply_batch
         (fill_of JSON_stringify ctx cacheKey (misses JSON_parse ctx db keys))
         db
  else db.

(** The outcome of [getManyBy], and of [cacheGetManyBy]. *)
Definition resolver_result (queryKey : string) (keys : list string)
  : result (list value) :=
  if returns ctx queryKey keys then Ok (answers ctx queryKey keys)
  else Throw not_a_document.

Definition read_result (cacheKey : string) (db : gmap string string)
    (keys : list string) : result (list value) :=
  if negb (enable ctx) then resolver_result cacheKey keys
  else
    match cachedKeyValue JSON_parse ctx db keys with
    | Throw e => Throw e
    | Ok hits =>
        match misses JSON_parse ctx db keys with
        | [] => Ok (List.map (fun key => or_null (Dict.get key hits)) keys)
        | ms =>
            if returns ctx cacheKey ms then
              Ok (List.map
                    (fun key =>
                       or_null
                         (Dict.get key
                            (Dict.spread hits (stored ctx cacheKey ms))))
                    keys)
            else Throw not_a_document
        end
    end.

End ReadEffects.

Definition is_multi (e : event) : bool :=
  match e with EMulti _ => true | _ => false end.

Definition is_find (e : event) : bool :=
  match e with EFind _ _ => true | _ => false end.

(** The number of cache round trips, and of store queries, in a trace. *)
Definition round_trips (events : list event) : nat :=
  length (List.filter is_multi events).

Definition store_queries (events : list event) : nat :=
  length (List.filter is_find events).

(** The commands a trace sends to Redis. *)
Definition commands (events : list event) : list op :=
  flat_map (fun e => match e with EMulti batch => batch | _ => [] end) events.

(** A string without a colon. *)
Fixpoint colon_free (s : string) : bool :=
  match s with
  | EmptyString => true
  | String c s' => negb (Ascii.eqb c ":") && colon_free s'
  end.

(** The keys paired with the result at the same position that are answered
    [null]. *)
Definition null_keys (keys : list string) (res : list value) : list string :=
  List.map fst
    (List.filter (fun kv => match snd kv with VNull => true | _ => false end)
                 (combine keys res)).

(** ** The plugin: hooks and statics ([src/index.ts]) *)

(** The options of [createCachePlugin].  [enable] and [additionalCacheKeys]
    may be absent and then take their defaults; [onDataMiss] is part of the
    interface, and [createCachePlugin] does not read it. *)
Record PluginOptions : Type := {
  opt_enable : option bool;
  opt_additionalCacheKeys : option (list string);
  opt_onCacheMiss : bool;
  opt_onDataMiss : bool
}.

(** The argument of the statics [get] and [getBy]: a key or an array of
    keys. *)
Inductive key_argument : Type :=
| OneKey (key : string)
| ManyKeys (keys : list string).

Section Plugin.

Variable JSON_stringify : value -> string.
Variable JSON_parse : string -> option value.
Variable options : PluginOptions.

(** [enable = false] and [additionalCacheKeys = []] in the parameter list. *)
Definition plugin_enable : bool := default false (opt_enable options).

Definition plugin_additionalCacheKeys : list string :=
  default [] (opt_additionalCacheKeys options).

(** [{ ...context, model }], the argument every hook and static hands to
    [createCacheMethods]: [context] holds no [onDataMiss]. *)
Definition plugin_context (m : Model) : CacheContext :=
  {| enable := plugin_enable;
     additionalCacheKeys := plugin_additionalCacheKeys;
     model := m;
     onCacheMiss := opt_onCacheMiss options;
     onDataMiss := false |}.

(** The key a hook passes for the field [field] of a document, as
    [withCachePrefix] interpolates it. *)
Definition doc_key (d : doc) (field : string) : string :=
  to_string (prop (props d) field).

(** The fields whose values address a document in the cache, and the slots
    the hooks touch for a document of the model [m]. *)
Definition hook_fields : list string := "_id" :: plugin_additionalCacheKeys.

Definition hook_slots (m : Model) (d : doc) : list string :=
  List.map (fun field => withCachePrefix (plugin_context m) (doc_key d field))
           hook_fields.

(** [onSave(doc)] for a document [doc] of the model [m]
    ([doc.constructor]). *)
Definition onSave (m : Model) (d : doc) : M unit :=
  if negb plugin_enable then ret tt
  else
    do! cacheSet JSON_stringify (plugin_context m) (doc_key d "_id")
                 (VObj (toObject d)) in
    forEach (fun key =>
               cacheSet JSON_stringify (plugin_context m) (doc_key d key)
                        (VObj (toObject d)))
            plugin_additionalCacheKeys.

(** [onRemove(doc)]; the hook may be handed no document. *)
Definition onRemove (m : Model) (d : option doc) : M unit :=
  if negb plugin_enable then ret tt
  else
    match d with
    | None => ret tt
    | Some d =>
        do! cacheClear (plugin_context m) (doc_key d "_id") in
        forEach (fun key => cacheClear (plugin_context m) (doc_key d key))
                plugin_additionalCacheKeys
    end.

(** [schema.statics.clear] and the other statics, [m] being [this]. *)
Definition statics_clear (m : Model) (key : string) : M unit :=
  cacheClear (plugin_context m) key.

Definition statics_clearMany (m : Model) (keys : list string) : M unit :=
  cacheClearMany (plugin_context m) keys.

Definition statics_getManyBy (m : Model) (cacheKey : string)
    (keys : list string) : M (list value) :=
  cacheGetManyBy JSON_stringify JSON_parse (plugin_context m) cacheKey keys.

Definition statics_getMany (m : Model) (keys : list string) : M (list value) :=
  cacheGetMany JSON_stringify JSON_parse (plugin_context m) keys.

Definition statics_getBy (m : Model) (cacheKey : string) (key : key_argument)
  : M value :=
  match key with
  | ManyKeys keys =>
      let! values := statics_getManyBy m cacheKey keys in ret (VArr values)
  | OneKey key =>
      cacheGetBy JSON_stringify JSON_parse (plugin_context m) cacheKey key
  end.

Definition statics_get (m : Model) (key : key_argument) : M value :=
  match key with
  | ManyKeys keys => let! values := statics_getMany m keys in ret (VArr values)
  | OneKey key => cacheGet JSON_stringify JSON_parse (plugin_context m) key
  end.

End Plugin.

(** ** An executable JSON codec

    A compact [JSON.stringify] and a [JSON.parse] for the values above
    (integers only, one-byte characters).  The cache methods never depend on
    it: it instantiates their two parameters when the engine is run on a
    concrete world. *)

Module Json.

Definition quote : ascii := "034"%char.
Definition backslash : ascii := "092"%char.

Definition hex_digit (n : N) : ascii :=
  if (n <? 10)%N then ascii_of_N (48 + n) else ascii_of_N (87 + n).

Definition escape_char (c : ascii) (rest : string) : string :=
  let n := N_of_ascii c in
  if Ascii.eqb c quote then String backslash (String quote rest)
  else if Ascii.eqb c backslash then String backslash (String backslash rest)
  else if (n =? 8)%N then String backslash (String "b" rest)
  else if (n =? 9)%N then String backslash (String "t" rest)
  else if (n =? 10)%N then String backslash (String "n" rest)
  else if (n =? 12)%N then String backslash (String "f" rest)
  else if (n =? 13)%N then String backslash (String "r" rest)
  else if (n <? 32)%N then
    String backslash
      (String "u" (String "0" (String "0"
         (String (hex_digit (n / 16)) (String (hex_digit (n mod 16)) rest)))))
  else String c rest.

Fixpoint escape (s : string) : string :=
  match s with
  | EmptyString => EmptyString
  | String c s' => escape_char c (escape s')
  end.

Definition quoted (s : string) : string :=
  String quote (escape s +:+ String quote EmptyString).

Fixpoint join (sep : string) (l : list string) : string :=
  match l with
  | [] => EmptyString
  | [x] => x
  | x :: l' => x +:+ sep +:+ join sep l'
  end.

(** A value with a JSON text: [undefined] and functions have none. *)
Definition serializable (v : value) : bool :=
  match v with
  | VUndefined | VBuiltin (ObjectMethod _) | VBuiltin (ArrayMethod _) => false
  | _ => true
  end.

(** [JSON.stringify(v)].  The engine serializes data only, so the text
    chosen for a top-level value without a JSON text is never stored. *)
Fixpoint stringify (v : value) : string :=
  match v with
  | VUndefined => "undefined"
  | VNull => "null"
  | VBool true => "true"
  | VBool false => "false"
  | VNum n => pretty n
  | VStr s => quoted s
  | VArr items =>
      let rendered :=
        (fix go (l : list value) : list string :=
           match l with
           | [] => []
           | x :: l' =>
               (if serializable x then stringify x else "null") :: go l'
           end) items in
      "[" +:+ join "," rendered +:+ "]"
  | VObj fields =>
      let rendered :=
        (fix go (l : list (string * value)) : list (string * option string) :=
           match l with
           | [] => []
           | (k, x) :: l' =>
               (k, if serializable x then Some (stringify x) else None)
                 :: go l'
           end) fields in
      let members :=
        flat_map (fun e => match snd e with
                           | Some text => [quoted (fst e) +:+ ":" +:+ text]
                           | None => []
                           end)
                 (JsObj.entries rendered) in
      "{" +:+ join "," members +:+ "}"
  | VBuiltin ObjectPrototype => "{}"
  | VBuiltin ArrayPrototype => "[]"
  | VBuiltin _ => "undefined"
  end.

Definition is_ws (c : ascii) : bool :=
  let n := N_of_ascii c in
  ((n =? 32) || (n =? 9) || (n =? 10) || (n =? 13))%N.

Fixpoint skip_ws (s : string) : string :=
  match s with
  | String c s' => if is_ws c then skip_ws s' else s
  | EmptyString => s
  end.

Definition hex_value (c : ascii) : option N :=
  let n := N_of_ascii c in
  if ((48 <=? n) && (n <=? 57))%N then Some (n - 48)%N
  else if ((97 <=? n) && (n <=? 102))%N then Some (n - 87)%N
  else if ((65 <=? n) && (n <=? 70))%N then Some (n - 55)%N
  else None.

(** The characters of a string literal after its opening quote. *)
Fixpoint parse_chars (s : string) : option (string * string) :=
  match s with
  | EmptyString => None
  | String c s' =>
      if Ascii.eqb c quote then Some (EmptyString, s')
      else if (N_of_ascii c <? 32)%N then None
      else if Ascii.eqb c backslash then
        match s' with
        | String e s'' =>
            let plain (x : ascii) :=
              match parse_chars s'' with
              | Some (text, rest) => Some (String x text, rest)
              | None => None
              end in
            if Ascii.eqb e quote then plain quote
            else if Ascii.eqb e backslash then plain backslash
            else if Ascii.eqb e "/" then plain "/"%char
            else if Ascii.eqb e "b" then plain "008"%char
            else if Ascii.eqb e "t" then plain "009"%char
            else if Ascii.eqb e "n" then plain "010"%char
            else if Ascii.eqb e "f" then plain "012"%char
            else if Ascii.eqb e "r" then plain "013"%char
            else if Ascii.eqb e "u" then
              match s'' with
              | String h1 (String h2 (String h3 (String h4 s4))) =>
                  match hex_value h1, hex_value h2,
                        hex_value h3, hex_value h4 with
                  | Some 0%N, Some 0%N, Some a, Some b =>
                      match parse_chars s4 with
                      | Some (text, rest) =>
                          Some (String (ascii_of_N (16 * a + b)) text, rest)
                      | None => None
                      end
                  | _, _, _, _ => None
                  end
              | _ => None
              end
            else None
        | EmptyString => None
        end
      else
        match parse_chars s' with
        | Some (text, rest) => Some (String c text, rest)
        | None => None
        end
  end.

Fixpoint parse_digits (s : string) (acc : Z) : Z * string :=
  match s with
  | String c s' =>
      match JsObj.digit c with
      | Some d => parse_digits s' (10 * acc + Z.of_N d)
      | None => (acc, s)
      end
  | EmptyString => (acc, s)
  end.

(** An integer literal; a fraction or an exponent is outside the model. *)
Definition parse_int (s : string) : option (Z * string) :=
  let '(negative, body) :=
    match s with
    | String "-" s' => (true, s')
    | _ => (false, s)
    end in
  match body with
  | String c s' =>
      match JsObj.digit c with
      | Some d =>
          let '(n, rest) :=
            if (d =? 0)%N then (0, s') else parse_digits s' (Z.of_N d) in
          match rest with
          | String c' _ =>
              if match JsObj.digit c' with Some _ => true | None => false end
                 || Ascii.eqb c' "." || Ascii.eqb c' "e" || Ascii.eqb c' "E"
              then None
              else Some (if negative then - n else n, rest)
          | EmptyString => Some (if negative then - n else n, rest)
          end
      | None => None
      end
  | EmptyString => None
  end.

Definition expect (word : string) (v : value) (s : string)
  : option (value * string) :=
  if String.prefix word s
  then Some (v, String.substring (String.length word)
                                 (String.length s - String.length word) s)
  else None.

Section Composite.
Variable parse_value : string -> option (value * string).

(** After an element of an array: [,] and the next one, or []]. *)
Fixpoint parse_elements (fuel : nat) (s : string) (acc : list value)
  : option (list value * string) :=
  match fuel with
  | O => None
  | S fuel' =>
      match parse_value s with
      | Some (v, rest) =>
          match skip_ws rest with
          | String "," rest' => parse_elements fuel' rest' (acc ++ [v])%list
          | String "]" rest' => Some ((acc ++ [v])%list, rest')
          | _ => None
          end
      | None => None
      end
  end.

Fixpoint parse_members (fuel : nat) (s : string) (acc : JsObj.t value)
  : option (JsObj.t value * string) :=
  match fuel with
  | O => None
  | S fuel' =>
      match skip_ws s with
      | String c s1 =>
          if Ascii.eqb c quote then
            match parse_chars s1 with
            | Some (k, s2) =>
                match skip_ws s2 with
                | String ":" s3 =>
                    match parse_value s3 with
                    | Some (v, rest) =>
                        match skip_ws rest with
                        | String "," rest' =>
                            parse_members fuel' rest' (JsObj.set k v acc)
                        | String "}" rest' =>
                            Some (JsObj.set k v acc, rest')
                        | _ => None
                        end
                    | None => None
                    end
                | _ => None
                end
            | None => None
            end
          else None
      | EmptyString => None
      end
  end.
End Composite.

Fixpoint parse_value (fuel : nat) (s : string) : option (value * string) :=
  match fuel with
  | O => None
  | S fuel' =>
      match skip_ws s with
      | EmptyString => None
      | String c s' as text =>
          if Ascii.eqb c quote then
            match parse_chars s' with
            | Some (str, rest) => Some (VStr str, rest)
            | None => None
            end
          else if Ascii.eqb c "[" then
            match skip_ws s' with
            | String "]" rest => Some (VArr [], rest)
            | _ =>
                match parse_elements (parse_value fuel') fuel' s' [] with
                | Some (items, rest) => Some (VArr items, rest)
                | None => None
                end
            end
          else if Ascii.eqb c "{" then
            match skip_ws s' with
            | String "}" rest => Some (VObj [], rest)
            | _ =>
                match parse_members (parse_value fuel') fuel' s' [] with
                | Some (fields, rest) => Some (VObj fields, rest)
                | None => None
                end
            end
          else if Ascii.eqb c "t" then expect "true" (VBool true) text
          else if Ascii.eqb c "f" then expect "false" (VBool false) text
          else if Ascii.eqb c "n" then expect "null" VNull text
          else
            match parse_int text with
            | Some (n, rest) => Some (VNum n, rest)
            | None => None
            end
      end
  end.

(** [JSON.parse(s)], [None] for a [SyntaxError]. *)
Definition parse (s : string) : option value :=
  match parse_value (S (String.length s)) s with
  | Some (v, rest) =>
      match skip_ws rest with
      | EmptyString => Some v
      | _ => None
      end
  | None => None
  end.

End Json.

(** ** The fixtures of the test suite

    The two entries of [MOCK_ENTRIES], held in a collection named [Entry],
    and the engine run with the executable codec. *)

Module Fixture.

Definition entry1 : JsObj.t value :=
  [("_id", VStr "id1"); ("slug", VStr "slug1"); ("title", VStr "Breaking Bad")].

Definition entry3 : JsObj.t value :=
  [("_id", VStr "id3"); ("slug", VStr "slug3"); ("title", VStr "Prison Break")].

(** An entry stored without a slug. *)
Definition entry5 : JsObj.t value :=
  [("_id", VStr "id5"); ("title", VStr "Rush")].

(** An entry stored with a null slug. *)
Definition entry6 : JsObj.t value :=
  [("_id", VStr "id6"); ("slug", VNull); ("title", VStr "Passengers")].

(** An entry whose slug is [undefined]. *)
Definition entry7 : JsObj.t value :=
  [("_id", VStr "id7"); ("slug", VUndefined); ("title", VStr "Arrival")].

(** What a cache slot may still hold from an earlier state of the store. *)
Definition stale : JsObj.t value := [("title", VStr "Terrace House")].

Definition Entry : Model :=
  collection "Entry"
    [document entry1; document entry3; document entry5; document entry6].

Definition context (flag : bool) (additional : list string) : CacheContext :=
  {| enable := flag;
     additionalCacheKeys := additional;
     model := Entry;
     onCacheMiss := true;
     onDataMiss := true |}.

(** The cache enabled, with [slug] as additional cache key. *)
Definition bySlug : CacheContext := context true ["slug"].

(** The cache enabled over a store that holds [entry7] only. *)
Definition sparse : CacheContext :=
  {| enable := true;
     additionalCacheKeys := [];
     model := collection "Entry" [document entry7];
     onCacheMiss := true;
     onDataMiss := true |}.

Definition cold : world := {| redis := ∅; trace := [] |}.

(** A world whose cache holds [payload] in the slot of [key]. *)
Definition holding (key payload : string) : world :=
  {| redis := {[ key := payload ]}; trace := [] |}.

Definition payload (r : JsObj.t value) : string := Json.stringify (VObj r).

(** A cache whose slot [entry:slug3] holds an older payload, and one whose
    slot [entry:id3] does. *)
Definition staleSlug : world := holding "entry:slug3" (payload stale).

Definition staleId : world := holding "entry:id3" (payload stale).

Definition read (ctx : CacheContext) (cacheKey : string) (keys : list string)
  : M (list value) :=
  cacheGetManyBy Json.stringify Json.parse ctx cacheKey keys.

(** The same store under a name in upper case, and under a name that holds
    a colon. *)
Definition upperCase : CacheContext :=
  {| enable := true;
     additionalCacheKeys := ["slug"];
     model := {| modelName := "ENTRY"; find := find Entry |};
     onCacheMiss := true;
     onDataMiss := true |}.

Definition colon : CacheContext :=
  {| enable := true;
     additionalCacheKeys := ["slug"];
     model := {| modelName := "Entry:a"; find := find Entry |};
     onCacheMiss := true;
     onDataMiss := true |}.

(** The options of the end-to-end test for [Entry], with both observers
    supplied. *)
Definition options : PluginOptions :=
  {| opt_enable := Some true;
     opt_additionalCacheKeys := Some ["slug"];
     opt_onCacheMiss := true;
     opt_onDataMiss := true |}.

(** The result of a computation with the cache and the trace it leaves,
    the cache listed slot by slot. *)
Definition observe {A} (run : result A * world)
  : result A * list (string * string) * list event :=
  (fst run, map_to_list (redis (snd run)), trace (snd run)).

End Fixture.

(** * Properties *)

Set Default Proof Using "Type".

(** ** Dictionaries *)

Module JsObjFacts.
Import JsObj.

Section Facts.
Context {V : Type}.
Implicit Types (o : t V) (k : string) (v : V).

Lemma wf_empty : wf (@empty V).
Proof. constructor. Qed.

Lemma get_set o k v k' :
  get k' (set k v o) = if String.eqb k' k then Some v else get k' o.
Proof.
  induction o as [|[k0 v0] o IH]; simpl.
  - reflexivity.
  - destruct (String.eqb_spec k k0) as [->|Hk]; simpl.
    + destruct (String.eqb_spec k' k0); reflexivity.
    + destruct (String.eqb_spec k' k0) as [->|Hk'].
      * destruct (String.eqb_spec k0 k); congruence.
      * exact IH.
Qed.

Lemma get_set_eq o k v : get k (set k v o) = Some v.
Proof. rewrite get_set, String.eqb_refl. reflexivity. Qed.

Lemma get_set_ne o k v k' : k' <> k -> get k' (set k v o) = get k' o.
Proof.
  intros H. rewrite get_set.
  destruct (String.eqb_spec k' k); congruence.
Qed.

Lemma keys_set o k v k' :
  In k' (List.map fst (set k v o)) <-> k' = k \/ In k' (List.map fst o).
Proof.
  induction o as [|[k0 v0] o IH]; simpl.
  - intuition.
  - destruct (String.eqb_spec k k0) as [->|Hk]; simpl; intuition.
Qed.

Lemma wf_set o k v : wf o -> wf (set k v o).
Proof.
  unfold wf. induction o as [|[k0 v0] o IH]; simpl; intros Hwf.
  - constructor; [simpl; tauto|constructor].
  - inversion Hwf as [|? ? Hnotin Hrest]; subst.
    destruct (String.eqb_spec k k0) as [->|Hk]; simpl.
    + constructor; assumption.
    + constructor; [|auto].
      rewrite keys_set. intros [->|Hin]; [congruence|contradiction].
Qed.

Lemma In_set o k v e : In e (set k v o) -> e = (k, v) \/ In e o.
Proof.
  induction o as [|[k0 v0] o IH]; simpl.
  - intros [<-|[]]. now left.
  - destruct (String.eqb k k0).
    + intros [<-|H]; [now left|right; now right].
    + intros [<-|H]; [right; now left|].
      destruct (IH H) as [->|H']; [now left|right; now right].
Qed.

Lemma get_In o k v : get k o = Some v -> In (k, v) o.
Proof.
  induction o as [|[k0 v0] o IH]; simpl; [discriminate|].
  destruct (String.eqb_spec k k0) as [->|Hk].
  - intros [= ->]. now left.
  - intros H. right. auto.
Qed.

Lemma In_get o k v : wf o -> In (k, v) o -> get k o = Some v.
Proof.
  unfold wf. induction o as [|[k0 v0] o IH]; simpl; [intros _ []|].
  intros Hwf [Heq|Hin]; inversion Hwf as [|? ? Hnotin Hrest]; subst.
  - injection Heq as -> ->. now rewrite String.eqb_refl.
  - destruct (String.eqb_spec k k0) as [->|Hk]; [|auto].
    exfalso. apply Hnotin. apply (in_map fst) in Hin. exact Hin.
Qed.

Lemma get_None o k : get k o = None <-> ~ In k (List.map fst o).
Proof.
  induction o as [|[k0 v0] o IH]; simpl.
  - intuition.
  - destruct (String.eqb_spec k k0) as [->|Hk].
    + split; [discriminate|]. intros H. exfalso. apply H. now left.
    + rewrite IH. intuition congruence.
Qed.

Lemma get_perm o o' k :
  wf o -> Permutation o o' -> get k o' = get k o.
Proof.
  intros Hwf Hperm.
  assert (Hwf' : wf o').
  { unfold wf in *. eapply Permutation_NoDup; [|exact Hwf].
    now apply Permutation_map. }
  destruct (get k o) as [v|] eqn:Hget.
  - apply In_get; [exact Hwf'|].
    eapply Permutation_in; [exact Hperm|]. now apply get_In.
  - destruct (get k o') as [v|] eqn:Hget'; [|reflexivity].
    apply get_In in Hget'.
    apply Permutation_sym in Hperm.
    eapply Permutation_in in Hget'; [|exact Hperm].
    apply In_get in Hget'; [congruence|exact Hwf].
Qed.

Lemma insert_sorted_perm n (e : string * V) l :
  Permutation (insert_sorted n e l) ((n, e) :: l).
Proof.
  induction l as [|[m e'] l IH]; simpl.
  - reflexivity.
  - destruct (n <? m)%N.
    + reflexivity.
    + rewrite IH. apply perm_swap.
Qed.

Lemma entries_perm o : Permutation (entries o) o.
Proof.
  unfold entries. induction o as [|[k v] o IH]; simpl.
  - reflexivity.
  - unfold named in *. simpl.
    destruct (array_index k) as [n|]; simpl.
    + rewrite insert_sorted_perm. simpl. now constructor.
    + symmetry. apply Permutation_cons_app. now symmetry.
Qed.

Lemma wf_entries o : wf o -> wf (entries o).
Proof.
  unfold wf. intros H. eapply Permutation_NoDup; [|exact H].
  apply Permutation_map. symmetry. apply entries_perm.
Qed.

Lemma get_entries o k : wf o -> get k (entries o) = get k o.
Proof.
  intros Hwf. apply get_perm; [exact Hwf|].
  symmetry. apply entries_perm.
Qed.

Lemma In_entries o e : In e (entries o) <-> In e o.
Proof.
  split; apply Permutation_in;
    [apply entries_perm | symmetry; apply entries_perm].
Qed.

(** Assigning a list of pairs in order: the last assignment to a key is the
    one read back. *)
Lemma wf_assign (l : list (string * V)) o : wf o -> wf (assign l o).
Proof.
  unfold assign. revert o.
  induction l as [|[k v] l IH]; simpl; intros o Hwf; [exact Hwf|].
  apply IH. now apply wf_set.
Qed.

Lemma get_assign (l : list (string * V)) o k :
  wf l ->
  get k (assign l o) =
    match get k l with Some v => Some v | None => get k o end.
Proof.
  unfold assign, wf. revert o.
  induction l as [|[k0 v0] l IH]; simpl; intros o Hwf; [reflexivity|].
  inversion Hwf as [|? ? Hnotin Hrest]; subst.
  rewrite IH by exact Hrest.
  destruct (String.eqb_spec k k0) as [->|Hk].
  - apply get_None in Hnotin. rewrite Hnotin. apply get_set_eq.
  - rewrite get_set_ne by exact Hk. reflexivity.
Qed.

Lemma get_spread (a b : t V) k :
  wf a -> wf b ->
  get k (spread a b) =
    match get k b with Some v => Some v | None => get k a end.
Proof.
  intros Ha Hb. unfold spread.
  rewrite !get_assign by now apply wf_entries.
  rewrite !get_entries by assumption.
  destruct (get k b); [reflexivity|].
  destruct (get k a); reflexivity.
Qed.

End Facts.
End JsObjFacts.

(** ** Prototypes *)

Lemma inherited_proto k : inherited k = false -> k <> "__proto__".
Proof. intros H ->. discriminate. Qed.

Lemma object_member_ordinary p k :
  inherited k = false -> object_member p k = VUndefined.
Proof.
  unfold inherited, object_member. intros H.
  apply orb_false_elim in H as [-> ->]. reflexivity.
Qed.

Lemma ordinary_In keys k :
  ordinary keys = true -> In k keys -> inherited k = false.
Proof.
  unfold ordinary. rewrite forallb_forall. intros H Hin.
  specialize (H k Hin). now destruct (inherited k).
Qed.

Lemma ordinary_proto keys : ordinary keys = true -> ~ In "__proto__" keys.
Proof. intros H Hin. now pose proof (ordinary_In _ _ H Hin). Qed.

Lemma ordinary_filter (f : string -> bool) keys :
  ordinary keys = true -> ordinary (List.filter f keys) = true.
Proof.
  unfold ordinary. rewrite !forallb_forall. intros H k Hk.
  apply filter_In in Hk as [Hk _]. auto.
Qed.

Module DictFacts.
Import Dict.

(** The own properties after an assignment, read at a key other than
    [__proto__]. *)
Lemma own_set k v d k' :
  k' <> "__proto__" ->
  JsObj.get k' (own (set k v d)) =
    if String.eqb k' k then Some v else JsObj.get k' (own d).
Proof.
  intros Hk'. unfold set.
  destruct (String.eqb_spec k "__proto__") as [->|Hk]; simpl.
  - assert (Hne : String.eqb k' "__proto__" = false)
      by now apply String.eqb_neq.
    rewrite Hne.
    destruct (negb (JsObj.has "__proto__" (own d)) && negb (shadows (proto d))).
    + now destruct (is_object v || is_null v).
    + simpl. rewrite JsObjFacts.get_set. now rewrite Hne.
  - apply JsObjFacts.get_set.
Qed.

(** Every own property was assigned. *)
Lemma own_set_In k v d e :
  In e (own (set k v d)) -> e = (k, v) \/ In e (own d).
Proof.
  unfold set.
  destruct (String.eqb k "__proto__" && negb (JsObj.has k (own d))
            && negb (shadows (proto d))).
  - destruct (is_object v || is_null v); simpl; auto.
  - simpl. apply JsObjFacts.In_set.
Qed.

Lemma own_wf_set k v d : JsObj.wf (own d) -> JsObj.wf (own (set k v d)).
Proof.
  intros Hwf. unfold set.
  destruct (String.eqb k "__proto__" && negb (JsObj.has k (own d))
            && negb (shadows (proto d))).
  - now destruct (is_object v || is_null v).
  - simpl. now apply JsObjFacts.wf_set.
Qed.

(** Only the assignment of [__proto__] touches the prototype. *)
Lemma proto_set k v d : k <> "__proto__" -> proto (set k v d) = proto d.
Proof.
  intros Hk. unfold set.
  apply String.eqb_neq in Hk. rewrite Hk. reflexivity.
Qed.

(** A read from an object whose prototype is still [Object.prototype]. *)
Lemma get_fresh d k :
  proto d = VBuiltin ObjectPrototype ->
  get k d =
    match JsObj.get k (own d) with
    | Some v => v
    | None => object_member (VBuiltin ObjectPrototype) k
    end.
Proof. unfold get. intros ->. reflexivity. Qed.

(** [keyBy] over values, read at a key other than [__proto__], is [keyBy]
    over own properties. *)
Lemma keyBy_own (key_of : value -> value) (items : list value) k :
  k <> "__proto__" ->
  JsObj.get k (own (keyBy set empty key_of items)) =
    JsObj.get k (keyBy JsObj.set JsObj.empty key_of items).
Proof.
  intros Hk. unfold keyBy.
  induction items as [|x items IH] using rev_ind; [reflexivity|].
  rewrite !fold_left_app. simpl.
  rewrite own_set by exact Hk. rewrite JsObjFacts.get_set, IH. reflexivity.
Qed.

Lemma keyBy_In (key_of : value -> value) (items : list value) e :
  In e (own (keyBy set empty key_of items)) ->
  In (snd e) items /\ to_string (key_of (snd e)) = fst e.
Proof.
  unfold keyBy.
  induction items as [|x items IH] using rev_ind; [intros []|].
  rewrite fold_left_app. simpl. intros H.
  apply own_set_In in H as [->|H].
  - split; [apply in_or_app; right; now left|reflexivity].
  - destruct (IH H) as [Hin Hkey].
    split; [apply in_or_app; now left|exact Hkey].
Qed.

Lemma keyBy_own_wf (key_of : value -> value) (items : list value) :
  JsObj.wf (own (keyBy set empty key_of items)).
Proof.
  unfold keyBy.
  induction items as [|x items IH] using rev_ind;
    [apply JsObjFacts.wf_empty|].
  rewrite fold_left_app. simpl. now apply own_wf_set.
Qed.

End DictFacts.

(** ** The monad and the collaborators *)

Lemma log_nil w : log w [] = w.
Proof. destruct w. unfold log. simpl. now rewrite app_nil_r. Qed.

Lemma log_log w a b : log (log w a) b = log w (a ++ b).
Proof. unfold log. simpl. now rewrite app_assoc. Qed.

Lemma forEach_emit {A} (b : bool) (f : A -> event) (l : list A) w :
  forEach (fun x => if b then emit (f x) else ret tt) l w =
    (Ok tt, log w (if b then List.map f l else [])).
Proof.
  revert w. induction l as [|x l IH]; intros w; simpl.
  - unfold ret. destruct b; now rewrite log_nil.
  - unfold bind. destruct b; simpl.
    + unfold emit at 1. rewrite IH.
      change {| redis := redis w; trace := trace w ++ [f x] |}
        with (log w [f x]).
      now rewrite log_log.
    + unfold ret at 1. rewrite IH. reflexivity.
Qed.

Lemma keyBy_fold_get {A} (key_of : A -> value) (items : list A) k o :
  JsObj.get k (fold_left (fun o x => JsObj.set (to_string (key_of x)) x o)
                         items o) =
    match JsObj.get k (keyBy JsObj.set JsObj.empty key_of items) with
    | Some x => Some x
    | None => JsObj.get k o
    end.
Proof.
  unfold keyBy. revert o.
  induction items as [|x items IH] using rev_ind; intros o; simpl.
  - reflexivity.
  - rewrite !fold_left_app. simpl. rewrite !JsObjFacts.get_set.
    destruct (String.eqb k (to_string (key_of x))); [reflexivity|].
    apply IH.
Qed.

Lemma keyBy_wf {A} (key_of : A -> value) (items : list A) :
  JsObj.wf (keyBy JsObj.set JsObj.empty key_of items).
Proof.
  unfold keyBy.
  assert (H : forall o, JsObj.wf o ->
    JsObj.wf (fold_left (fun o x => JsObj.set (to_string (key_of x)) x o)
                             items o)).
  { induction items as [|x items IH]; intros o Ho; simpl; [exact Ho|].
    apply IH. now apply JsObjFacts.wf_set. }
  apply H, JsObjFacts.wf_empty.
Qed.

Lemma keyBy_get_Some {A} (key_of : A -> value) (items : list A) k x :
  JsObj.get k (keyBy JsObj.set JsObj.empty key_of items) = Some x ->
  In x items /\ to_string (key_of x) = k.
Proof.
  unfold keyBy.
  induction items as [|y items IH] using rev_ind; simpl; [discriminate|].
  rewrite fold_left_app. simpl. rewrite JsObjFacts.get_set.
  destruct (String.eqb_spec k (to_string (key_of y))) as [->|Hk].
  - intros [= ->]. split; [apply in_or_app; right; now left|reflexivity].
  - intros H. apply IH in H as [Hin Heq].
    split; [apply in_or_app; now left|exact Heq].
Qed.

Lemma keyBy_get_None {A} (key_of : A -> value) (items : list A) k :
  JsObj.get k (keyBy JsObj.set JsObj.empty key_of items) = None <->
  forall x, In x items -> to_string (key_of x) <> k.
Proof.
  unfold keyBy.
  induction items as [|y items IH] using rev_ind; simpl.
  - split; [intros _ x []|reflexivity].
  - rewrite fold_left_app. simpl. rewrite JsObjFacts.get_set.
    destruct (String.eqb_spec k (to_string (key_of y))) as [->|Hk].
    + split; [discriminate|]. intros H. exfalso.
      apply (H y); [apply in_or_app; right; now left|reflexivity].
    + rewrite IH. split.
      * intros H x Hin. apply in_app_or in Hin as [Hin|[<-|[]]];
          [now apply H|congruence].
      * intros H x Hin. apply H. apply in_or_app. now left.
Qed.

(** The own properties of a dictionary of documents are those [keyBy]
    gives over the documents that are not keyed [__proto__]; without such a
    document the prototype stays [Object.prototype]. *)
Lemma keyBy_documents_from (key_of : doc -> value) (docs : list doc) m :
  DocDict.own
    (fold_left (fun o x => DocDict.set (to_string (key_of x)) x o) docs m) =
  fold_left (fun o x => JsObj.set (to_string (key_of x)) x o)
    (List.filter (fun d => negb (keyed_proto key_of d)) docs)
    (DocDict.own m).
Proof.
  revert m. induction docs as [|d docs IH]; intros m; simpl; [reflexivity|].
  rewrite IH. unfold DocDict.set, keyed_proto.
  destruct (String.eqb (to_string (key_of d)) "__proto__"); reflexivity.
Qed.

Lemma keyBy_documents (key_of : doc -> value) (docs : list doc) :
  DocDict.own (keyBy DocDict.set DocDict.empty key_of docs) =
    keyBy JsObj.set JsObj.empty key_of
      (List.filter (fun d => negb (keyed_proto key_of d)) docs).
Proof. apply keyBy_documents_from. Qed.

Lemma keyBy_documents_proto (key_of : doc -> value) (docs : list doc) :
  forallb (fun d => negb (keyed_proto key_of d)) docs = true ->
  DocDict.proto (keyBy DocDict.set DocDict.empty key_of docs) = None.
Proof.
  unfold keyBy.
  enough (H : forall m,
    forallb (fun d => negb (keyed_proto key_of d)) docs = true ->
    DocDict.proto
      (fold_left (fun o x => DocDict.set (to_string (key_of x)) x o) docs m)
      = DocDict.proto m) by (intros Hall; now rewrite H).
  induction docs as [|d docs IH]; intros m Hall; simpl; [reflexivity|].
  simpl in Hall. apply andb_prop in Hall as [Hd Hall].
  rewrite (IH _ Hall). unfold DocDict.set.
  unfold keyed_proto in Hd.
  destruct (String.eqb (to_string (key_of d)) "__proto__");
    [discriminate|reflexivity].
Qed.

(** A read of a key that is no member of [Object.prototype], from a
    dictionary whose prototype was not replaced. *)
Lemma get_fresh_document (m : DocDict.t) key :
  DocDict.proto m = None ->
  inherited key = false ->
  DocDict.get key m =
    match JsObj.get key (DocDict.own m) with
    | Some d => DocDict.Document d
    | None => DocDict.Member VUndefined
    end.
Proof.
  intros Hproto Hkey. unfold DocDict.get. rewrite Hproto.
  now rewrite object_member_ordinary.
Qed.

(** ** Running the cache methods *)

Section Runs.

Variable JSON_stringify : value -> string.
Variable JSON_parse : string -> option value.
Variable ctx : CacheContext.

Lemma onBatchCacheMiss_run keys w :
  onBatchCacheMiss ctx keys w = (Ok tt, log w (cache_miss_events ctx keys)).
Proof. apply forEach_emit. Qed.

Lemma onBatchDataMiss_run keys w :
  onBatchDataMiss ctx keys w = (Ok tt, log w (data_miss_events ctx keys)).
Proof. apply forEach_emit. Qed.

Lemma data_miss_events_app a b :
  data_miss_events ctx (a ++ b) =
    data_miss_events ctx a ++ data_miss_events ctx b.
Proof.
  unfold data_miss_events. destruct (onDataMiss ctx); [|reflexivity].
  apply map_app.
Qed.

Lemma data_miss_events_nil : data_miss_events ctx [] = [].
Proof. unfold data_miss_events. now destruct (onDataMiss ctx). Qed.

(** *** The resolver *)

(** The reads of [getManyBy], key after key: a data miss for each falsy
    read, and a [TypeError] at the first truthy read that is not a
    document. *)
Lemma mapM_resolve dict keys w :
  mapM (resolveOne ctx dict) keys w =
    ((if forallb (settles dict) keys
      then Ok (List.map (fun key =>
                           match settle (DocDict.get key dict) with
                           | Some v => v
                           | None => VNull
                           end) keys)
      else Throw not_a_document),
     log w (data_miss_events ctx (reported_in dict keys))).
Proof.
  revert w. induction keys as [|key keys IH]; intros w.
  - simpl. unfold ret. now rewrite data_miss_events_nil, log_nil.
  - simpl. unfold bind at 1. unfold resolveOne at 1. unfold settles at 1.
    destruct (DocDict.get key dict) as [d|v]; simpl.
    + unfold ret at 1. unfold bind. rewrite IH.
      now destruct (forallb (settles dict) keys).
    + destruct (truthy v); simpl.
      * unfold throw. now rewrite data_miss_events_nil, log_nil.
      * unfold bind at 1. rewrite onBatchDataMiss_run.
        unfold ret at 1. unfold bind. rewrite IH, log_log.
        rewrite <- data_miss_events_app.
        now destruct (forallb (settles dict) keys).
Qed.

(** [getManyBy] makes one store query and then reads the dictionary of
    the documents, key after key. *)
Lemma getManyBy_outcome queryKey keys w :
  getManyBy ctx queryKey keys w =
    (resolver_result ctx queryKey keys,
     log w (EFind (keyLookup queryKey) keys
              :: data_miss_events ctx (reported ctx queryKey keys))).
Proof.
  unfold getManyBy, model_find, bind, emit, ret. simpl.
  fold (byKey ctx queryKey keys). rewrite mapM_resolve.
  unfold resolver_result, returns, answers, reported.
  f_equal. unfold log. simpl. now rewrite <- app_assoc.
Qed.

(** For keys that are no members of [Object.prototype], the own properties
    of a dictionary with its first prototype decide every read. *)
Lemma resolver_ordinary dict keys :
  DocDict.proto dict = None ->
  ordinary keys = true ->
  forallb (settles dict) keys = true /\
  List.map (fun key =>
              match settle (DocDict.get key dict) with
              | Some v => v
              | None => VNull
              end) keys =
    List.map (resolve_key (DocDict.own dict)) keys /\
  reported_in dict keys =
    List.filter (fun key => negb (JsObj.has key (DocDict.own dict))) keys.
Proof.
  intros Hproto. induction keys as [|key keys IH]; intros Hord.
  - repeat split.
  - simpl in Hord. apply andb_prop in Hord as [Hkey Hord].
    apply negb_true_iff in Hkey.
    destruct (IH Hord) as (Hall & Hmap & Hrep). simpl.
    unfold settles at 1. unfold resolve_key at 1. unfold JsObj.has at 1.
    rewrite (get_fresh_document dict key Hproto Hkey).
    destruct (JsObj.get key (DocDict.own dict)) as [d|]; simpl;
      rewrite Hall, Hmap, Hrep; repeat split.
Qed.

Lemma byKey_fresh queryKey keys :
  plainly_keyed ctx queryKey keys = true ->
  DocDict.proto (byKey ctx queryKey keys) = None.
Proof. apply keyBy_documents_proto. Qed.

Lemma found_plainly queryKey keys :
  plainly_keyed ctx queryKey keys = true ->
  found ctx queryKey keys =
    keyBy JsObj.set JsObj.empty (fun d => prop (props d) queryKey)
          (find (model ctx) (keyLookup queryKey) keys).
Proof.
  intros H. unfold found, byKey, valueByKey. rewrite keyBy_documents.
  f_equal. now apply forallb_filter_id.
Qed.

Lemma resolver_plain queryKey keys :
  ordinary keys = true ->
  plainly_keyed ctx queryKey keys = true ->
  returns ctx queryKey keys = true /\
  answers ctx queryKey keys = resolved ctx queryKey keys /\
  reported ctx queryKey keys = unresolved ctx queryKey keys.
Proof.
  intros Hord Hplain.
  apply (resolver_ordinary (byKey ctx queryKey keys) keys);
    [now apply byKey_fresh|exact Hord].
Qed.

(** When no key names a member of [Object.prototype] and no document is
    keyed [__proto__], [getManyBy] returns: one store query, then one
    data-miss event per key without a document. *)
Lemma getManyBy_run queryKey keys w :
  ordinary keys = true ->
  plainly_keyed ctx queryKey keys = true ->
  getManyBy ctx queryKey keys w =
    (Ok (resolved ctx queryKey keys),
     log w (EFind (keyLookup queryKey) keys
              :: data_miss_events ctx (unresolved ctx queryKey keys))).
Proof.
  intros Hord Hplain. rewrite getManyBy_outcome. unfold resolver_result.
  destruct (resolver_plain queryKey keys Hord Hplain) as (-> & -> & ->).
  reflexivity.
Qed.

Lemma exec_gets (gets : list string) db :
  exec_batch (List.map OpGet gets) db =
    (List.map (fun k => reply_of (db !! k)) gets, db).
Proof.
  induction gets as [|k gets IH]; simpl; [reflexivity|].
  rewrite IH. unfold reply_of. reflexivity.
Qed.

Lemma batchGet_run keys w :
  redis_multi (batchGet ctx keys) w =
    (Ok (cachedData ctx (redis w) keys), log w [EMulti (batchGet ctx keys)]).
Proof.
  unfold redis_multi, batchGet.
  rewrite <- (map_map (withCachePrefix ctx) OpGet), exec_gets, map_map.
  reflexivity.
Qed.

Lemma set_batch_spec entries :
  set_batch JSON_stringify ctx entries =
    List.map (fun e => OpSet (withCachePrefix ctx (fst e))
                             (JSON_stringify (snd e)))
             (List.filter (fun e => truthy (snd e)) entries).
Proof.
  unfold set_batch.
  assert (H : forall acc,
    fold_left
      (fun (operations : list op) '(key, v) =>
         if negb (truthy v) then operations
         else (operations ++
               [OpSet (withCachePrefix ctx key) (JSON_stringify v)])%list)
      entries acc =
    (acc ++ List.map (fun e => OpSet (withCachePrefix ctx (fst e))
                                     (JSON_stringify (snd e)))
                     (List.filter (fun e => truthy (snd e)) entries))%list).
  { induction entries as [|[key v] entries IH]; intros acc; simpl.
    - now rewrite app_nil_r.
    - rewrite IH. destruct (truthy v); simpl; [|reflexivity].
      now rewrite <- app_assoc. }
  apply (H []).
Qed.

Lemma cacheSetMany_run entries w :
  cacheSetMany JSON_stringify ctx entries w =
    (Ok tt,
     let batch := set_batch JSON_stringify ctx entries in
     if enable ctx && negb (length batch =? 0)%nat
     then {| redis := apply_batch batch (redis w);
             trace := trace w ++ [EMulti batch] |}
     else w).
Proof.
  unfold cacheSetMany. destruct (enable ctx); simpl; [|reflexivity].
  destruct (length _ =? 0)%nat; simpl; [reflexivity|].
  unfold bind, redis_multi, apply_batch, ret.
  destruct (exec_batch _ _). reflexivity.
Qed.

(** *** The hit map *)

Lemma cachedKeyValue_from_spec db keys : forall pre total,
  match cachedKeyValue_from JSON_parse (pre ++ cachedData ctx db keys) keys
                            (length pre) total with
  | Ok ckv =>
      payloads_ok JSON_parse ctx db keys = true /\
      (JsObj.wf (Dict.own total) -> JsObj.wf (Dict.own ckv)) /\
      (forall k, k <> "__proto__" ->
         JsObj.get k (Dict.own ckv) =
           match (if existsb (String.eqb k) keys
                  then cache_entry JSON_parse ctx db k else None) with
           | Some v => Some v
           | None => JsObj.get k (Dict.own total)
           end) /\
      (~ In "__proto__" keys -> Dict.proto ckv = Dict.proto total)
  | Throw _ => payloads_ok JSON_parse ctx db keys = false
  end.
Proof.
  induction keys as [|key keys IH]; intros pre total.
  - simpl. split; [reflexivity|]. split; [auto|].
    split; [intros k _; reflexivity|intros _; reflexivity].
  - change (payloads_ok JSON_parse ctx db (key :: keys))
      with (payload_ok JSON_parse ctx db key
            && payloads_ok JSON_parse ctx db keys).
    simpl. rewrite nth_middle.
    specialize (IH (pre ++ [reply_of (db !! withCachePrefix ctx key)])).
    rewrite <- app_assoc, length_app, Nat.add_1_r in IH. simpl in IH.
    unfold payload_ok.
    destruct (db !! withCachePrefix ctx key) as [[|c s]|] eqn:Hdb; simpl.
    + specialize (IH total).
      destruct (cachedKeyValue_from _ _ _ _ _) as [ckv|e]; [|exact IH].
      destruct IH as (Hok & Hwf & Hget & Hproto).
      split; [exact Hok|]. split; [exact Hwf|]. split.
      * intros k Hk. rewrite (Hget k Hk).
        destruct (String.eqb_spec k key) as [->|Hne]; simpl; [|reflexivity].
        unfold cache_entry. rewrite Hdb.
        destruct (existsb _ keys); reflexivity.
      * intros Hnot. apply Hproto. intros Hin. apply Hnot. now right.
    + destruct (JSON_parse (String c s)) as [v|] eqn:Hparse; [|reflexivity].
      specialize (IH (Dict.set key v total)).
      destruct (cachedKeyValue_from _ _ _ _ _) as [ckv|e]; [|exact IH].
      destruct IH as (Hok & Hwf & Hget & Hproto).
      split; [exact Hok|].
      split; [intros Ht; apply Hwf; now apply DictFacts.own_wf_set|]. split.
      * intros k Hk. rewrite (Hget k Hk), (DictFacts.own_set _ _ _ _ Hk).
        destruct (String.eqb_spec k key) as [->|Hne]; simpl.
        -- unfold cache_entry. rewrite Hdb, Hparse.
           destruct (existsb _ keys); reflexivity.
        -- reflexivity.
      * intros Hnot. rewrite Hproto by (intros Hin; apply Hnot; now right).
        apply DictFacts.proto_set. intros ->. apply Hnot. now left.
    + specialize (IH total).
      destruct (cachedKeyValue_from _ _ _ _ _) as [ckv|e]; [|exact IH].
      destruct IH as (Hok & Hwf & Hget & Hproto).
      split; [exact Hok|]. split; [exact Hwf|]. split.
      * intros k Hk. rewrite (Hget k Hk).
        destruct (String.eqb_spec k key) as [->|Hne]; simpl; [|reflexivity].
        unfold cache_entry. rewrite Hdb.
        destruct (existsb _ keys); reflexivity.
      * intros Hnot. apply Hproto. intros Hin. apply Hnot. now right.
Qed.

Lemma existsb_eqb_In k keys : In k keys -> existsb (String.eqb k) keys = true.
Proof.
  intros H. apply existsb_exists. exists k. split; [exact H|].
  apply String.eqb_refl.
Qed.

(** The hit map exists exactly when every cached string parses.  It then
    holds as own property, for each requested key but [__proto__], the
    value parsed from its non-empty cached string, and its prototype is
    still [Object.prototype] unless [__proto__] was requested. *)
Lemma cachedKeyValue_Ok db keys ckv :
  cachedKeyValue JSON_parse ctx db keys = Ok ckv ->
  payloads_ok JSON_parse ctx db keys = true /\
  JsObj.wf (Dict.own ckv) /\
  (forall k, In k keys -> k <> "__proto__" ->
     JsObj.get k (Dict.own ckv) = cache_entry JSON_parse ctx db k) /\
  (~ In "__proto__" keys -> Dict.proto ckv = VBuiltin ObjectPrototype).
Proof.
  unfold cachedKeyValue. intros Hckv.
  pose proof (cachedKeyValue_from_spec db keys [] Dict.empty) as H.
  simpl in H. rewrite Hckv in H.
  destruct H as (Hok & Hwf & Hget & Hproto).
  split; [exact Hok|]. split; [apply Hwf, JsObjFacts.wf_empty|]. split.
  - intros k Hin Hk. rewrite (Hget k Hk), existsb_eqb_In by exact Hin.
    destruct (cache_entry _ _ _ _); reflexivity.
  - exact Hproto.
Qed.

Lemma cachedKeyValue_ok db keys :
  payloads_ok JSON_parse ctx db keys = true ->
  exists ckv, cachedKeyValue JSON_parse ctx db keys = Ok ckv.
Proof.
  intros Hok. unfold cachedKeyValue.
  pose proof (cachedKeyValue_from_spec db keys [] Dict.empty) as H.
  simpl in H.
  destruct (cachedKeyValue_from _ _ _ _ _) as [ckv|e]; [eauto|congruence].
Qed.

Lemma cachedKeyValue_throw db keys :
  payloads_ok JSON_parse ctx db keys = false ->
  exists e, cachedKeyValue JSON_parse ctx db keys = Throw e.
Proof.
  intros Hbad. unfold cachedKeyValue.
  pose proof (cachedKeyValue_from_spec db keys [] Dict.empty) as H.
  simpl in H.
  destruct (cachedKeyValue_from _ _ _ _ _) as [ckv|e]; [|eauto].
  destruct H as (Hok & _). congruence.
Qed.

(** What the hit map reads for a requested key when [__proto__] is not
    requested. *)
Lemma hit_read db keys ckv k :
  cachedKeyValue JSON_parse ctx db keys = Ok ckv ->
  ~ In "__proto__" keys ->
  In k keys ->
  Dict.get k ckv =
    match cache_entry JSON_parse ctx db k with
    | Some v => v
    | None => object_member (VBuiltin ObjectPrototype) k
    end.
Proof.
  intros Hckv Hnot Hin.
  destruct (cachedKeyValue_Ok db keys ckv Hckv) as (_ & _ & Hget & Hproto).
  rewrite (DictFacts.get_fresh _ _ (Hproto Hnot)), Hget; [reflexivity| |].
  - exact Hin.
  - intros ->. contradiction.
Qed.

Lemma hit_read_ordinary db keys ckv k :
  cachedKeyValue JSON_parse ctx db keys = Ok ckv ->
  ordinary keys = true ->
  In k keys ->
  Dict.get k ckv =
    match cache_entry JSON_parse ctx db k with
    | Some v => v
    | None => VUndefined
    end.
Proof.
  intros Hckv Hord Hin.
  rewrite (hit_read db keys ckv k Hckv (ordinary_proto _ Hord) Hin).
  now rewrite (object_member_ordinary _ _ (ordinary_In _ _ Hord Hin)).
Qed.

Lemma missedKeysFromCache_missed db keys ckv :
  (forall k, In k keys ->
     Dict.get k ckv = match cache_entry JSON_parse ctx db k with
                      | Some v => v
                      | None => VUndefined
                      end) ->
  missedKeysFromCache ckv keys = missed JSON_parse ctx db keys.
Proof.
  intros Hget. unfold missedKeysFromCache, missed.
  apply filter_ext_in. intros k Hin.
  unfold cache_hit. rewrite (Hget k Hin).
  destruct (cache_entry _ _ _ _) as [v|]; [|reflexivity].
  destruct (truthy v); reflexivity.
Qed.

Lemma or_null_prop_hit db keys ckv k :
  (forall k, In k keys ->
     Dict.get k ckv = match cache_entry JSON_parse ctx db k with
                      | Some v => v
                      | None => VUndefined
                      end) ->
  In k keys ->
  or_null (Dict.get k ckv) =
    match cache_hit JSON_parse ctx db k with Some v => v | None => VNull end.
Proof.
  intros Hget Hin. unfold cache_hit, or_null. rewrite (Hget k Hin).
  destruct (cache_entry _ _ _ _) as [v|]; [|reflexivity].
  destruct (truthy v); reflexivity.
Qed.

Lemma misses_missed db keys :
  ordinary keys = true ->
  misses JSON_parse ctx db keys = missed JSON_parse ctx db keys
  \/ payloads_ok JSON_parse ctx db keys = false.
Proof.
  intros Hord. unfold misses.
  destruct (cachedKeyValue JSON_parse ctx db keys) as [ckv|e] eqn:Hckv.
  - left. apply missedKeysFromCache_missed. intros k Hin.
    now apply (hit_read_ordinary db keys).
  - right. pose proof (cachedKeyValue_from_spec db keys [] Dict.empty) as H.
    simpl in H. unfold cachedKeyValue in Hckv. now rewrite Hckv in H.
Qed.

(** *** Staged writes *)

Lemma alias_fold_get (r : value) (fields : list string) total k :
  k <> "__proto__" ->
  JsObj.get k
    (Dict.own
       (fold_left (fun total additionalCacheKey =>
                     Dict.set (to_string (value_prop r additionalCacheKey))
                              r total)
                  fields total)) =
    if existsb (fun a => String.eqb k (to_string (value_prop r a))) fields
    then Some r else JsObj.get k (Dict.own total).
Proof.
  intros Hk. revert total.
  induction fields as [|a fields IH]; intros total; simpl.
  - reflexivity.
  - rewrite IH, (DictFacts.own_set _ _ _ _ Hk).
    destruct (String.eqb k (to_string (value_prop r a))); simpl;
      destruct (existsb _ fields); reflexivity.
Qed.

Lemma alias_fold_In (r : value) (fields : list string) total e :
  In e (Dict.own
          (fold_left (fun total additionalCacheKey =>
                        Dict.set (to_string (value_prop r additionalCacheKey))
                                 r total)
                     fields total)) ->
  (snd e = r /\
   exists a, In a fields /\ to_string (value_prop r a) = fst e)
  \/ In e (Dict.own total).
Proof.
  revert total. induction fields as [|a fields IH]; intros total; simpl.
  - now right.
  - intros H. apply IH in H as [(Hr & a' & Ha' & Hkey)|H].
    + left. split; [exact Hr|]. exists a'. auto.
    + apply DictFacts.own_set_In in H as [->|H]; [|now right].
      left. split; [reflexivity|]. exists a. auto.
Qed.

Lemma alias_fold_wf (r : value) (fields : list string) total :
  JsObj.wf (Dict.own total) ->
  JsObj.wf
    (Dict.own
       (fold_left (fun total additionalCacheKey =>
                     Dict.set (to_string (value_prop r additionalCacheKey))
                              r total)
                  fields total)).
Proof.
  revert total. induction fields as [|a fields IH]; intros total H; simpl.
  - exact H.
  - apply IH. now apply DictFacts.own_wf_set.
Qed.

Lemma storedKeyValue_snoc entries key v :
  storedKeyValue ctx (entries ++ [(key, v)]) =
    if truthy v then
      fold_left (fun total additionalCacheKey =>
                   Dict.set (to_string (value_prop v additionalCacheKey))
                            v total)
                (additionalCacheKeys ctx)
                (Dict.set key v (storedKeyValue ctx entries))
    else storedKeyValue ctx entries.
Proof. unfold storedKeyValue. rewrite fold_left_app. reflexivity. Qed.

Lemma storedKeyValue_wf entries :
  JsObj.wf (Dict.own (storedKeyValue ctx entries)).
Proof.
  induction entries as [|[key v] entries IH] using rev_ind.
  - apply JsObjFacts.wf_empty.
  - rewrite storedKeyValue_snoc. destruct (truthy v); [|exact IH].
    apply alias_fold_wf. now apply DictFacts.own_wf_set.
Qed.

Lemma entry_claims_dec e k :
  entry_claims ctx e k <->
  (String.eqb k (fst e)
   || existsb (fun a => String.eqb k (to_string (value_prop (snd e) a)))
              (additionalCacheKeys ctx)) = true.
Proof.
  unfold entry_claims. rewrite orb_true_iff, String.eqb_eq, existsb_exists.
  split; (intros [H|(a & Hin & Ha)]; [now left|right; exists a; split; auto]).
  - now apply String.eqb_eq.
  - now apply String.eqb_eq in Ha.
Qed.

(** Every own property of the staged dictionary was assigned for a truthy
    entry that claims its key. *)
Lemma storedKeyValue_In entries k r :
  In (k, r) (Dict.own (storedKeyValue ctx entries)) ->
  exists e,
    In e entries /\ snd e = r /\ truthy r = true /\ entry_claims ctx e k.
Proof.
  induction entries as [|[key v] entries IH] using rev_ind.
  - intros [].
  - rewrite storedKeyValue_snoc.
    assert (Hold : In (k, r) (Dict.own (storedKeyValue ctx entries)) ->
                   exists e, In e (entries ++ [(key, v)]) /\ snd e = r /\
                             truthy r = true /\ entry_claims ctx e k).
    { intros H. apply IH in H as (e & Hin & He).
      exists e. split; [apply in_or_app; now left|exact He]. }
    destruct (truthy v) eqn:Hv; [|exact Hold].
    intros H. apply alias_fold_In in H as [(Hr & a & Ha & Hkey)|H].
    + simpl in Hr, Hkey. subst r. exists (key, v).
      split; [apply in_or_app; right; now left|].
      repeat split; auto. right. exists a. auto.
    + apply DictFacts.own_set_In in H as [H|H]; [|now apply Hold].
      injection H as -> ->. exists (key, v).
      split; [apply in_or_app; right; now left|].
      repeat split; auto. now left.
Qed.

Lemma storedKeyValue_get_Some entries k r :
  JsObj.get k (Dict.own (storedKeyValue ctx entries)) = Some r ->
  exists e,
    In e entries /\ snd e = r /\ truthy r = true /\ entry_claims ctx e k.
Proof. intros H. now apply storedKeyValue_In, JsObjFacts.get_In. Qed.

(** A key other than [__proto__] that a truthy entry claims is staged. *)
Lemma storedKeyValue_get_claimed entries e k :
  k <> "__proto__" ->
  In e entries -> truthy (snd e) = true -> entry_claims ctx e k ->
  exists r, JsObj.get k (Dict.own (storedKeyValue ctx entries)) = Some r.
Proof.
  intros Hk.
  induction entries as [|[key v] entries IH] using rev_ind; [intros []|].
  intros Hin Htruthy Hclaims. rewrite storedKeyValue_snoc.
  apply in_app_or in Hin as [Hin|[<-|[]]].
  - destruct (IH Hin Htruthy Hclaims) as (r & Hr).
    destruct (truthy v); [|eauto].
    rewrite (alias_fold_get _ _ _ _ Hk), (DictFacts.own_set _ _ _ _ Hk), Hr.
    destruct (existsb _ _); [eauto|].
    destruct (String.eqb k key); eauto.
  - simpl in Htruthy. rewrite Htruthy.
    rewrite (alias_fold_get _ _ _ _ Hk), (DictFacts.own_set _ _ _ _ Hk).
    apply entry_claims_dec in Hclaims. simpl in Hclaims.
    destruct (existsb _ _); [eauto|].
    rewrite orb_false_r in Hclaims. rewrite Hclaims. eauto.
Qed.

Lemma storedKeyValue_get_None entries k :
  k <> "__proto__" ->
  JsObj.get k (Dict.own (storedKeyValue ctx entries)) = None ->
  forall e, In e entries -> truthy (snd e) = true -> ~ entry_claims ctx e k.
Proof.
  intros Hk Hnone e Hin Ht Hclaims.
  destruct (storedKeyValue_get_claimed entries e k Hk Hin Ht Hclaims)
    as (r & Hr).
  congruence.
Qed.

(** The entries handed to the fill are the retained records, each under
    the string form of its looked-up field. *)
Lemma storedDataEntries_In cacheKey storedData e :
  In e (storedDataEntries cacheKey storedData) ->
  In (snd e) storedData /\ truthy (snd e) = true /\
  fst e = to_string (value_prop (snd e) cacheKey).
Proof.
  unfold storedDataEntries, Dict.entries. rewrite JsObjFacts.In_entries.
  intros Hin. apply DictFacts.keyBy_In in Hin as [Hin Hkey].
  apply filter_In in Hin as [Hin Ht]. auto.
Qed.

Lemma retained_In cacheKey storedData r :
  In r (retained cacheKey storedData) ->
  In r storedData /\ truthy r = true.
Proof.
  unfold retained. rewrite in_map_iff. intros (e & <- & Hin).
  apply storedDataEntries_In in Hin as (H1 & H2 & _). split; assumption.
Qed.

Lemma entry_claims_retained cacheKey storedData e k :
  In e (storedDataEntries cacheKey storedData) ->
  entry_claims ctx e k <-> claims ctx cacheKey (snd e) k.
Proof.
  intros Hin. apply storedDataEntries_In in Hin as (_ & _ & Hkey).
  unfold entry_claims, claims. rewrite Hkey.
  split; (intros [H|H]; [left; congruence|right; exact H]).
Qed.

(** A record is staged under a key only if it is retained and claims the
    key; a key other than [__proto__] that a retained record claims is
    staged. *)
Lemma staged_get_Some cacheKey db keys k r :
  JsObj.get k (staged JSON_parse ctx cacheKey db keys) = Some r ->
  In r (retained cacheKey
          (resolved ctx cacheKey (missed JSON_parse ctx db keys))) /\
  claims ctx cacheKey r k.
Proof.
  unfold staged. intros H.
  apply storedKeyValue_get_Some in H as (e & Hin & <- & _ & Hclaims).
  split.
  - unfold retained. now apply in_map.
  - now apply (entry_claims_retained _ _ _ _ Hin).
Qed.

Lemma staged_get_claimed cacheKey db keys k r :
  k <> "__proto__" ->
  In r (retained cacheKey
          (resolved ctx cacheKey (missed JSON_parse ctx db keys))) ->
  claims ctx cacheKey r k ->
  exists r', JsObj.get k (staged JSON_parse ctx cacheKey db keys) = Some r'.
Proof.
  unfold staged, retained. rewrite in_map_iff.
  intros Hk (e & <- & Hin) Hclaims.
  apply storedKeyValue_get_claimed with (e := e); [exact Hk|exact Hin| |].
  - apply storedDataEntries_In in Hin as (_ & Ht & _). exact Ht.
  - now apply (entry_claims_retained _ _ _ _ Hin).
Qed.

Lemma staged_wf cacheKey db keys :
  JsObj.wf (staged JSON_parse ctx cacheKey db keys).
Proof. apply storedKeyValue_wf. Qed.

Lemma staged_truthy cacheKey db keys e :
  In e (JsObj.entries (staged JSON_parse ctx cacheKey db keys)) ->
  truthy (snd e) = true.
Proof.
  rewrite JsObjFacts.In_entries. destruct e as [k r]. intros Hin.
  apply JsObjFacts.In_get in Hin; [|apply staged_wf].
  apply staged_get_Some in Hin as [Hin _].
  apply retained_In in Hin as [_ Ht]. exact Ht.
Qed.

End Runs.

(** ** The batched read, step by step *)

Section Read.

Variable JSON_stringify : value -> string.
Variable JSON_parse : string -> option value.
Variable ctx : CacheContext.

Lemma append_inj_r (p a b : string) : p +:+ a = p +:+ b -> a = b.
Proof.
  induction p as [|c p IH]; simpl; [auto|].
  intros [= H]. auto.
Qed.

(** Two raw keys never share a cache key. *)
Lemma withCachePrefix_inj k k' :
  withCachePrefix ctx k = withCachePrefix ctx k' -> k = k'.
Proof.
  unfold withCachePrefix. intros H.
  apply append_inj_r in H. apply append_inj_r in H. exact H.
Qed.

Lemma apply_batch_nil db : apply_batch [] db = db.
Proof. reflexivity. Qed.

Lemma apply_batch_cons_set k s batch db :
  apply_batch (OpSet k s :: batch) db = apply_batch batch (<[k:=s]> db).
Proof.
  unfold apply_batch. simpl.
  destruct (exec_batch batch (<[k:=s]> db)). reflexivity.
Qed.

(** After a batch of writes with pairwise distinct keys, each written slot
    holds its payload and every other slot is unchanged. *)
Lemma apply_sets_lookup (l : JsObj.t value) db k :
  JsObj.wf l ->
  apply_batch
    (List.map (fun e => OpSet (withCachePrefix ctx (fst e))
                              (JSON_stringify (snd e))) l) db
    !! withCachePrefix ctx k =
    match JsObj.get k l with
    | Some v => Some (JSON_stringify v)
    | None => db !! withCachePrefix ctx k
    end.
Proof.
  unfold JsObj.wf. revert db.
  induction l as [|[k0 v0] l IH]; intros db Hwf; simpl.
  - reflexivity.
  - inversion Hwf as [|? ? Hnotin Hrest]; subst.
    rewrite apply_batch_cons_set, IH by exact Hrest.
    destruct (String.eqb_spec k k0) as [->|Hk].
    + apply JsObjFacts.get_None in Hnotin. rewrite Hnotin.
      apply lookup_insert_eq.
    + destruct (JsObj.get k l); [reflexivity|].
      apply lookup_insert_ne. intros H. apply withCachePrefix_inj in H.
      congruence.
Qed.

Lemma apply_sets_other (l : JsObj.t value) db slot :
  (forall k, slot <> withCachePrefix ctx k) ->
  apply_batch
    (List.map (fun e => OpSet (withCachePrefix ctx (fst e))
                              (JSON_stringify (snd e))) l) db
    !! slot = db !! slot.
Proof.
  intros Hslot. revert db.
  induction l as [|[k0 v0] l IH]; intros db; simpl; [reflexivity|].
  rewrite apply_batch_cons_set, IH.
  apply lookup_insert_ne. auto.
Qed.

(** Every staged entry is truthy, so the fill writes all of them. *)
Lemma fill_batch_spec cacheKey db keys :
  fill_batch JSON_stringify JSON_parse ctx cacheKey db keys =
    List.map (fun e => OpSet (withCachePrefix ctx (fst e))
                             (JSON_stringify (snd e)))
             (JsObj.entries (staged JSON_parse ctx cacheKey db keys)).
Proof.
  unfold fill_batch. rewrite set_batch_spec. f_equal.
  apply forallb_filter_id. apply forallb_forall.
  intros e He. eapply staged_truthy; eauto.
Qed.

Lemma staged_nil cacheKey db keys :
  missed JSON_parse ctx db keys = [] ->
  staged JSON_parse ctx cacheKey db keys = JsObj.empty.
Proof. unfold staged. intros ->. reflexivity. Qed.

(** The slot of a key after a read: the staged payload if the key is
    staged, its former content otherwise. *)
Lemma fill_lookup cacheKey db keys k :
  apply_batch (fill_batch JSON_stringify JSON_parse ctx cacheKey db keys) db
    !! withCachePrefix ctx k =
    match JsObj.get k (staged JSON_parse ctx cacheKey db keys) with
    | Some r => Some (JSON_stringify r)
    | None => db !! withCachePrefix ctx k
    end.
Proof.
  rewrite fill_batch_spec, apply_sets_lookup.
  - rewrite JsObjFacts.get_entries by apply staged_wf. reflexivity.
  - apply JsObjFacts.wf_entries, staged_wf.
Qed.

(** The answer read from the merged dictionary, for a key that is no
    member of [Object.prototype]. *)
Lemma answer_spread cacheKey db keys ckv k :
  JsObj.wf (Dict.own ckv) ->
  inherited k = false ->
  JsObj.get k (Dict.own ckv) = cache_entry JSON_parse ctx db k ->
  or_null
    (Dict.get k
       (Dict.spread ckv
          (storedKeyValue ctx
             (storedDataEntries cacheKey
                (resolved ctx cacheKey (missed JSON_parse ctx db keys))))))
    = answer JSON_parse ctx cacheKey db keys k.
Proof.
  intros Hwf Hk Hget.
  rewrite DictFacts.get_fresh by reflexivity. simpl Dict.own.
  rewrite JsObjFacts.get_spread; [|exact Hwf|apply storedKeyValue_wf].
  fold (staged JSON_parse ctx cacheKey db keys). unfold answer.
  destruct (JsObj.get k (staged _ _ _ _ _)) as [r|] eqn:Hr.
  - apply staged_get_Some in Hr as [Hr _]. apply retained_In in Hr as [_ Ht].
    unfold or_null. now rewrite Ht.
  - rewrite Hget. unfold cache_hit, or_null.
    destruct (cache_entry _ _ _ _) as [v|].
    + destruct (truthy v); reflexivity.
    + now rewrite object_member_ordinary.
Qed.

Lemma fill_of_nil cacheKey : fill_of JSON_stringify ctx cacheKey [] = [].
Proof. reflexivity. Qed.

(** Every call of [cacheGetManyBy], whatever its outcome: the result, the
    cache it leaves and the external calls it makes. *)
Lemma cacheGetManyBy_run cacheKey keys w :
  cacheGetManyBy JSON_stringify JSON_parse ctx cacheKey keys w =
    (read_result JSON_parse ctx cacheKey (redis w) keys,
     {| redis :=
          read_redis JSON_stringify JSON_parse ctx cacheKey (redis w) keys;
        trace :=
          trace w ++
            read_events JSON_stringify JSON_parse ctx cacheKey (redis w)
                        keys |}).
Proof.
  unfold cacheGetManyBy, read_result, read_redis, read_events.
  destruct (enable ctx) eqn:Hon; simpl.
  - unfold bind at 1. rewrite batchGet_run. simpl redis.
    fold (cachedKeyValue JSON_parse ctx (redis w) keys). unfold misses.
    destruct (cachedKeyValue JSON_parse ctx (redis w) keys) as [ckv|e];
      [|reflexivity].
    destruct (missedKeysFromCache ckv keys) as [|m ms]; [reflexivity|].
    change (0 <? length (m :: ms))%nat with true. cbv iota.
    unfold bind at 1. rewrite onBatchCacheMiss_run.
    unfold bind at 1. rewrite getManyBy_outcome.
    unfold resolver_result, after_hits, fill_of.
    destruct (returns ctx cacheKey (m :: ms)).
    + unfold bind at 1. rewrite cacheSetMany_run. unfold ret.
      fold (stored ctx cacheKey (m :: ms)).
      destruct (set_batch JSON_stringify ctx
                  (Dict.entries (stored ctx cacheKey (m :: ms))))
        as [|o batch]; rewrite Hon; simpl; unfold log; simpl;
        do 2 f_equal; rewrite <- !app_assoc; simpl;
        rewrite <- ?app_assoc, ?app_nil_r; reflexivity.
    + unfold log. simpl. do 2 f_equal.
      rewrite <- !app_assoc, app_nil_r. reflexivity.
  - rewrite getManyBy_outcome. reflexivity.
Qed.

Lemma misses_sub db keys k :
  In k (misses JSON_parse ctx db keys) -> In k keys.
Proof.
  unfold misses. destruct (cachedKeyValue _ _ _ _); [|intros []].
  unfold missedKeysFromCache. rewrite filter_In. now intros [H _].
Qed.

(** A key other than [__proto__] that is taken for missing has no cache
    hit. *)
Lemma misses_no_hit db keys k :
  In k (misses JSON_parse ctx db keys) ->
  k <> "__proto__" ->
  cache_hit JSON_parse ctx db k = None.
Proof.
  unfold misses.
  destruct (cachedKeyValue JSON_parse ctx db keys) as [ckv|e] eqn:Hckv;
    [|intros []].
  unfold missedKeysFromCache. rewrite filter_In. intros [Hin Hmiss] Hk.
  destruct (cachedKeyValue_Ok JSON_parse ctx db keys ckv Hckv)
    as (_ & _ & Hget & _).
  unfold Dict.get in Hmiss. rewrite (Hget k Hin Hk) in Hmiss.
  unfold cache_hit. destruct (cache_entry _ _ _ _) as [v|]; [|reflexivity].
  apply negb_true_iff in Hmiss. now rewrite Hmiss.
Qed.

(** With the cache enabled, every cached string well formed, no key naming
    a member of [Object.prototype] and no document keyed [__proto__], a read
    returns one answer per key and leaves the world described by
    [fill_batch] and [fill_events]. *)
Lemma cacheGetManyBy_ok cacheKey keys w :
  enable ctx = true ->
  payloads_ok JSON_parse ctx (redis w) keys = true ->
  ordinary keys = true ->
  plainly_keyed ctx cacheKey (missed JSON_parse ctx (redis w) keys) = true ->
  cacheGetManyBy JSON_stringify JSON_parse ctx cacheKey keys w =
    (Ok (List.map (answer JSON_parse ctx cacheKey (redis w) keys) keys),
     {| redis :=
          apply_batch
            (fill_batch JSON_stringify JSON_parse ctx cacheKey (redis w) keys)
            (redis w);
        trace :=
          trace w ++ EMulti (batchGet ctx keys)
            :: fill_events JSON_stringify JSON_parse ctx cacheKey (redis w)
                           keys |}).
Proof.
  intros Hon Hok Hord Hplain. rewrite cacheGetManyBy_run.
  unfold read_result, read_redis, read_events. rewrite Hon. simpl negb.
  cbv iota.
  destruct (misses_missed JSON_parse ctx (redis w) keys Hord) as [Hms|Hbad];
    [|congruence].
  rewrite Hms.
  destruct (cachedKeyValue_ok JSON_parse ctx (redis w) keys Hok)
    as (ckv & Hckv).
  rewrite Hckv.
  destruct (cachedKeyValue_Ok JSON_parse ctx (redis w) keys ckv Hckv)
    as (_ & Hwf & Hget & _).
  pose proof (hit_read_ordinary JSON_parse ctx (redis w) keys ckv) as Hread.
  specialize (fun k => Hread k Hckv Hord).
  unfold fill_events, fill_batch, after_hits, fill_of.
  destruct (missed JSON_parse ctx (redis w) keys) as [|m ms] eqn:Hmissed.
  - simpl. f_equal; [|now rewrite (staged_nil cacheKey _ _ Hmissed)].
    f_equal. apply map_ext_in. intros k Hin.
    rewrite (or_null_prop_hit JSON_parse ctx (redis w) keys ckv k Hread Hin).
    unfold answer. now rewrite (staged_nil cacheKey _ _ Hmissed).
  - assert (Hordm : ordinary (m :: ms) = true).
    { rewrite <- Hmissed. unfold missed. now apply ordinary_filter. }
    destruct (resolver_plain ctx cacheKey (m :: ms) Hordm Hplain)
      as (Hret & Hans & Hrep).
    rewrite Hret, Hrep. unfold stored. rewrite Hans.
    assert (Hstaged :
      Dict.own (storedKeyValue ctx
        (storedDataEntries cacheKey (resolved ctx cacheKey (m :: ms)))) =
      staged JSON_parse ctx cacheKey (redis w) keys).
    { unfold staged. now rewrite Hmissed. }
    unfold Dict.entries. rewrite Hstaged. f_equal.
    f_equal. apply map_ext_in. intros k Hin.
    rewrite <- Hmissed.
    apply answer_spread; [exact Hwf|exact (ordinary_In _ _ Hord Hin)|].
    apply Hget; [exact Hin|].
    apply inherited_proto. exact (ordinary_In _ _ Hord Hin).
Qed.

(** A malformed cached string aborts the read right after the batched cache
    read. *)
Lemma cacheGetManyBy_throw cacheKey keys w :
  enable ctx = true ->
  payloads_ok JSON_parse ctx (redis w) keys = false ->
  exists e,
    cacheGetManyBy JSON_stringify JSON_parse ctx cacheKey keys w =
      (Throw e, log w [EMulti (batchGet ctx keys)]).
Proof.
  intros Hon Hbad. rewrite cacheGetManyBy_run.
  unfold read_result, read_redis, read_events, misses. rewrite Hon. simpl.
  destruct (cachedKeyValue_throw JSON_parse ctx (redis w) keys Hbad)
    as (e & He).
  rewrite He. exists e. reflexivity.
Qed.



Lemma plain_read_elim cacheKey db keys :
  plain_read JSON_parse ctx cacheKey db keys = true ->
  ordinary keys = true /\
  plainly_keyed ctx cacheKey (missed JSON_parse ctx db keys) = true.
Proof.
  unfold plain_read, plain_lookup. intros H.
  apply andb_prop in H as [H Hord]. apply andb_prop in H as [_ Hplain].
  auto.
Qed.

(** A plain read that finds every cached string well formed. *)
Lemma plain_read_run cacheKey keys w :
  enable ctx = true ->
  payloads_ok JSON_parse ctx (redis w) keys = true ->
  plain_read JSON_parse ctx cacheKey (redis w) keys = true ->
  cacheGetManyBy JSON_stringify JSON_parse ctx cacheKey keys w =
    (Ok (List.map (answer JSON_parse ctx cacheKey (redis w) keys) keys),
     {| redis :=
          apply_batch
            (fill_batch JSON_stringify JSON_parse ctx cacheKey (redis w) keys)
            (redis w);
        trace :=
          trace w ++ EMulti (batchGet ctx keys)
            :: fill_events JSON_stringify JSON_parse ctx cacheKey (redis w)
                           keys |}).
Proof.
  intros Hon Hok Hplain.
  destruct (plain_read_elim cacheKey (redis w) keys Hplain) as [Hord Hk].
  now apply cacheGetManyBy_ok.
Qed.

End Read.

(** ** Invalidation *)

Lemma exec_dels (slots : list string) db :
  snd (exec_batch (List.map OpDel slots) db) =
    fold_left (fun db slot => delete slot db) slots db.
Proof.
  revert db. induction slots as [|slot slots IH]; intros db; simpl.
  - reflexivity.
  - rewrite <- IH. destruct (exec_batch _ (delete slot db)). reflexivity.
Qed.

Lemma fold_delete_lookup (slots : list string) (db : gmap string string) slot :
  In slot slots ->
  fold_left (fun db slot => delete slot db) slots db !! slot = None.
Proof.
  assert (Hkeep : forall slots (db : gmap string string),
            db !! slot = None ->
            fold_left (fun db slot => delete slot db) slots db !! slot = None).
  { clear. intros slots.
    induction slots as [|s slots IH]; intros db H; simpl; [exact H|].
    apply IH. destruct (decide (s = slot)) as [->|Hne].
    - apply lookup_delete_eq.
    - rewrite lookup_delete_ne by exact Hne. exact H. }
  revert db. induction slots as [|s slots IH]; intros db; simpl; [intros []|].
  intros [->|Hin].
  - apply Hkeep, lookup_delete_eq.
  - now apply IH.
Qed.

Lemma fold_delete_map {A} (f : A -> string) (l : list A)
    (db : gmap string string) :
  fold_left (fun db slot => delete slot db) (List.map f l) db =
    fold_left (fun db x => delete (f x) db) l db.
Proof.
  revert db. induction l as [|x l IH]; intros db; simpl;
    [reflexivity|apply IH].
Qed.

Lemma cacheClearMany_run (ctx : CacheContext) (keys : list string) (w : world) :
  cacheClearMany ctx keys w =
    (Ok tt,
     {| redis := fold_left (fun db key => delete (withCachePrefix ctx key) db)
                           keys (redis w);
        trace := trace w ++
                 [EMulti (List.map (fun key => OpDel (withCachePrefix ctx key))
                                   keys)] |}).
Proof.
  unfold cacheClearMany, bind, redis_multi, ret.
  pose proof (exec_dels (List.map (withCachePrefix ctx) keys) (redis w))
    as Hdel.
  rewrite map_map, fold_delete_map in Hdel.
  destruct (exec_batch _ (redis w)) as [rs db]. simpl in Hdel. subst db.
  reflexivity.
Qed.

(** C8. [cacheClearMany] never fails and makes exactly one external call: a
    single [redis.multi] batch holding one [del] of the prefixed key for
    every input key, in order.  It does so whatever the [enable] flag is and
    whatever the cache holds, and afterwards no input key has a cache
    entry. *)
Theorem cacheClearMany_one_batched_delete
    (ctx : CacheContext) (keys : list string) (w : world) :
  cacheClearMany ctx keys w =
    (Ok tt,
     {| redis := fold_left (fun db key => delete (withCachePrefix ctx key) db)
                           keys (redis w);
        trace := trace w ++
                 [EMulti (List.map (fun key => OpDel (withCachePrefix ctx key))
                                   keys)] |})
  /\ (forall flag,
        cacheClearMany (with_enable ctx flag) keys w =
          cacheClearMany ctx keys w)
  /\ (forall key, In key keys ->
        redis (snd (cacheClearMany ctx keys w)) !! withCachePrefix ctx key
          = None).
Proof.
  split; [apply cacheClearMany_run|]. split.
  - intros flag. reflexivity.
  - intros key Hin. rewrite cacheClearMany_run. simpl.
    rewrite <- (fold_delete_map (withCachePrefix ctx)).
    apply fold_delete_lookup. now apply in_map.
Qed.

(** ** Write-through *)

(** C7. [cacheSetMany] never fails.  The batch it builds holds one [set] of
    the serialized value for each entry whose value is truthy, in order, so a
    write is staged only for non-null values and a null (or absent) value is
    dropped without a trace.  The batch is sent as one [redis.multi] call
    when the cache is enabled and the batch is not empty; otherwise the call
    touches nothing. *)
Theorem cacheSetMany_one_batched_write
    (JSON_stringify : value -> string) (ctx : CacheContext)
    (entries : list (string * value)) (w : world) :
  let survivors := List.filter (fun e => truthy (snd e)) entries in
  let batch :=
    List.map (fun e => OpSet (withCachePrefix ctx (fst e))
                             (JSON_stringify (snd e))) survivors in
  cacheSetMany JSON_stringify ctx entries w =
    (Ok tt,
     match enable ctx, batch with
     | true, _ :: _ => {| redis := apply_batch batch (redis w);
                          trace := trace w ++ [EMulti batch] |}
     | _, _ => w
     end)
  /\ (forall e, In e survivors ->
        In e entries /\ snd e <> VNull /\ snd e <> VUndefined)
  /\ (forall key v, In (key, v) entries -> v = VNull \/ v = VUndefined ->
        ~ In (key, v) survivors)
  /\ cacheSetMany JSON_stringify ctx entries w =
       cacheSetMany JSON_stringify ctx survivors w.
Proof.
  intros survivors batch.
  assert (Hbatch : set_batch JSON_stringify ctx entries = batch)
    by apply set_batch_spec.
  assert (Hsurv : forall e, In e survivors ->
            In e entries /\ snd e <> VNull /\ snd e <> VUndefined).
  { intros e He. apply filter_In in He as [Hin Ht].
    split; [exact Hin|]. split; intros Heq; rewrite Heq in Ht; discriminate. }
  split; [|split; [exact Hsurv|split]].
  - rewrite cacheSetMany_run. cbv zeta. rewrite Hbatch.
    destruct (enable ctx); [|reflexivity].
    destruct batch; reflexivity.
  - intros key v _ Hv Hin. apply Hsurv in Hin as (_ & Hn & Hu).
    simpl in *. destruct Hv; contradiction.
  - rewrite !cacheSetMany_run. cbv zeta.
    rewrite !set_batch_spec.
    assert (Hidem : List.filter (fun e : string * value => truthy (snd e))
                                survivors = survivors).
    { apply forallb_filter_id, forallb_forall.
      intros e He. apply filter_In in He. tauto. }
    rewrite Hidem. reflexivity.
Qed.

(** ** The disabled cache *)

Lemma reported_in_sub dict keys k :
  In k (reported_in dict keys) -> In k keys.
Proof.
  induction keys as [|key keys IH]; simpl; [auto|].
  destruct (DocDict.get key dict) as [d|v].
  - intros H. right. auto.
  - destruct (truthy v); [intros []|].
    intros [->|H]; [now left|right; auto].
Qed.

(** C6. With [enable = false], [cacheGetManyBy] is [getManyBy], for every
    field and every key list: the same outcome in the same final world.
    The call makes no cache round trip and reports no cache miss; all it
    adds to the trace is the store query and the data-miss events of the
    resolver, each for a requested key, and the cache is left untouched. *)
Theorem disabled_cacheGetManyBy_is_getManyBy
    (JSON_stringify : value -> string) (JSON_parse : string -> option value)
    (ctx : CacheContext) (cacheKey : string) (keys : list string) (w : world) :
  enable ctx = false ->
  cacheGetManyBy JSON_stringify JSON_parse ctx cacheKey keys w =
    getManyBy ctx cacheKey keys w
  /\ exists data_misses,
       (forall key, In key data_misses -> In key keys)
       /\ snd (cacheGetManyBy JSON_stringify JSON_parse ctx cacheKey keys w) =
            {| redis := redis w;
               trace := trace w ++
                        EFind (keyLookup cacheKey) keys
                        :: data_miss_events ctx data_misses |}
       /\ Forall (fun e => match e with
                           | EFind _ _ | EDataMiss _ _ => True
                           | EMulti _ | ECacheMiss _ _ => False
                           end)
                 (EFind (keyLookup cacheKey) keys
                    :: data_miss_events ctx data_misses).
Proof.
  intros Hoff.
  assert (Heq : cacheGetManyBy JSON_stringify JSON_parse ctx cacheKey keys w =
                getManyBy ctx cacheKey keys w).
  { unfold cacheGetManyBy. now rewrite Hoff. }
  split; [exact Heq|].
  exists (reported ctx cacheKey keys). split; [|split].
  - intros key. apply reported_in_sub.
  - rewrite Heq, getManyBy_outcome. reflexivity.
  - constructor; [exact I|].
    unfold data_miss_events. destruct (onDataMiss ctx); [|constructor].
    apply List.Forall_forall. intros e He.
    apply in_map_iff in He as (k & <- & _). exact I.
Qed.

Lemma disabled_cacheGetManyBy_is_getManyBy_witness :
  enable (Fixture.context false ["slug"]) = false /\
  cacheGetManyBy Json.stringify Json.parse (Fixture.context false ["slug"])
                 "_id" ["id1"; "id2"] Fixture.cold =
    getManyBy (Fixture.context false ["slug"]) "_id" ["id1"; "id2"]
              Fixture.cold.
Proof.
  split; [reflexivity|].
  apply (disabled_cacheGetManyBy_is_getManyBy
           Json.stringify Json.parse (Fixture.context false ["slug"])
           "_id" ["id1"; "id2"] Fixture.cold).
  reflexivity.
Defined.

(** ** Cached strings that are malformed, empty or falsy *)

Lemma payloads_ok_false JSON_parse ctx db keys key c s :
  In key keys ->
  db !! withCachePrefix ctx key = Some (String c s) ->
  JSON_parse (String c s) = None ->
  payloads_ok JSON_parse ctx db keys = false.
Proof.
  intros Hin Hdb Hparse. unfold payloads_ok.
  destruct (forallb _ keys) eqn:Hall; [|reflexivity].
  rewrite forallb_forall in Hall. specialize (Hall key Hin).
  unfold payload_ok in Hall. rewrite Hdb, Hparse in Hall. discriminate.
Qed.

(** C9, as the code has it.  When the string cached for one of the keys is
    not empty and is not valid JSON, [cacheGetManyBy] fails with the parse
    error.  The batched cache read is the only external call of the failed
    read: no cache-miss event is reported, the store is not queried, and the
    cache, the malformed entry included, is left as it was. *)
Theorem malformed_payload_propagates
    (JSON_stringify : value -> string) (JSON_parse : string -> option value)
    (ctx : CacheContext) (cacheKey : string) (keys : list string) (w : world)
    (key : string) (c : ascii) (s : string) :
  enable ctx = true ->
  In key keys ->
  redis w !! withCachePrefix ctx key = Some (String c s) ->
  JSON_parse (String c s) = None ->
  exists e,
    cacheGetManyBy JSON_stringify JSON_parse ctx cacheKey keys w =
      (Throw e,
       {| redis := redis w;
          trace := trace w ++ [EMulti (batchGet ctx keys)] |}).
Proof.
  intros Hon Hin Hdb Hparse.
  apply cacheGetManyBy_throw; [exact Hon|].
  eapply payloads_ok_false; eauto.
Qed.

Lemma malformed_payload_propagates_witness :
  exists e,
    Fixture.read (Fixture.context true ["slug"]) "_id" ["id3"; "id1"]
                 (Fixture.holding "entry:id1" "{oops") =
      (Throw e,
       {| redis := redis (Fixture.holding "entry:id1" "{oops");
          trace := [EMulti [OpGet "entry:id3"; OpGet "entry:id1"]] |}).
Proof.
  apply (malformed_payload_propagates
           Json.stringify Json.parse (Fixture.context true ["slug"]) "_id"
           ["id3"; "id1"] (Fixture.holding "entry:id1" "{oops")
           "id1" "{"%char "oops").
  - reflexivity.
  - simpl. auto.
  - reflexivity.
  - reflexivity.
Defined.

(** C9, as stated, fails on an empty cached string: the empty string is not
    valid JSON, yet the read succeeds, reports a cache miss for the key,
    queries the store for it and overwrites the entry. *)
Lemma empty_payload_is_not_propagated :
  Json.parse EmptyString = None /\
  Fixture.observe
    (Fixture.read (Fixture.context true []) "_id" ["id1"]
                  (Fixture.holding "entry:id1" EmptyString)) =
    (Ok [VObj Fixture.entry1],
     [("entry:id1", Fixture.payload Fixture.entry1)],
     [EMulti [OpGet "entry:id1"];
      ECacheMiss "Entry" "id1";
      EFind "_id" ["id1"];
      EMulti [OpSet "entry:id1" (Fixture.payload Fixture.entry1)]]).
Proof. split; vm_compute; reflexivity. Qed.

Lemma cache_hit_falsy JSON_parse ctx (db : gmap string string) key :
  db !! withCachePrefix ctx key = Some EmptyString \/
  (exists s v, db !! withCachePrefix ctx key = Some s /\
               JSON_parse s = Some v /\ truthy v = false) ->
  cache_hit JSON_parse ctx db key = None.
Proof.
  unfold cache_hit, cache_entry.
  intros [->|(s & v & -> & Hparse & Hfalsy)]; [reflexivity|].
  destruct s as [|c s]; [reflexivity|].
  now rewrite Hparse, Hfalsy.
Qed.

(** The four falsy JSON texts and the values they parse to. *)
Example falsy_json_texts :
  List.map Json.parse
           ["false"; "0"; "null";
            String Json.quote (String Json.quote EmptyString)]
    = [Some (VBool false); Some (VNum 0); Some VNull; Some (VStr EmptyString)].
Proof. reflexivity. Qed.

(** C10, as the code has it.  With the cache enabled, every cached string
    of the call well formed and [__proto__] not among the requested keys, a
    key that does not name a member of [Object.prototype] and whose cached
    string is empty, or parses to a falsy value, is among the keys that miss
    the cache although its slot is occupied: the read reports a cache miss
    for it to the observer and sends it to the store in the batched query
    that follows the cache read, whatever the outcome of that query. *)
Theorem falsy_cached_value_is_a_miss
    (JSON_stringify : value -> string) (JSON_parse : string -> option value)
    (ctx : CacheContext) (cacheKey : string) (keys : list string) (w : world)
    (key : string) :
  enable ctx = true ->
  payloads_ok JSON_parse ctx (redis w) keys = true ->
  ~ In "__proto__" keys ->
  In key keys ->
  inherited key = false ->
  (redis w !! withCachePrefix ctx key = Some EmptyString \/
   exists s v, redis w !! withCachePrefix ctx key = Some s /\
               JSON_parse s = Some v /\ truthy v = false) ->
  exists outcome w' sent rest,
    cacheGetManyBy JSON_stringify JSON_parse ctx cacheKey keys w =
      (outcome, w')
    /\ In key sent
    /\ trace w' =
         trace w ++ EMulti (batchGet ctx keys)
           :: cache_miss_events ctx sent
           ++ EFind (keyLookup cacheKey) sent :: rest
    /\ (onCacheMiss ctx = true ->
        In (ECacheMiss (name ctx) key) (cache_miss_events ctx sent)).
Proof.
  intros Hon Hok Hnot Hin Hkey Hfalsy.
  rewrite cacheGetManyBy_run. unfold read_events. rewrite Hon. simpl negb.
  cbv iota.
  assert (Hmiss : In key (misses JSON_parse ctx (redis w) keys)).
  { unfold misses.
    destruct (cachedKeyValue_ok JSON_parse ctx (redis w) keys Hok)
      as (ckv & Hckv).
    rewrite Hckv. unfold missedKeysFromCache. apply filter_In.
    split; [exact Hin|].
    rewrite (hit_read JSON_parse ctx (redis w) keys ckv key Hckv Hnot Hin).
    pose proof (cache_hit_falsy JSON_parse ctx (redis w) key Hfalsy) as Hhit.
    unfold cache_hit in Hhit.
    destruct (cache_entry JSON_parse ctx (redis w) key) as [v|].
    - destruct (truthy v); [discriminate|reflexivity].
    - now rewrite object_member_ordinary. }
  unfold after_hits.
  destruct (misses JSON_parse ctx (redis w) keys) as [|m ms] eqn:Hms;
    [destruct Hmiss|].
  eexists _, _, (m :: ms), _. split; [reflexivity|].
  split; [exact Hmiss|]. split; [reflexivity|].
  intros Hobs. unfold cache_miss_events. rewrite Hobs.
  now apply in_map.
Qed.

Lemma falsy_cached_value_is_a_miss_witness :
  exists outcome w' sent,
    Fixture.read (Fixture.context true []) "_id" ["id3"; "id1"]
                 (Fixture.holding "entry:id1" "0") = (outcome, w')
    /\ In "id1" sent
    /\ In (ECacheMiss "Entry" "id1") (trace w')
    /\ In (EFind "_id" sent) (trace w').
Proof.
  destruct (falsy_cached_value_is_a_miss
              Json.stringify Json.parse (Fixture.context true []) "_id"
              ["id3"; "id1"] (Fixture.holding "entry:id1" "0") "id1")
    as (outcome & w' & sent & rest & Hrun & Hsent & Htrace & Hobserved).
  - reflexivity.
  - reflexivity.
  - intros [H|[H|[]]]; discriminate.
  - simpl. auto.
  - reflexivity.
  - right. exists "0", (VNum 0). repeat split; reflexivity.
  - exists outcome, w', sent. split; [exact Hrun|]. split; [exact Hsent|].
    rewrite Htrace. simpl. split; right; apply in_or_app.
    + left. apply Hobserved. reflexivity.
    + right. now left.
Defined.

(** C10, as stated, fails for a key that names a member of
    [Object.prototype]: with an empty cached string the hit map holds no
    own property for [constructor], the read of the hit map finds the
    inherited function, and the key counts as a hit.  No cache miss is
    reported, the store is not queried, and the function is the answer. *)
Lemma inherited_key_is_a_hit :
  redis (Fixture.holding "entry:constructor" EmptyString)
    !! "entry:constructor" = Some EmptyString /\
  Fixture.observe
    (Fixture.read (Fixture.context true []) "_id" ["constructor"]
                  (Fixture.holding "entry:constructor" EmptyString)) =
    (Ok [VBuiltin (ObjectMethod "constructor")],
     [("entry:constructor", EmptyString)],
     [EMulti [OpGet "entry:constructor"]]).
Proof. split; vm_compute; reflexivity. Qed.

(** ** Cache fill *)

Section Fill.

Variable JSON_stringify : value -> string.
Variable JSON_parse : string -> option value.
Variable ctx : CacheContext.

Lemma fill_batch_nonempty_missed cacheKey db keys :
  fill_batch JSON_stringify JSON_parse ctx cacheKey db keys <> [] ->
  missed JSON_parse ctx db keys <> [].
Proof.
  intros Hbatch Hms. apply Hbatch.
  unfold fill_batch. now rewrite (staged_nil JSON_parse ctx cacheKey _ _ Hms).
Qed.

(** A fill that writes anything is the last call of the read, after the
    keys that missed have been reported and resolved. *)
Lemma fill_events_write cacheKey db keys :
  fill_batch JSON_stringify JSON_parse ctx cacheKey db keys <> [] ->
  fill_events JSON_stringify JSON_parse ctx cacheKey db keys =
    resolve_events JSON_parse ctx cacheKey db keys
      ++ [EMulti (fill_batch JSON_stringify JSON_parse ctx cacheKey db keys)].
Proof.
  intros Hbatch.
  pose proof (fill_batch_nonempty_missed _ _ _ Hbatch) as Hms.
  unfold fill_events, resolve_events.
  destruct (missed JSON_parse ctx db keys) as [|m ms]; [congruence|].
  destruct (fill_batch _ _ _ _ _ _) as [|o batch]; [congruence|].
  cbv zeta. rewrite <- app_assoc. reflexivity.
Qed.

Lemma staged_in_fill_batch cacheKey db keys k r :
  JsObj.get k (staged JSON_parse ctx cacheKey db keys) = Some r ->
  In (OpSet (withCachePrefix ctx k) (JSON_stringify r))
     (fill_batch JSON_stringify JSON_parse ctx cacheKey db keys).
Proof.
  intros Hget. rewrite fill_batch_spec.
  apply JsObjFacts.get_In, JsObjFacts.In_entries in Hget.
  apply (in_map (fun e => OpSet (withCachePrefix ctx (fst e))
                                (JSON_stringify (snd e)))) in Hget.
  exact Hget.
Qed.

(** What a plain read does for a key under which a record is staged. *)
Lemma staged_is_written cacheKey keys w k r :
  enable ctx = true ->
  payloads_ok JSON_parse ctx (redis w) keys = true ->
  plain_read JSON_parse ctx cacheKey (redis w) keys = true ->
  JsObj.get k (staged JSON_parse ctx cacheKey (redis w) keys) = Some r ->
  exists res w',
    cacheGetManyBy JSON_stringify JSON_parse ctx cacheKey keys w = (Ok res, w')
    /\ trace w' =
         trace w ++ EMulti (batchGet ctx keys)
           :: resolve_events JSON_parse ctx cacheKey (redis w) keys
           ++ [EMulti (fill_batch JSON_stringify JSON_parse ctx cacheKey
                                  (redis w) keys)]
    /\ In (OpSet (withCachePrefix ctx k) (JSON_stringify r))
          (fill_batch JSON_stringify JSON_parse ctx cacheKey (redis w) keys)
    /\ redis w' !! withCachePrefix ctx k = Some (JSON_stringify r).
Proof.
  intros Hon Hok Hplain Hget.
  pose proof (staged_in_fill_batch _ _ _ _ _ Hget) as Hin.
  rewrite (plain_read_run JSON_stringify JSON_parse ctx cacheKey keys w
             Hon Hok Hplain).
  eexists _, _. split; [reflexivity|]. simpl. split; [|split].
  - rewrite fill_events_write; [reflexivity|].
    intros Hnil. rewrite Hnil in Hin. destruct Hin.
  - exact Hin.
  - rewrite fill_lookup, Hget. reflexivity.
Qed.

End Fill.

(** The keys under which a missing alias value is written. *)
Example to_string_missing :
  to_string VUndefined = "undefined" /\ to_string VNull = "null".
Proof. split; reflexivity. Qed.

(** C3, as the code has it.  During the fill of a plain read, for every
    record retained from the resolver and every declared additional cache
    key, a write is staged under the string form of the record's value for
    that field, whatever the value is, [__proto__] apart: the fill has no
    guard, and an absent or null field gives the slot of the literal key
    [undefined] or [null].  The write is part of the single batch that ends
    the read, and the slot then holds the serialization of a retained record
    that claims it. *)
Theorem fill_writes_every_alias
    (JSON_stringify : value -> string) (JSON_parse : string -> option value)
    (ctx : CacheContext) (cacheKey : string) (keys : list string) (w : world)
    (r : value) (additionalCacheKey : string) :
  enable ctx = true ->
  payloads_ok JSON_parse ctx (redis w) keys = true ->
  plain_read JSON_parse ctx cacheKey (redis w) keys = true ->
  In r (retained cacheKey
          (resolved ctx cacheKey (missed JSON_parse ctx (redis w) keys))) ->
  In additionalCacheKey (additionalCacheKeys ctx) ->
  let alias := to_string (value_prop r additionalCacheKey) in
  alias <> "__proto__" ->
  exists res w' r',
    cacheGetManyBy JSON_stringify JSON_parse ctx cacheKey keys w = (Ok res, w')
    /\ trace w' =
         trace w ++ EMulti (batchGet ctx keys)
           :: resolve_events JSON_parse ctx cacheKey (redis w) keys
           ++ [EMulti (fill_batch JSON_stringify JSON_parse ctx cacheKey
                                  (redis w) keys)]
    /\ In (OpSet (withCachePrefix ctx alias) (JSON_stringify r'))
          (fill_batch JSON_stringify JSON_parse ctx cacheKey (redis w) keys)
    /\ redis w' !! withCachePrefix ctx alias = Some (JSON_stringify r')
    /\ In r' (retained cacheKey
                (resolved ctx cacheKey (missed JSON_parse ctx (redis w) keys)))
    /\ claims ctx cacheKey r' alias.
Proof.
  intros Hon Hok Hplain Hr Ha alias Halias.
  assert (Hclaims : claims ctx cacheKey r alias).
  { right. exists additionalCacheKey. split; [exact Ha|reflexivity]. }
  destruct (staged_get_claimed JSON_parse ctx cacheKey (redis w) keys alias r
              Halias Hr Hclaims) as (r' & Hget).
  destruct (staged_is_written JSON_stringify JSON_parse ctx cacheKey keys w
              alias r' Hon Hok Hplain Hget)
    as (res & w' & Hrun & Htrace & Hin & Hdb).
  destruct (staged_get_Some JSON_parse ctx cacheKey (redis w) keys alias r'
              Hget) as [Hr' Hclaims'].
  exists res, w', r'. repeat split; assumption.
Qed.

Lemma fill_writes_every_alias_witness :
  exists res w' r',
    Fixture.read (Fixture.context true ["slug"]) "_id" ["id5"] Fixture.cold
      = (Ok res, w')
    /\ In (OpSet "entry:undefined" (Json.stringify r'))
          (fill_batch Json.stringify Json.parse (Fixture.context true ["slug"])
                      "_id" ∅ ["id5"])
    /\ redis w' !! "entry:undefined" = Some (Json.stringify r').
Proof.
  destruct (fill_writes_every_alias
              Json.stringify Json.parse (Fixture.context true ["slug"]) "_id"
              ["id5"] Fixture.cold (VObj Fixture.entry5) "slug")
    as (res & w' & r' & Hrun & _ & Hin & Hdb & _).
  - reflexivity.
  - reflexivity.
  - reflexivity.
  - vm_compute. left. reflexivity.
  - simpl. auto.
  - discriminate.
  - exists res, w', r'. repeat split; assumption.
Defined.

(** C3, as stated, fails: a record without a slug, and one whose slug is
    null, are written under the keys [undefined] and [null]. *)
Lemma missing_alias_is_written :
  value_prop (VObj Fixture.entry5) "slug" = VUndefined /\
  value_prop (VObj Fixture.entry6) "slug" = VNull /\
  trace (snd (Fixture.read (Fixture.context true ["slug"]) "_id"
                           ["id5"; "id6"] Fixture.cold)) =
    [EMulti [OpGet "entry:id5"; OpGet "entry:id6"];
     ECacheMiss "Entry" "id5";
     ECacheMiss "Entry" "id6";
     EFind "_id" ["id5"; "id6"];
     EMulti [OpSet "entry:id5" (Fixture.payload Fixture.entry5);
             OpSet "entry:undefined" (Fixture.payload Fixture.entry5);
             OpSet "entry:id6" (Fixture.payload Fixture.entry6);
             OpSet "entry:null" (Fixture.payload Fixture.entry6)]].
Proof. repeat split; vm_compute; reflexivity. Qed.

(** C4, as the code has it.  Take a plain read over cached strings that
    parse, and a record [r] retained from the resolver whose looked-up field
    does not read [__proto__] and whose slots no other record retained in
    the same read claims.  The fill then writes the slot of the looked-up
    field of [r] and the slot of each declared additional key, the key
    [__proto__] apart, all in the single batch that ends the read, each with
    the same string [JSON.stringify(r)], which the slot holds afterwards. *)
Theorem fill_slots_share_one_payload
    (JSON_stringify : value -> string) (JSON_parse : string -> option value)
    (ctx : CacheContext) (cacheKey : string) (keys : list string) (w : world)
    (r : value) :
  enable ctx = true ->
  payloads_ok JSON_parse ctx (redis w) keys = true ->
  plain_read JSON_parse ctx cacheKey (redis w) keys = true ->
  In r (retained cacheKey
          (resolved ctx cacheKey (missed JSON_parse ctx (redis w) keys))) ->
  to_string (value_prop r cacheKey) <> "__proto__" ->
  (forall r' key,
     In r' (retained cacheKey
              (resolved ctx cacheKey (missed JSON_parse ctx (redis w) keys))) ->
     claims ctx cacheKey r key -> claims ctx cacheKey r' key -> r' = r) ->
  exists res w',
    cacheGetManyBy JSON_stringify JSON_parse ctx cacheKey keys w = (Ok res, w')
    /\ trace w' =
         trace w ++ EMulti (batchGet ctx keys)
           :: resolve_events JSON_parse ctx cacheKey (redis w) keys
           ++ [EMulti (fill_batch JSON_stringify JSON_parse ctx cacheKey
                                  (redis w) keys)]
    /\ forall key, claims ctx cacheKey r key -> key <> "__proto__" ->
         In (OpSet (withCachePrefix ctx key) (JSON_stringify r))
            (fill_batch JSON_stringify JSON_parse ctx cacheKey (redis w) keys)
         /\ redis w' !! withCachePrefix ctx key = Some (JSON_stringify r).
Proof.
  intros Hon Hok Hplain Hr Hkey Hunique.
  assert (Hstaged : forall key, claims ctx cacheKey r key ->
    key <> "__proto__" ->
    JsObj.get key (staged JSON_parse ctx cacheKey (redis w) keys) = Some r).
  { intros key Hclaims Hne.
    destruct (staged_get_claimed JSON_parse ctx cacheKey (redis w) keys key r
                Hne Hr Hclaims) as (r' & Hget).
    destruct (staged_get_Some JSON_parse ctx cacheKey (redis w) keys key r'
                Hget) as [Hr' Hclaims'].
    now rewrite <- (Hunique r' key Hr' Hclaims Hclaims'). }
  assert (Hown : claims ctx cacheKey r (to_string (value_prop r cacheKey)))
    by (left; reflexivity).
  destruct (staged_is_written JSON_stringify JSON_parse ctx cacheKey keys w
              _ r Hon Hok Hplain (Hstaged _ Hown Hkey))
    as (res & w' & Hrun & Htrace & _ & _).
  exists res, w'. split; [exact Hrun|]. split; [exact Htrace|].
  intros key Hclaims Hne.
  destruct (staged_is_written JSON_stringify JSON_parse ctx cacheKey keys w
              key r Hon Hok Hplain (Hstaged key Hclaims Hne))
    as (res2 & w2 & Hrun2 & _ & Hin & Hdb).
  rewrite Hrun in Hrun2. injection Hrun2 as _ <-. auto.
Qed.

Lemma fill_slots_share_one_payload_witness :
  exists res w',
    Fixture.read (Fixture.context true ["slug"]) "_id" ["id3"] Fixture.cold
      = (Ok res, w')
    /\ redis w' !! "entry:id3" = Some (Fixture.payload Fixture.entry3)
    /\ redis w' !! "entry:slug3" = Some (Fixture.payload Fixture.entry3).
Proof.
  destruct (fill_slots_share_one_payload
              Json.stringify Json.parse (Fixture.context true ["slug"]) "_id"
              ["id3"] Fixture.cold (VObj Fixture.entry3))
    as (res & w' & Hrun & _ & Hslots).
  - reflexivity.
  - reflexivity.
  - reflexivity.
  - vm_compute. left. reflexivity.
  - discriminate.
  - intros r' key Hin _ _. vm_compute in Hin.
    destruct Hin as [<-|[]]. reflexivity.
  - exists res, w'. split; [exact Hrun|]. split.
    + apply (Hslots "id3"); [left; reflexivity|discriminate].
    + apply (Hslots "slug3"); [|discriminate]. right. exists "slug".
      split; [simpl; auto|reflexivity].
Defined.

(** C4, as stated, fails for a record looked up by an additional key: the
    fill writes the slug slot only, and the primary-key slot of the record
    stays empty, or keeps a payload written earlier. *)
Lemma primary_slot_is_not_filled :
  prop Fixture.entry3 "_id" = VStr "id3" /\
  Fixture.observe
    (Fixture.read (Fixture.context true ["slug"]) "slug" ["slug3"]
                  Fixture.cold) =
    (Ok [VObj Fixture.entry3],
     [("entry:slug3", Fixture.payload Fixture.entry3)],
     [EMulti [OpGet "entry:slug3"];
      ECacheMiss "Entry" "slug3";
      EFind "slug" ["slug3"];
      EMulti [OpSet "entry:slug3" (Fixture.payload Fixture.entry3)]]) /\
  redis (snd (Fixture.read Fixture.bySlug "slug" ["slug3"] Fixture.staleId))
    !! "entry:slug3" = Some (Fixture.payload Fixture.entry3) /\
  redis (snd (Fixture.read Fixture.bySlug "slug" ["slug3"] Fixture.staleId))
    !! "entry:id3" = Some (Fixture.payload Fixture.stale) /\
  Fixture.payload Fixture.stale <> Fixture.payload Fixture.entry3.
Proof.
  split; [reflexivity|]. split; [vm_compute; reflexivity|].
  split; [vm_compute; reflexivity|].
  split; [vm_compute; reflexivity|]. vm_compute. discriminate.
Qed.

(** ** The merged response *)

(** The document found under a key came from the store and reads the key
    in the looked-up field. *)
Lemma found_get_Some
    (ctx : CacheContext) (queryKey : string) (keys : list string)
    (k : string) (d : doc) :
  JsObj.get k (found ctx queryKey keys) = Some d ->
  In d (find (model ctx) (keyLookup queryKey) keys) /\
  to_string (prop (props d) queryKey) = k.
Proof.
  unfold found, byKey, valueByKey. rewrite keyBy_documents. intros H.
  apply keyBy_get_Some in H as [Hin Hkey].
  apply filter_In in Hin as [Hin _]. auto.
Qed.

(** A key that the store resolves to a document whose plain object carries
    the key in the looked-up field is claimed by a retained record. *)
Lemma resolved_key_is_claimed
    (ctx : CacheContext) (cacheKey : string) (ms : list string)
    (k : string) (d : doc) :
  k <> "__proto__" ->
  In k ms ->
  JsObj.get k (found ctx cacheKey ms) = Some d ->
  to_string (value_prop (VObj (toObject d)) cacheKey) = k ->
  exists r, In r (retained cacheKey (resolved ctx cacheKey ms)) /\
            claims ctx cacheKey r k.
Proof.
  intros Hne Hk Hget Hplain.
  set (stored_data := resolved ctx cacheKey ms).
  assert (Hin : In (VObj (toObject d)) (List.filter truthy stored_data)).
  { apply filter_In. split; [|reflexivity].
    unfold stored_data, resolved. apply in_map_iff. exists k.
    split; [|exact Hk]. unfold resolve_key. now rewrite Hget. }
  destruct (JsObj.get k (keyBy JsObj.set JsObj.empty
                               (fun item => value_prop item cacheKey)
                               (List.filter truthy stored_data)))
    as [r|] eqn:Hby.
  - pose proof (keyBy_get_Some _ _ _ _ Hby) as [_ Hclaim].
    exists r. split; [|now left].
    unfold retained, storedDataEntries. fold stored_data.
    apply in_map_iff. exists (k, r). split; [reflexivity|].
    unfold Dict.entries. apply JsObjFacts.In_entries.
    apply JsObjFacts.get_In. now rewrite DictFacts.keyBy_own.
  - exfalso. rewrite keyBy_get_None in Hby.
    apply (Hby _ Hin). exact Hplain.
Qed.



(** A lookup by the virtual [id] is outside the statement above: the plain
    object of a document has no [id], so the record the resolver finds is
    staged under the key [undefined] and the key itself is answered
    [null]. *)
Example lookup_by_virtual_id :
  fst (getManyBy (Fixture.context true []) "id" ["id3"] Fixture.cold) =
    Ok [VObj Fixture.entry3] /\
  Fixture.observe
    (Fixture.read (Fixture.context true []) "id" ["id3"] Fixture.cold) =
    (Ok [VNull],
     [("entry:undefined", Fixture.payload Fixture.entry3)],
     [EMulti [OpGet "entry:id3"];
      ECacheMiss "Entry" "id3";
      EFind "_id" ["id3"];
      EMulti [OpSet "entry:undefined" (Fixture.payload Fixture.entry3)]]).
Proof. split; vm_compute; reflexivity. Qed.


(** ** Order and length of the results *)










Section StoreOrder.

Variable JSON_stringify : value -> string.
Variable JSON_parse : string -> option value.
Variable ctx : CacheContext.
Variable find' : string -> list string -> list doc.
Variable queryKey : string.

Hypothesis same_documents :
  forall field ks, Permutation (find (model ctx) field ks) (find' field ks).
Hypothesis one_document_per_key :
  forall field ks,
    List.NoDup (List.map (fun d => to_string (prop (props d) queryKey))
                         (find (model ctx) field ks)).







End StoreOrder.





(** ** Reading twice *)

Lemma filter_none {A} (f : A -> bool) (l : list A) :
  (forall x, In x l -> f x = false) -> List.filter f l = [].
Proof.
  induction l as [|a l IH]; simpl; intros H; [reflexivity|].
  rewrite (H a) by now left. apply IH. intros x Hx. apply H. now right.
Qed.

Section ReadTwice.

Variable JSON_stringify : value -> string.
Variable JSON_parse : string -> option value.
Variable ctx : CacheContext.
Variable collectionName : string.
Variable docs : list doc.
Variable cacheKey : string.
Variable keys : list string.
Variable db : gmap string string.

Hypothesis enabled : enable ctx = true.
Hypothesis stored : model ctx = collection collectionName docs.
Hypothesis docs_coherent : Forall (coherent cacheKey) docs.
Hypothesis docs_roundtrip : Forall (roundtrips JSON_stringify JSON_parse) docs.
Hypothesis well_formed : payloads_ok JSON_parse ctx db keys = true.
Hypothesis plain : plain_read JSON_parse ctx cacheKey db keys = true.

(** The cache after the first read. *)
Local Abbreviation db1 :=
  (after_read JSON_stringify JSON_parse ctx cacheKey db keys).

Lemma found_docs ks k d :
  JsObj.get k (found ctx cacheKey ks) = Some d ->
  In d docs /\ to_string (prop (props d) cacheKey) = k.
Proof using stored.
  intros H. apply found_get_Some in H as [Hin Hkey].
  rewrite stored in Hin. simpl in Hin.
  apply filter_In in Hin as [Hin _]. auto.
Qed.

Lemma resolved_docs ks r :
  In r (resolved ctx cacheKey ks) -> truthy r = true ->
  exists d, In d docs /\ r = VObj (toObject d).
Proof using stored.
  unfold resolved. rewrite in_map_iff. intros (k & Hr & _) Ht.
  unfold resolve_key in Hr.
  destruct (JsObj.get k (found ctx cacheKey ks)) as [d|] eqn:Hget.
  - apply found_docs in Hget as [Hin _]. eauto.
  - subst r. discriminate.
Qed.

Lemma staged_docs k r :
  JsObj.get k (staged JSON_parse ctx cacheKey db keys) = Some r ->
  exists d, In d docs /\ r = VObj (toObject d).
Proof using stored.
  intros H. apply staged_get_Some in H as [Hr _].
  apply retained_In in Hr as [Hr Ht]. eapply resolved_docs; eauto.
Qed.

Lemma cache_entry_after k :
  cache_entry JSON_parse ctx db1 k =
    match JsObj.get k (staged JSON_parse ctx cacheKey db keys) with
    | Some r => Some r
    | None => cache_entry JSON_parse ctx db k
    end.
Proof using stored docs_roundtrip.
  unfold cache_entry, after_read. rewrite fill_lookup.
  destruct (JsObj.get k (staged JSON_parse ctx cacheKey db keys))
    as [r|] eqn:Hget; [|reflexivity].
  destruct (staged_docs k r Hget) as (d & Hd & ->).
  rewrite List.Forall_forall in docs_roundtrip.
  destruct (docs_roundtrip d Hd) as [Hne Hparse].
  destruct (JSON_stringify (VObj (toObject d))) as [|c s]; [congruence|].
  exact Hparse.
Qed.

Lemma cache_hit_after k :
  cache_hit JSON_parse ctx db1 k =
    match JsObj.get k (staged JSON_parse ctx cacheKey db keys) with
    | Some r => Some r
    | None => cache_hit JSON_parse ctx db k
    end.
Proof using stored docs_roundtrip.
  unfold cache_hit. rewrite cache_entry_after.
  destruct (JsObj.get k (staged JSON_parse ctx cacheKey db keys))
    as [r|] eqn:Hget; [|reflexivity].
  destruct (staged_docs k r Hget) as (d & _ & ->). reflexivity.
Qed.

Lemma payloads_ok_after : payloads_ok JSON_parse ctx db1 keys = true.
Proof using stored docs_roundtrip well_formed.
  unfold payloads_ok in *. rewrite forallb_forall in *.
  intros k Hk. specialize (well_formed k Hk).
  pose proof (cache_entry_after k) as Hentry.
  unfold payload_ok, cache_entry in *.
  unfold after_read in *. rewrite fill_lookup in *.
  destruct (JsObj.get k (staged JSON_parse ctx cacheKey db keys)) as [r|];
    [|exact well_formed].
  destruct (JSON_stringify r) as [|c s]; [reflexivity|].
  now rewrite Hentry.
Qed.

Lemma missed_after :
  missed JSON_parse ctx db1 keys =
    List.filter
      (fun k => negb (JsObj.has k (staged JSON_parse ctx cacheKey db keys)))
      (missed JSON_parse ctx db keys).
Proof using stored docs_roundtrip.
  unfold missed.
  assert (H : forall l,
    List.filter (fun key => match cache_hit JSON_parse ctx db1 key with
                            | Some _ => false | None => true end) l =
    List.filter
      (fun k => negb (JsObj.has k (staged JSON_parse ctx cacheKey db keys)))
      (List.filter (fun key => match cache_hit JSON_parse ctx db key with
                               | Some _ => false | None => true end) l));
    [|apply H].
  induction l as [|k l IH]; simpl; [reflexivity|].
  rewrite cache_hit_after, IH.
  destruct (cache_hit JSON_parse ctx db k);
    destruct (JsObj.get k (staged JSON_parse ctx cacheKey db keys)) eqn:Hget;
    simpl; unfold JsObj.has; rewrite ?Hget; reflexivity.
Qed.

(** The second read is as plain as the first: it asks the store for fewer
    keys. *)
Lemma plain_read_after : plain_read JSON_parse ctx cacheKey db1 keys = true.
Proof using stored docs_roundtrip plain.
  pose proof plain as H. unfold plain_read, plain_lookup in *.
  apply andb_prop in H as [H Hord]. apply andb_prop in H as [H Hkeyed].
  apply andb_prop in H as [Hpath _].
  apply andb_true_intro. split; [|exact Hord].
  apply andb_true_intro. split.
  { apply andb_true_intro. split; [exact Hpath|].
    apply ordinary_filter, Hord. }
  unfold plainly_keyed in *. rewrite stored in *.
  simpl in *. rewrite forallb_forall in *. intros d Hd. apply Hkeyed.
  unfold collection_find in *. apply filter_In in Hd as [Hd Hin].
  apply filter_In. split; [exact Hd|].
  apply existsb_exists in Hin as (k & Hk & Heq).
  apply existsb_exists. exists k. split; [|exact Heq].
  rewrite missed_after in Hk. now apply filter_In in Hk as [Hk _].
Qed.

(** A key that the store resolves in the first read is staged by it. *)
Lemma found_is_staged k d :
  In k (missed JSON_parse ctx db keys) ->
  JsObj.get k (found ctx cacheKey (missed JSON_parse ctx db keys)) = Some d ->
  exists r, JsObj.get k (staged JSON_parse ctx cacheKey db keys) = Some r.
Proof using stored docs_coherent plain.
  intros Hk Hget.
  destruct (found_docs _ _ _ Hget) as [Hd Hkey].
  rewrite List.Forall_forall in docs_coherent.
  destruct (docs_coherent d Hd) as [Hplain _].
  assert (Hne : k <> "__proto__").
  { destruct (plain_read_elim JSON_parse ctx cacheKey db keys plain)
      as [Hord _].
    apply inherited_proto, (ordinary_In keys); [exact Hord|].
    unfold missed in Hk. now apply filter_In in Hk as [Hk _]. }
  destruct (resolved_key_is_claimed ctx cacheKey _ k d Hne Hk Hget)
    as (r & Hr & Hclaims); [congruence|].
  now apply staged_get_claimed with (r := r).
Qed.

(** A key that still misses the cache in the second read is unknown to the
    store. *)
Lemma found_after_none k :
  In k (missed JSON_parse ctx db1 keys) ->
  JsObj.get k (found ctx cacheKey (missed JSON_parse ctx db1 keys)) = None.
Proof using stored docs_coherent docs_roundtrip plain.
  intros Hk.
  destruct (JsObj.get k (found ctx cacheKey (missed JSON_parse ctx db1 keys)))
    as [d|] eqn:Hget; [exfalso|reflexivity].
  destruct (found_docs _ _ _ Hget) as [Hd Hkey].
  rewrite missed_after in Hk. apply filter_In in Hk as [Hk Hnot].
  assert (Hfirst : exists d',
    JsObj.get k (found ctx cacheKey (missed JSON_parse ctx db keys))
      = Some d').
  { destruct (JsObj.get k (found ctx cacheKey (missed JSON_parse ctx db keys)))
      as [d'|] eqn:Hget1; [eauto|exfalso].
    destruct (plain_read_elim JSON_parse ctx cacheKey db keys plain)
      as [_ Hkeyed].
    rewrite (found_plainly ctx cacheKey _ Hkeyed) in Hget1.
    rewrite keyBy_get_None in Hget1.
    apply (Hget1 d); [|exact Hkey].
    rewrite stored. simpl. apply filter_In. split; [exact Hd|].
    apply existsb_exists. exists k. split; [exact Hk|].
    apply String.eqb_eq.
    rewrite List.Forall_forall in docs_coherent.
    destruct (docs_coherent d Hd) as [_ Hlookup].
    congruence. }
  destruct Hfirst as (d' & Hget1).
  destruct (found_is_staged k d' Hk Hget1) as (r & Hr).
  unfold JsObj.has in Hnot. rewrite Hr in Hnot. discriminate.
Qed.

Lemma staged_after :
  staged JSON_parse ctx cacheKey db1 keys = JsObj.empty.
Proof using stored docs_coherent docs_roundtrip plain.
  unfold staged, storedDataEntries.
  rewrite (filter_none truthy); [reflexivity|].
  intros r Hr. unfold resolved in Hr.
  apply in_map_iff in Hr as (k & <- & Hk).
  unfold resolve_key. now rewrite (found_after_none k Hk).
Qed.

Lemma answer_after k :
  answer JSON_parse ctx cacheKey db1 keys k =
    answer JSON_parse ctx cacheKey db keys k.
Proof using stored docs_coherent docs_roundtrip plain.
  unfold answer. rewrite staged_after, cache_hit_after. simpl.
  destruct (JsObj.get k (staged JSON_parse ctx cacheKey db keys));
    reflexivity.
Qed.

(** The second read reports a data miss only for keys the first read did
    not stage. *)
Lemma data_miss_after batch key :
  In (EDataMiss (name ctx) key)
     (EMulti batch
        :: fill_events JSON_stringify JSON_parse ctx cacheKey db1 keys) ->
  JsObj.get key (staged JSON_parse ctx cacheKey db keys) = None.
Proof using stored docs_coherent docs_roundtrip plain.
  intros [Hin|Hin]; [discriminate|].
  assert (Hkey : In key (missed JSON_parse ctx db1 keys)).
  { unfold fill_events in Hin.
    destruct (missed JSON_parse ctx db1 keys) as [|m ms] eqn:Hms;
      [destruct Hin|].
    rewrite <- Hms in Hin.
    apply in_app_or in Hin as [Hin|[Hin|Hin]].
    - unfold cache_miss_events in Hin.
      destruct (onCacheMiss ctx); [|destruct Hin].
      apply in_map_iff in Hin as (x & Hx & _). discriminate.
    - discriminate.
    - apply in_app_or in Hin as [Hin|Hin].
      + unfold data_miss_events in Hin.
        destruct (onDataMiss ctx); [|destruct Hin].
        apply in_map_iff in Hin as (x & [= <-] & Hx).
        unfold unresolved in Hx. apply filter_In in Hx as [Hx _].
        now rewrite <- Hms.
      + unfold fill_batch in Hin. rewrite staged_after in Hin.
        destruct Hin. }
  rewrite missed_after in Hkey. apply filter_In in Hkey as [_ Hnot].
  unfold JsObj.has in Hnot.
  destruct (JsObj.get key (staged JSON_parse ctx cacheKey db keys));
    [discriminate|reflexivity].
Qed.

(** The only batch of writes in the first read is the fill. *)
Lemma written_is_staged batch key payload :
  In (EMulti batch)
     (EMulti (batchGet ctx keys)
        :: fill_events JSON_stringify JSON_parse ctx cacheKey db keys) ->
  In (OpSet (withCachePrefix ctx key) payload) batch ->
  exists r, JsObj.get key (staged JSON_parse ctx cacheKey db keys) = Some r.
Proof using Type.
  intros Hbatch Hop.
  assert (Hfill : In (OpSet (withCachePrefix ctx key) payload)
                     (fill_batch JSON_stringify JSON_parse ctx cacheKey db
                                 keys)).
  { destruct Hbatch as [[= <-]|Hin].
    - unfold batchGet in Hop. apply in_map_iff in Hop as (x & Hx & _).
      discriminate.
    - unfold fill_events in Hin.
      destruct (missed JSON_parse ctx db keys) as [|m ms]; [destruct Hin|].
      apply in_app_or in Hin as [Hin|[Hin|Hin]].
      + unfold cache_miss_events in Hin.
        destruct (onCacheMiss ctx); [|destruct Hin].
        apply in_map_iff in Hin as (x & Hx & _). discriminate.
      + discriminate.
      + apply in_app_or in Hin as [Hin|Hin].
        * unfold data_miss_events in Hin.
          destruct (onDataMiss ctx); [|destruct Hin].
          apply in_map_iff in Hin as (x & Hx & _). discriminate.
        * destruct (fill_batch _ _ _ _ _ _) as [|o b]; [destruct Hin|].
          destruct Hin as [[= <-]|[]]. exact Hop. }
  rewrite fill_batch_spec in Hfill.
  apply in_map_iff in Hfill as ([k r] & [= Hk _] & Hin).
  apply withCachePrefix_inj in Hk. subst k.
  exists r. apply JsObjFacts.In_get; [apply staged_wf|].
  now apply JsObjFacts.In_entries.
Qed.

End ReadTwice.

(** C5, as the code has it.  The store is a collection whose documents read
    their looked-up field as it is stored and whose plain objects survive
    serialization; the cache is enabled and nothing else writes between the
    two reads.  A plain read over cached strings that parse is then repeated
    by the next read of the same field and keys: the same result list, and
    no data-miss event for any key the first read wrote to the cache. *)
Theorem second_read_repeats_the_first
    (JSON_stringify : value -> string) (JSON_parse : string -> option value)
    (ctx : CacheContext) (collectionName : string) (docs : list doc)
    (cacheKey : string) (keys : list string) (w : world) :
  enable ctx = true ->
  model ctx = collection collectionName docs ->
  Forall (coherent cacheKey) docs ->
  Forall (roundtrips JSON_stringify JSON_parse) docs ->
  payloads_ok JSON_parse ctx (redis w) keys = true ->
  plain_read JSON_parse ctx cacheKey (redis w) keys = true ->
  exists res w1 w2 events1 events2,
    cacheGetManyBy JSON_stringify JSON_parse ctx cacheKey keys w = (Ok res, w1)
    /\ cacheGetManyBy JSON_stringify JSON_parse ctx cacheKey keys w1
         = (Ok res, w2)
    /\ trace w1 = trace w ++ events1
    /\ trace w2 = trace w1 ++ events2
    /\ forall key payload batch,
         In (EMulti batch) events1 ->
         In (OpSet (withCachePrefix ctx key) payload) batch ->
         ~ In (EDataMiss (name ctx) key) events2.
Proof.
  intros Hon Hstored Hcoh Hrt Hok Hplain.
  pose proof (payloads_ok_after JSON_stringify JSON_parse ctx collectionName
                docs cacheKey keys (redis w) Hstored Hrt Hok) as Hok1.
  pose proof (plain_read_after JSON_stringify JSON_parse ctx collectionName
                docs cacheKey keys (redis w) Hstored Hrt Hplain) as Hplain1.
  set (db := redis w) in *.
  set (events1 := EMulti (batchGet ctx keys)
                    :: fill_events JSON_stringify JSON_parse ctx cacheKey db
                                   keys).
  set (w1 := {| redis := apply_batch
                           (fill_batch JSON_stringify JSON_parse ctx cacheKey
                                       db keys) db;
                trace := trace w ++ events1 |}).
  set (events2 := EMulti (batchGet ctx keys)
                    :: fill_events JSON_stringify JSON_parse ctx cacheKey
                                   (redis w1) keys).
  exists (List.map (answer JSON_parse ctx cacheKey db keys) keys), w1,
         {| redis := apply_batch
                       (fill_batch JSON_stringify JSON_parse ctx cacheKey
                                   (redis w1) keys) (redis w1);
            trace := trace w1 ++ events2 |},
         events1, events2.
  split; [apply (plain_read_run JSON_stringify JSON_parse ctx cacheKey keys
                   w Hon Hok Hplain)|].
  split; [|split; [reflexivity|split; [reflexivity|]]].
  - rewrite (plain_read_run JSON_stringify JSON_parse ctx cacheKey keys w1
               Hon Hok1 Hplain1).
    f_equal. f_equal. apply map_ext. intros k.
    apply (answer_after JSON_stringify JSON_parse ctx collectionName docs
             cacheKey keys db Hstored Hcoh Hrt Hplain).
  - intros key payload batch Hbatch Hop Hmiss.
    destruct (written_is_staged JSON_stringify JSON_parse ctx cacheKey keys
                db batch key payload Hbatch Hop) as (r & Hr).
    pose proof (data_miss_after JSON_stringify JSON_parse ctx collectionName
                  docs cacheKey keys db Hstored Hcoh Hrt Hplain _ key Hmiss)
      as Hnone.
    congruence.
Qed.

(** C5, as stated, fails for a record that does not survive serialization:
    the first read returns the plain object of the document, the second the
    value parsed from the cached string, and [JSON.stringify] drops a field
    that holds [undefined]. *)
Lemma second_read_returns_the_parsed_payload :
  exists w1,
    Fixture.read Fixture.sparse "_id" ["id7"] Fixture.cold =
      (Ok [VObj Fixture.entry7], w1) /\
    fst (Fixture.read Fixture.sparse "_id" ["id7"] w1) =
      Ok [VObj [("_id", VStr "id7"); ("title", VStr "Arrival")]] /\
    VObj Fixture.entry7 <>
      VObj [("_id", VStr "id7"); ("title", VStr "Arrival")].
Proof.
  eexists. split; [vm_compute; reflexivity|].
  split; [vm_compute; reflexivity|discriminate].
Qed.

Lemma second_read_repeats_the_first_witness :
  exists res w1 w2,
    Fixture.read Fixture.bySlug "_id" ["id3"; "id2"; "slug3"; "id3"]
                 Fixture.cold = (Ok res, w1)
    /\ Fixture.read Fixture.bySlug "_id" ["id3"; "id2"; "slug3"; "id3"] w1
         = (Ok res, w2).
Proof.
  destruct (second_read_repeats_the_first
              Json.stringify Json.parse Fixture.bySlug "Entry"
              [document Fixture.entry1; document Fixture.entry3;
               document Fixture.entry5; document Fixture.entry6]
              "_id" ["id3"; "id2"; "slug3"; "id3"] Fixture.cold)
    as (res & w1 & w2 & events1 & events2 & Hfirst & Hsecond & _).
  - reflexivity.
  - reflexivity.
  - repeat constructor.
  - repeat (constructor;
            [split; [vm_compute; discriminate|vm_compute; reflexivity]|]).
    constructor.
  - reflexivity.
  - reflexivity.
  - exists res, w1, w2. split; [exact Hfirst|exact Hsecond].
Defined.

(** * Further properties of the cache methods *)

(** ** Cache keys *)

(** X1. Within one model, [withCachePrefix] is injective: two different raw
    keys never share a cache key. *)
Theorem cache_keys_are_distinct (ctx : CacheContext) (key key' : string) :
  withCachePrefix ctx key = withCachePrefix ctx key' <-> key = key'.
Proof.
  split; [apply withCachePrefix_inj|]. intros ->. reflexivity.
Qed.

Lemma colon_split (a b k k' : string) :
  colon_free a = true -> colon_free b = true ->
  a +:+ ":" +:+ k = b +:+ ":" +:+ k' -> a = b /\ k = k'.
Proof.
  revert b. induction a as [|c a IH]; intros [|c' b] Ha Hb H;
    cbn in Ha, Hb, H.
  - injection H as H. auto.
  - injection H as <- _. discriminate.
  - injection H as -> _. discriminate.
  - injection H as -> Hrest.
    apply andb_prop in Ha as [_ Ha]. apply andb_prop in Hb as [_ Hb].
    destruct (IH b Ha Hb Hrest) as [-> ->]. auto.
Qed.

(** X2. Across models whose lower-cased names hold no colon, cache keys are
    shared only by models with the same lower-cased name, and then only for
    the same raw key. *)
Theorem cache_keys_of_models_are_distinct
    (ctx ctx' : CacheContext) (key key' : string) :
  colon_free (toLowerCase (name ctx)) = true ->
  colon_free (toLowerCase (name ctx')) = true ->
  withCachePrefix ctx key = withCachePrefix ctx' key' ->
  toLowerCase (name ctx) = toLowerCase (name ctx') /\ key = key'.
Proof.
  unfold withCachePrefix. intros Ha Hb H.
  apply (colon_split _ _ _ _ Ha Hb H).
Qed.

Lemma cache_keys_of_models_are_distinct_witness :
  toLowerCase (name Fixture.bySlug) = toLowerCase (name Fixture.upperCase)
  /\ "id1" = "id1".
Proof.
  apply (cache_keys_of_models_are_distinct
           Fixture.bySlug Fixture.upperCase "id1" "id1"); reflexivity.
Defined.

(** A colon in a model name lets two models share a cache key. *)
Example colon_in_model_name :
  withCachePrefix Fixture.bySlug "a:b" = withCachePrefix Fixture.colon "b".
Proof. reflexivity. Qed.

(** ** The observers and the resolver *)

(** X3. [onBatchCacheMiss] and [onBatchDataMiss] call the observer once per
    key, in order and without merging repeated keys; without an observer
    they do nothing.  Neither touches the cache. *)
Theorem observers_hear_every_key
    (ctx : CacheContext) (keys : list string) (w : world) :
  onBatchCacheMiss ctx keys w =
    (Ok tt,
     {| redis := redis w;
        trace := trace w ++
                 if onCacheMiss ctx
                 then List.map (ECacheMiss (modelName (model ctx))) keys
                 else [] |})
  /\ onBatchDataMiss ctx keys w =
       (Ok tt,
        {| redis := redis w;
           trace := trace w ++
                    if onDataMiss ctx
                    then List.map (EDataMiss (modelName (model ctx))) keys
                    else [] |}).
Proof.
  split; [apply onBatchCacheMiss_run|apply onBatchDataMiss_run].
Qed.

Lemma unresolved_null_keys (ctx : CacheContext) queryKey keys :
  unresolved ctx queryKey keys =
    null_keys keys (resolved ctx queryKey keys).
Proof.
  unfold unresolved, resolved, null_keys.
  generalize (found ctx queryKey keys) as byKey. intros byKey.
  induction keys as [|key keys IH]; simpl; [reflexivity|].
  unfold JsObj.has at 1. unfold resolve_key at 1.
  destruct (JsObj.get key byKey); simpl; rewrite IH; reflexivity.
Qed.

(** X4. For a plain lookup (the field is a plain property name, no key
    names a member of [Object.prototype], no returned document is keyed
    [__proto__]), [getManyBy] returns, after exactly one store query (also
    for an empty key list) and without touching the cache.  Each result is
    [null] or the plain object of a returned document that carries the key,
    and a data miss is reported exactly for the keys answered [null], once
    per position and in order. *)
Theorem getManyBy_reports_what_it_misses
    (ctx : CacheContext) (queryKey : string) (keys : list string) (w : world) :
  plain_lookup ctx queryKey keys = true ->
  exists res,
    getManyBy ctx queryKey keys w =
      (Ok res,
       {| redis := redis w;
          trace := trace w ++
                   EFind (keyLookup queryKey) keys
                   :: data_miss_events ctx (null_keys keys res) |})
    /\ length res = length keys
    /\ forall i key, nth_error keys i = Some key ->
         nth_error res i = Some VNull
         \/ exists d,
              In d (find (model ctx) (keyLookup queryKey) keys) /\
              to_string (prop (props d) queryKey) = key /\
              nth_error res i = Some (VObj (toObject d)).
Proof.
  intros Hplain. unfold plain_lookup in Hplain.
  apply andb_prop in Hplain as [Hplain Hkeyed].
  apply andb_prop in Hplain as [_ Hord].
  exists (resolved ctx queryKey keys).
  rewrite (getManyBy_run ctx queryKey keys w Hord Hkeyed),
    unresolved_null_keys.
  split; [reflexivity|]. split; [apply length_map|].
  intros i key Hkey. unfold resolved.
  rewrite (map_nth_error _ _ _ Hkey). unfold resolve_key.
  destruct (JsObj.get key (found ctx queryKey keys)) as [d|] eqn:Hget;
    [right|now left].
  apply found_get_Some in Hget as [Hin Hk]. eauto.
Qed.

Lemma getManyBy_reports_what_it_misses_witness :
  exists res,
    getManyBy Fixture.bySlug "_id" ["id3"; "id2"; "id3"] Fixture.cold =
      (Ok res,
       {| redis := ∅;
          trace := EFind "_id" ["id3"; "id2"; "id3"]
                     :: data_miss_events Fixture.bySlug
                          (null_keys ["id3"; "id2"; "id3"] res) |})
    /\ length res = 3%nat.
Proof.
  destruct (getManyBy_reports_what_it_misses
              Fixture.bySlug "_id" ["id3"; "id2"; "id3"] Fixture.cold)
    as (res & Hrun & Hlen & _).
  - reflexivity.
  - exists res. split; [exact Hrun|exact Hlen].
Defined.

(** X5. For a plain lookup of one key, [getBy] returns, and never
    [undefined]: it answers the plain object of a returned document that
    carries the key, with no data miss reported, or [null] with one data
    miss reported for the key, when no returned document carries it. *)
Theorem getBy_answers_object_or_null
    (ctx : CacheContext) (queryKey key : string) (w : world) :
  plain_lookup ctx queryKey [key] = true ->
  (exists d,
     In d (find (model ctx) (keyLookup queryKey) [key]) /\
     to_string (prop (props d) queryKey) = key /\
     getBy ctx queryKey key w =
       (Ok (VObj (toObject d)),
        {| redis := redis w;
           trace := trace w ++ [EFind (keyLookup queryKey) [key]] |}))
  \/ ((forall d, In d (find (model ctx) (keyLookup queryKey) [key]) ->
         to_string (prop (props d) queryKey) <> key) /\
      getBy ctx queryKey key w =
        (Ok VNull,
         {| redis := redis w;
            trace := trace w ++
                     EFind (keyLookup queryKey) [key]
                     :: data_miss_events ctx [key] |})).
Proof.
  intros Hplain. unfold plain_lookup in Hplain.
  apply andb_prop in Hplain as [Hplain Hkeyed].
  apply andb_prop in Hplain as [_ Hord].
  unfold getBy, bind.
  rewrite (getManyBy_run ctx queryKey [key] w Hord Hkeyed). unfold ret.
  unfold resolved, unresolved, resolve_key, JsObj.has. simpl.
  destruct (JsObj.get key (found ctx queryKey [key])) as [d|] eqn:Hget; simpl.
  - left. exists d. apply found_get_Some in Hget as [Hin Hk].
    split; [exact Hin|]. split; [exact Hk|].
    unfold log, data_miss_events. simpl.
    destruct (onDataMiss ctx); reflexivity.
  - right. rewrite (found_plainly ctx queryKey [key] Hkeyed) in Hget.
    rewrite keyBy_get_None in Hget. split; [exact Hget|]. reflexivity.
Qed.

Lemma getBy_answers_object_or_null_witness :
  getBy Fixture.bySlug "slug" "slug3" Fixture.cold =
    (Ok (VObj Fixture.entry3),
     {| redis := ∅; trace := [EFind "slug" ["slug3"]] |}).
Proof.
  destruct (getBy_answers_object_or_null
              Fixture.bySlug "slug" "slug3" Fixture.cold)
    as [(d & Hd & Hkey & Hrun)|[Hnone _]].
  - reflexivity.
  - vm_compute in Hd. destruct Hd as [<-|[]]. exact Hrun.
  - exfalso. apply (Hnone (document Fixture.entry3));
      [vm_compute; auto|reflexivity].
Defined.

Lemma keyBy_ext_in {A D} (assign : string -> A -> D -> D) (empty : D)
    (f g : A -> value) (items : list A) :
  (forall x, In x items -> to_string (f x) = to_string (g x)) ->
  keyBy assign empty f items = keyBy assign empty g items.
Proof.
  unfold keyBy. generalize empty as o.
  induction items as [|x items IH]; intros o H; simpl; [reflexivity|].
  rewrite (H x) by now left. apply IH. intros y Hy. apply H. now right.
Qed.

(** X6. For documents that read [id] as the string form of [_id], the
    resolver treats the field [id] as an alias of [_id]: [getManyBy] gives
    the same results, the same store query and the same data-miss reports
    for both. *)
Theorem getManyBy_id_is_an_alias
    (ctx : CacheContext) (keys : list string) (w : world) :
  Forall (fun d => to_string (prop (props d) "id") =
                   to_string (prop (props d) "_id"))
         (find (model ctx) "_id" keys) ->
  getManyBy ctx "id" keys w = getManyBy ctx "_id" keys w.
Proof.
  intros Hid. rewrite List.Forall_forall in Hid.
  rewrite !getManyBy_outcome.
  assert (Hdict : byKey ctx "id" keys = byKey ctx "_id" keys).
  { unfold byKey, valueByKey. simpl. now apply keyBy_ext_in. }
  unfold resolver_result, returns, answers, reported. rewrite Hdict.
  reflexivity.
Qed.

Lemma getManyBy_id_is_an_alias_witness :
  getManyBy Fixture.bySlug "id" ["id3"; "id2"] Fixture.cold =
    getManyBy Fixture.bySlug "_id" ["id3"; "id2"] Fixture.cold.
Proof.
  apply (getManyBy_id_is_an_alias Fixture.bySlug ["id3"; "id2"] Fixture.cold).
  vm_compute. repeat constructor.
Defined.

(** ** Reads that hit, reads that miss *)

Lemma round_trips_app a b :
  round_trips (a ++ b) = (round_trips a + round_trips b)%nat.
Proof. unfold round_trips. now rewrite List.filter_app, length_app. Qed.

Lemma store_queries_app a b :
  store_queries (a ++ b) = (store_queries a + store_queries b)%nat.
Proof. unfold store_queries. now rewrite List.filter_app, length_app. Qed.

Lemma miss_events_counts ctx keys :
  round_trips (cache_miss_events ctx keys) = 0%nat /\
  round_trips (data_miss_events ctx keys) = 0%nat /\
  store_queries (cache_miss_events ctx keys) = 0%nat /\
  store_queries (data_miss_events ctx keys) = 0%nat.
Proof.
  unfold cache_miss_events, data_miss_events, round_trips, store_queries.
  destruct (onCacheMiss ctx), (onDataMiss ctx); repeat split;
    try reflexivity;
    induction keys as [|k keys IH]; simpl; auto.
Qed.

Lemma cache_hit_payload_ok JSON_parse ctx (db : gmap string string) key v :
  cache_hit JSON_parse ctx db key = Some v ->
  payload_ok JSON_parse ctx db key = true.
Proof.
  unfold cache_hit, cache_entry, payload_ok.
  destruct (db !! withCachePrefix ctx key) as [[|c s]|]; try discriminate.
  destruct (JSON_parse (String c s)); [reflexivity|discriminate].
Qed.

Lemma all_hit_missed JSON_parse ctx (db : gmap string string) keys :
  (forall key, In key keys ->
     exists v, cache_hit JSON_parse ctx db key = Some v) ->
  payloads_ok JSON_parse ctx db keys = true /\
  missed JSON_parse ctx db keys = [].
Proof.
  intros Hhit. split.
  - apply forallb_forall. intros key Hin.
    destruct (Hhit key Hin) as (v & Hv).
    eapply cache_hit_payload_ok; eauto.
  - unfold missed. apply filter_none. intros key Hin.
    destruct (Hhit key Hin) as (v & ->). reflexivity.
Qed.

Lemma filter_nil_In {A} (f : A -> bool) (l : list A) x :
  List.filter f l = [] -> In x l -> f x = false.
Proof.
  induction l as [|a l IH]; simpl; [intros _ []|].
  destruct (f a) eqn:Hfa; [discriminate|].
  intros Hnil [<-|Hin]; auto.
Qed.

(** A read without a miss, [__proto__] not being asked for: one batched
    cache read and nothing else. *)
Lemma read_without_miss JSON_stringify JSON_parse ctx cacheKey keys w :
  enable ctx = true ->
  payloads_ok JSON_parse ctx (redis w) keys = true ->
  ~ In "__proto__" keys ->
  missed JSON_parse ctx (redis w) keys = [] ->
  cacheGetManyBy JSON_stringify JSON_parse ctx cacheKey keys w =
    (Ok (List.map (fun key =>
                     match cache_hit JSON_parse ctx (redis w) key with
                     | Some v => v
                     | None => VNull
                     end) keys),
     {| redis := redis w;
        trace := trace w ++ [EMulti (batchGet ctx keys)] |}).
Proof.
  intros Hon Hok Hnot Hms. rewrite cacheGetManyBy_run.
  unfold read_result, read_redis, read_events, misses. rewrite Hon.
  simpl negb. cbv iota.
  destruct (cachedKeyValue_ok JSON_parse ctx (redis w) keys Hok)
    as (ckv & Hckv).
  rewrite Hckv.
  assert (Hread : forall k, In k keys ->
    exists v, cache_hit JSON_parse ctx (redis w) k = Some v /\
              Dict.get k ckv = v /\ truthy v = true).
  { intros k Hin.
    pose proof (filter_nil_In _ _ k Hms Hin) as Hhit. simpl in Hhit.
    rewrite (hit_read JSON_parse ctx (redis w) keys ckv k Hckv Hnot Hin).
    unfold cache_hit in *.
    destruct (cache_entry JSON_parse ctx (redis w) k) as [v|];
      [|discriminate].
    destruct (truthy v) eqn:Ht; [|discriminate]. eauto. }
  assert (Hnone : missedKeysFromCache ckv keys = []).
  { unfold missedKeysFromCache. apply filter_none. intros k Hin.
    destruct (Hread k Hin) as (v & _ & -> & ->). reflexivity. }
  rewrite Hnone. simpl. do 2 f_equal. apply map_ext_in. intros k Hin.
  destruct (Hread k Hin) as (v & -> & -> & Ht).
  unfold or_null. now rewrite Ht.
Qed.

(** X7. When every key of a read hits the cache and [__proto__] is not
    among the keys, the read is served from the cache alone: its only
    external call is the batched cache read, the store is not queried, no
    miss is reported, no write is sent, and the [i]-th result is the truthy
    value parsed from the string cached for the [i]-th key. *)
Theorem read_served_from_cache
    (JSON_stringify : value -> string) (JSON_parse : string -> option value)
    (ctx : CacheContext) (cacheKey : string) (keys : list string) (w : world) :
  enable ctx = true ->
  ~ In "__proto__" keys ->
  (forall key, In key keys ->
     exists v, cache_hit JSON_parse ctx (redis w) key = Some v) ->
  exists res,
    cacheGetManyBy JSON_stringify JSON_parse ctx cacheKey keys w =
      (Ok res,
       {| redis := redis w;
          trace := trace w ++ [EMulti (batchGet ctx keys)] |})
    /\ length res = length keys
    /\ forall i key, nth_error keys i = Some key ->
         exists s v,
           redis w !! withCachePrefix ctx key = Some s /\
           JSON_parse s = Some v /\ truthy v = true /\
           nth_error res i = Some v.
Proof.
  intros Hon Hnot Hhit.
  destruct (all_hit_missed JSON_parse ctx (redis w) keys Hhit) as [Hok Hms].
  rewrite (read_without_miss JSON_stringify JSON_parse ctx cacheKey keys w
             Hon Hok Hnot Hms).
  eexists. split; [reflexivity|]. split; [apply length_map|].
  intros i key Hkey. rewrite (map_nth_error _ _ _ Hkey).
  destruct (Hhit key (nth_error_In _ _ Hkey)) as (v & Hv). rewrite Hv.
  unfold cache_hit, cache_entry in Hv.
  destruct (redis w !! withCachePrefix ctx key) as [[|c s]|];
    try discriminate.
  destruct (JSON_parse (String c s)) as [v'|] eqn:Hparse; [|discriminate].
  destruct (truthy v') eqn:Ht; [|discriminate].
  injection Hv as ->. exists (String c s), v. auto.
Qed.

(** The key [__proto__] is left out of X7: a primitive cached under it is
    not stored in the hit map, whose [__proto__] then reads
    [Object.prototype]. *)
Example proto_key_reads_the_prototype :
  cache_hit Json.parse Fixture.bySlug
            (redis (Fixture.holding "entry:__proto__" "5")) "__proto__" =
    Some (VNum 5) /\
  Fixture.observe
    (Fixture.read Fixture.bySlug "_id" ["__proto__"]
                  (Fixture.holding "entry:__proto__" "5")) =
    (Ok [VBuiltin ObjectPrototype], [("entry:__proto__", "5")],
     [EMulti [OpGet "entry:__proto__"]]).
Proof. split; vm_compute; reflexivity. Qed.

Lemma read_served_from_cache_witness :
  exists res,
    Fixture.read Fixture.bySlug "_id" ["slug3"; "slug3"] Fixture.staleSlug =
      (Ok res,
       {| redis := redis Fixture.staleSlug;
          trace := [EMulti [OpGet "entry:slug3"; OpGet "entry:slug3"]] |})
    /\ length res = 2%nat.
Proof.
  destruct (read_served_from_cache
              Json.stringify Json.parse Fixture.bySlug "_id"
              ["slug3"; "slug3"] Fixture.staleSlug)
    as (res & Hrun & Hlen & _).
  - reflexivity.
  - intros [H|[H|[]]]; discriminate.
  - intros key [<-|[<-|[]]]; eexists; vm_compute; reflexivity.
  - exists res. split; [exact Hrun|exact Hlen].
Defined.

(** X8. A plain read (the field is a plain property name, no key names a
    member of [Object.prototype], no returned document is keyed
    [__proto__]) whose missed keys are all unknown to the store caches
    nothing: no write is sent, the cache is left as it was, and every key
    that missed the cache is answered [null].  A record that does not exist
    leaves no entry behind. *)
Theorem unknown_keys_are_not_cached
    (JSON_stringify : value -> string) (JSON_parse : string -> option value)
    (ctx : CacheContext) (cacheKey : string) (keys : list string) (w : world) :
  enable ctx = true ->
  payloads_ok JSON_parse ctx (redis w) keys = true ->
  plain_read JSON_parse ctx cacheKey (redis w) keys = true ->
  (forall key, In key (missed JSON_parse ctx (redis w) keys) ->
     JsObj.get key (found ctx cacheKey (missed JSON_parse ctx (redis w) keys))
       = None) ->
  exists res w',
    cacheGetManyBy JSON_stringify JSON_parse ctx cacheKey keys w = (Ok res, w')
    /\ redis w' = redis w
    /\ (exists events, trace w' = trace w ++ events /\
                       round_trips events = 1%nat)
    /\ forall i key, nth_error keys i = Some key ->
         nth_error res i =
           Some (match cache_hit JSON_parse ctx (redis w) key with
                 | Some v => v
                 | None => VNull
                 end).
Proof.
  intros Hon Hok Hplain Hunknown.
  assert (Hstaged :
    staged JSON_parse ctx cacheKey (redis w) keys = JsObj.empty).
  { unfold staged, storedDataEntries.
    rewrite (filter_none truthy); [reflexivity|].
    intros r Hr. unfold resolved in Hr.
    apply in_map_iff in Hr as (k & <- & Hk).
    unfold resolve_key. now rewrite (Hunknown k Hk). }
  rewrite (plain_read_run JSON_stringify JSON_parse ctx cacheKey keys w
             Hon Hok Hplain).
  eexists _, _. split; [reflexivity|]. simpl.
  unfold fill_events, fill_batch, answer. rewrite Hstaged. simpl.
  split; [reflexivity|]. split.
  - eexists. split; [reflexivity|].
    destruct (miss_events_counts ctx (missed JSON_parse ctx (redis w) keys))
      as (Hcm & _).
    destruct (miss_events_counts ctx
                (unresolved ctx cacheKey
                            (missed JSON_parse ctx (redis w) keys)))
      as (_ & Hdm & _).
    change (EMulti (batchGet ctx keys) :: ?l)
      with ([EMulti (batchGet ctx keys)] ++ l).
    rewrite round_trips_app.
    destruct (missed JSON_parse ctx (redis w) keys) as [|m ms];
      [reflexivity|].
    change (EFind ?f ?ks :: ?l) with ([EFind f ks] ++ l).
    rewrite !round_trips_app, Hcm, Hdm. reflexivity.
  - intros i key Hkey. now rewrite (map_nth_error _ _ _ Hkey).
Qed.

Lemma unknown_keys_are_not_cached_witness :
  exists res w',
    Fixture.read Fixture.bySlug "_id" ["id2"; "slug3"] Fixture.staleSlug
      = (Ok res, w')
    /\ redis w' = redis Fixture.staleSlug
    /\ nth_error res 0 = Some VNull.
Proof.
  destruct (unknown_keys_are_not_cached
              Json.stringify Json.parse Fixture.bySlug "_id"
              ["id2"; "slug3"] Fixture.staleSlug)
    as (res & w' & Hrun & Hdb & _ & Hres).
  - reflexivity.
  - reflexivity.
  - reflexivity.
  - intros key Hin. vm_compute in Hin. destruct Hin as [<-|[]].
    vm_compute. reflexivity.
  - exists res, w'. split; [exact Hrun|]. split; [exact Hdb|].
    apply (Hres 0%nat "id2"). reflexivity.
Defined.

(** ** Writing, clearing and reading back *)

Lemma apply_batch_app a b (db : gmap string string) :
  apply_batch (a ++ b) db = apply_batch b (apply_batch a db).
Proof.
  unfold apply_batch. revert db.
  induction a as [|o a IH]; intros db; simpl; [reflexivity|].
  destruct (exec_op o db) as [r db'].
  specialize (IH db').
  destruct (exec_batch (a ++ b) db') as [rs db''].
  destruct (exec_batch a db') as [rs' db''']. simpl in *. exact IH.
Qed.

(** After a batch of writes, a slot holds the payload of the last write to
    it. *)
Lemma apply_sets_last JSON_stringify ctx (l : list (string * value)) db k :
  apply_batch
    (List.map (fun e => OpSet (withCachePrefix ctx (fst e))
                              (JSON_stringify (snd e))) l) db
    !! withCachePrefix ctx k =
    match JsObj.get k (rev l) with
    | Some v => Some (JSON_stringify v)
    | None => db !! withCachePrefix ctx k
    end.
Proof.
  induction l as [|[k0 v0] l IH] using rev_ind; [reflexivity|].
  rewrite map_app, apply_batch_app, rev_unit. simpl.
  rewrite apply_batch_cons_set, apply_batch_nil.
  destruct (String.eqb_spec k k0) as [->|Hk].
  - apply lookup_insert_eq.
  - rewrite lookup_insert_ne; [exact IH|].
    intros H. apply withCachePrefix_inj in H. congruence.
Qed.

(** X9. With the cache enabled, [cacheSetMany] leaves in the slot of each
    key the serialization of the last truthy value the entry list gives for
    that key; the slot of a key without a truthy value, and every slot that
    is not a cache key of this model, is left as it was. *)
Theorem cacheSetMany_last_write_wins
    (JSON_stringify : value -> string) (ctx : CacheContext)
    (entries : list (string * value)) (w : world) :
  enable ctx = true ->
  let w' := snd (cacheSetMany JSON_stringify ctx entries w) in
  (forall key,
     redis w' !! withCachePrefix ctx key =
       match JsObj.get key
               (rev (List.filter (fun e => truthy (snd e)) entries)) with
       | Some v => Some (JSON_stringify v)
       | None => redis w !! withCachePrefix ctx key
       end)
  /\ (forall slot, (forall key, slot <> withCachePrefix ctx key) ->
        redis w' !! slot = redis w !! slot).
Proof.
  intros Hon w'. unfold w'.
  rewrite cacheSetMany_run. cbv zeta. rewrite Hon, set_batch_spec. simpl.
  split.
  - intros key.
    rewrite <- (apply_sets_last JSON_stringify ctx _ (redis w) key).
    destruct (List.map _ (List.filter _ entries)); reflexivity.
  - intros slot Hslot.
    rewrite <- (apply_sets_other JSON_stringify ctx
                  (List.filter (fun e => truthy (snd e)) entries)
                  (redis w) slot Hslot).
    destruct (List.map _ (List.filter _ entries)); reflexivity.
Qed.

Lemma cacheSetMany_last_write_wins_witness :
  redis (snd (cacheSetMany Json.stringify Fixture.bySlug
                [("id1", VObj Fixture.stale); ("id1", VNull);
                 ("id1", VObj Fixture.entry1)]
                Fixture.cold))
    !! "entry:id1" = Some (Fixture.payload Fixture.entry1).
Proof.
  destruct (cacheSetMany_last_write_wins
              Json.stringify Fixture.bySlug
              [("id1", VObj Fixture.stale); ("id1", VNull);
               ("id1", VObj Fixture.entry1)]
              Fixture.cold) as [Hslot _].
  - reflexivity.
  - apply (Hslot "id1").
Defined.

(** X10. Write-through, then read.  With the cache enabled, after
    [cacheSet(key, v)] for a key other than [__proto__] and a truthy [v]
    that survives serialization, [cacheGetBy(cacheKey, key)] answers [v] for
    any [cacheKey]: the write is one batch of one command, the read is one
    batched cache read, and the store is never queried. *)
Theorem cacheSet_then_cacheGetBy
    (JSON_stringify : value -> string) (JSON_parse : string -> option value)
    (ctx : CacheContext) (cacheKey key : string) (v : value) (w : world) :
  enable ctx = true ->
  key <> "__proto__" ->
  truthy v = true ->
  JSON_stringify v <> EmptyString ->
  JSON_parse (JSON_stringify v) = Some v ->
  exists w1,
    cacheSet JSON_stringify ctx key v w = (Ok tt, w1)
    /\ trace w1 =
         trace w ++ [EMulti [OpSet (withCachePrefix ctx key)
                                   (JSON_stringify v)]]
    /\ cacheGetBy JSON_stringify JSON_parse ctx cacheKey key w1 =
         (Ok v,
          {| redis := redis w1;
             trace :=
               trace w1 ++ [EMulti [OpGet (withCachePrefix ctx key)]] |}).
Proof.
  intros Hon Hkey Ht Hne Hparse.
  unfold cacheSet. rewrite cacheSetMany_run. cbv zeta.
  rewrite Hon, set_batch_spec. simpl. rewrite Ht. simpl.
  eexists. split; [reflexivity|]. split; [reflexivity|].
  set (w1 := {| redis := _; trace := _ |}).
  assert (Hhit : cache_hit JSON_parse ctx (redis w1) key = Some v).
  { unfold cache_hit, cache_entry, w1. simpl.
    rewrite apply_batch_cons_set, apply_batch_nil, lookup_insert_eq.
    destruct (JSON_stringify v) as [|c s]; [congruence|].
    now rewrite Hparse, Ht. }
  clearbody w1. unfold cacheGetBy, bind.
  rewrite (read_without_miss JSON_stringify JSON_parse ctx cacheKey [key] w1
             Hon).
  - unfold ret. simpl List.map. rewrite Hhit. reflexivity.
  - unfold payloads_ok. simpl forallb.
    now rewrite (cache_hit_payload_ok _ _ _ _ _ Hhit).
  - intros [H|[]]. congruence.
  - unfold missed. simpl List.filter. now rewrite Hhit.
Qed.

Lemma cacheSet_then_cacheGetBy_witness :
  exists w1,
    cacheSet Json.stringify Fixture.bySlug "id9" (VObj Fixture.stale)
             Fixture.cold = (Ok tt, w1)
    /\ fst (cacheGetBy Json.stringify Json.parse Fixture.bySlug "_id" "id9" w1)
       = Ok (VObj Fixture.stale).
Proof.
  destruct (cacheSet_then_cacheGetBy
              Json.stringify Json.parse Fixture.bySlug "_id" "id9"
              (VObj Fixture.stale) Fixture.cold)
    as (w1 & Hset & _ & Hget).
  - reflexivity.
  - discriminate.
  - reflexivity.
  - vm_compute. discriminate.
  - vm_compute. reflexivity.
  - exists w1. split; [exact Hset|]. now rewrite Hget.
Defined.

Lemma cleared_keys_miss JSON_parse ctx keys (db : gmap string string) :
  let db' :=
    fold_left (fun db key => delete (withCachePrefix ctx key) db) keys db in
  payloads_ok JSON_parse ctx db' keys = true /\
  missed JSON_parse ctx db' keys = keys.
Proof.
  intros db'.
  assert (Hnone : forall key, In key keys ->
                    db' !! withCachePrefix ctx key = None).
  { intros key Hin. unfold db'.
    rewrite <- (fold_delete_map (withCachePrefix ctx)).
    apply fold_delete_lookup. now apply in_map. }
  split.
  - apply forallb_forall. intros key Hin.
    unfold payload_ok. now rewrite (Hnone key Hin).
  - unfold missed. apply forallb_filter_id, forallb_forall.
    intros key Hin. unfold cache_hit, cache_entry.
    now rewrite (Hnone key Hin).
Qed.

(** X11. Invalidation, then read.  After [cacheClearMany(keys)] for keys
    that name no member of [Object.prototype], a read of the same keys with
    the cache enabled finds none of them in the cache: whatever its outcome
    and whatever the cache held before the clear, it reports a cache miss
    for every key and sends the whole key list to the store. *)
Theorem cacheClearMany_then_read_misses
    (JSON_stringify : value -> string) (JSON_parse : string -> option value)
    (ctx : CacheContext) (cacheKey : string) (keys : list string) (w : world) :
  enable ctx = true ->
  keys <> [] ->
  ordinary keys = true ->
  exists w1 outcome w2 rest,
    cacheClearMany ctx keys w = (Ok tt, w1)
    /\ cacheGetManyBy JSON_stringify JSON_parse ctx cacheKey keys w1
         = (outcome, w2)
    /\ trace w2 =
         trace w1 ++ EMulti (batchGet ctx keys)
           :: cache_miss_events ctx keys
           ++ EFind (keyLookup cacheKey) keys :: rest.
Proof.
  intros Hon Hkeys Hord. rewrite cacheClearMany_run.
  destruct (cleared_keys_miss JSON_parse ctx keys (redis w)) as [Hok Hms].
  set (w1 := {| redis := _; trace := _ |}).
  change (payloads_ok JSON_parse ctx (redis w1) keys = true) in Hok.
  change (missed JSON_parse ctx (redis w1) keys = keys) in Hms.
  clearbody w1.
  exists w1. eexists. eexists. eexists. split; [reflexivity|].
  rewrite cacheGetManyBy_run.
  split; [reflexivity|]. simpl.
  unfold read_events. rewrite Hon. simpl.
  destruct (misses_missed JSON_parse ctx (redis w1) keys Hord) as [->|Hbad];
    [|congruence].
  rewrite Hms. unfold after_hits.
  destruct keys as [|k keys']; [congruence|]. reflexivity.
Qed.

Lemma cacheClearMany_then_read_misses_witness :
  exists w1 outcome w2,
    cacheClearMany Fixture.bySlug ["slug3"] Fixture.staleSlug = (Ok tt, w1)
    /\ Fixture.read Fixture.bySlug "slug" ["slug3"] w1 = (outcome, w2)
    /\ In (EFind "slug" ["slug3"]) (trace w2).
Proof.
  destruct (cacheClearMany_then_read_misses
              Json.stringify Json.parse Fixture.bySlug "slug" ["slug3"]
              Fixture.staleSlug)
    as (w1 & outcome & w2 & rest & Hclear & Hread & Htrace).
  - reflexivity.
  - discriminate.
  - reflexivity.
  - exists w1, outcome, w2. split; [exact Hclear|]. split; [exact Hread|].
    rewrite Htrace. apply in_or_app. right. right.
    apply in_or_app. right. now left.
Defined.

(** A key that names a member of [Object.prototype] is left out of X11:
    cleared or not, the hit map reads the inherited member under it, and the
    read takes it for a hit. *)
Example cleared_inherited_key_is_a_hit :
  Fixture.observe
    (Fixture.read Fixture.bySlug "_id" ["toString"]
       (snd (cacheClearMany Fixture.bySlug ["toString"] Fixture.cold))) =
    (Ok [VBuiltin (ObjectMethod "toString")], [],
     [EMulti [OpDel "entry:toString"]; EMulti [OpGet "entry:toString"]]).
Proof. vm_compute. reflexivity. Qed.

(** ** What a read costs, and what it leaves alone *)

(** Every call of [cacheGetManyBy], whatever its outcome, extends the trace
    by [read_events] and leaves the cache [read_redis]. *)
Lemma cacheGetManyBy_effects JSON_stringify JSON_parse ctx cacheKey keys w :
  trace (snd (cacheGetManyBy JSON_stringify JSON_parse ctx cacheKey keys w)) =
    trace w ++ read_events JSON_stringify JSON_parse ctx cacheKey (redis w)
                           keys
  /\ redis (snd (cacheGetManyBy JSON_stringify JSON_parse ctx cacheKey keys w))
     = read_redis JSON_stringify JSON_parse ctx cacheKey (redis w) keys.
Proof. rewrite cacheGetManyBy_run. split; reflexivity. Qed.

(** The batch of a fill holds writes only. *)
Lemma fill_of_spec JSON_stringify ctx cacheKey ms :
  exists l : list (string * value),
    fill_of JSON_stringify ctx cacheKey ms =
      List.map (fun e => OpSet (withCachePrefix ctx (fst e))
                               (JSON_stringify (snd e))) l.
Proof.
  unfold fill_of. destruct (returns ctx cacheKey ms).
  - rewrite set_batch_spec. eauto.
  - exists []. reflexivity.
Qed.

Lemma commands_app a b : commands (a ++ b) = commands a ++ commands b.
Proof. unfold commands. apply flat_map_app. Qed.

Lemma miss_events_commands ctx keys :
  commands (cache_miss_events ctx keys) = [] /\
  commands (data_miss_events ctx keys) = [].
Proof.
  unfold cache_miss_events, data_miss_events.
  destruct (onCacheMiss ctx), (onDataMiss ctx); split; try reflexivity;
    induction keys as [|k keys IH]; simpl; auto.
Qed.

Lemma commands_batch (batch : list op) :
  commands (match batch with
            | [] => []
            | o :: l => [EMulti (o :: l)]
            end) = batch.
Proof.
  destruct batch as [|o batch]; [reflexivity|].
  unfold commands. simpl. now rewrite app_nil_r.
Qed.

Lemma after_hits_counts JSON_stringify ctx cacheKey ms :
  (round_trips (after_hits JSON_stringify ctx cacheKey ms) <= 1)%nat /\
  (store_queries (after_hits JSON_stringify ctx cacheKey ms) <= 1)%nat.
Proof.
  unfold after_hits. destruct ms as [|m ms]; [split; auto|].
  destruct (miss_events_counts ctx (m :: ms)) as (Hc1 & _ & Hc2 & _).
  destruct (miss_events_counts ctx (reported ctx cacheKey (m :: ms)))
    as (_ & Hd1 & _ & Hd2).
  change (EFind ?f ?ks :: ?l) with ([EFind f ks] ++ l).
  rewrite !round_trips_app, !store_queries_app, Hc1, Hc2, Hd1, Hd2.
  destruct (fill_of _ _ _ _); simpl; split; auto.
Qed.

(** The commands a read sends after the batched cache read are those of
    the fill. *)
Lemma after_hits_commands JSON_stringify ctx cacheKey ms :
  commands (after_hits JSON_stringify ctx cacheKey ms) =
    fill_of JSON_stringify ctx cacheKey ms.
Proof.
  unfold after_hits. destruct ms as [|m ms]; [reflexivity|].
  destruct (miss_events_commands ctx (m :: ms)) as [Hc _].
  destruct (miss_events_commands ctx (reported ctx cacheKey (m :: ms)))
    as [_ Hd].
  change (EFind ?f ?ks :: ?l) with ([EFind f ks] ++ l).
  rewrite !commands_app, Hc, Hd. simpl. apply commands_batch.
Qed.

(** X12. Every call of [cacheGetManyBy], successful or not, with the cache
    enabled or not, makes at most two round trips to the cache and at most
    one query to the store, and none of the commands it sends to the cache
    is a delete. *)
Theorem read_round_trips_are_bounded
    (JSON_stringify : value -> string) (JSON_parse : string -> option value)
    (ctx : CacheContext) (cacheKey : string) (keys : list string) (w : world) :
  exists events,
    trace (snd (cacheGetManyBy JSON_stringify JSON_parse ctx cacheKey keys w))
      = trace w ++ events
    /\ (round_trips events <= 2)%nat
    /\ (store_queries events <= 1)%nat
    /\ forall slot, ~ In (OpDel slot) (commands events).
Proof.
  destruct (cacheGetManyBy_effects JSON_stringify JSON_parse ctx cacheKey
              keys w) as [Htrace _].
  eexists. split; [exact Htrace|]. unfold read_events.
  destruct (enable ctx); simpl.
  - destruct (after_hits_counts JSON_stringify ctx cacheKey
                (misses JSON_parse ctx (redis w) keys)) as [Hr Hs].
    unfold round_trips, store_queries in *. simpl.
    split; [lia|]. split; [lia|].
    intros slot Hin. apply in_app_or in Hin as [Hin|Hin].
    + unfold batchGet in Hin. apply in_map_iff in Hin as (k & Hk & _).
      discriminate.
    + fold (commands (after_hits JSON_stringify ctx cacheKey
                        (misses JSON_parse ctx (redis w) keys))) in Hin.
      rewrite after_hits_commands in Hin.
      destruct (fill_of_spec JSON_stringify ctx cacheKey
                  (misses JSON_parse ctx (redis w) keys)) as (l & Hl).
      rewrite Hl in Hin. apply in_map_iff in Hin as (e & He & _).
      discriminate.
  - destruct (miss_events_counts ctx (reported ctx cacheKey keys))
      as (_ & Hd1 & _ & Hd2).
    destruct (miss_events_commands ctx (reported ctx cacheKey keys))
      as [_ Hd].
    unfold round_trips, store_queries in *. simpl.
    split; [lia|]. split; [lia|].
    fold (commands (data_miss_events ctx (reported ctx cacheKey keys))).
    rewrite Hd. intros slot [].
Qed.

Lemma apply_sets_keeps JSON_stringify ctx (l : list (string * value))
    (db : gmap string string) slot :
  is_Some (db !! slot) ->
  is_Some (apply_batch
             (List.map (fun e => OpSet (withCachePrefix ctx (fst e))
                                       (JSON_stringify (snd e))) l) db
             !! slot).
Proof.
  revert db. induction l as [|[k v] l IH]; intros db H; simpl; [exact H|].
  rewrite apply_batch_cons_set. apply IH.
  destruct (decide (withCachePrefix ctx k = slot)) as [->|Hne].
  - rewrite lookup_insert_eq. eauto.
  - now rewrite lookup_insert_ne.
Qed.

(** X13. A call of [cacheGetManyBy], whatever its outcome, evicts nothing
    and stays in its namespace: a slot that held an entry still holds one
    afterwards, and a slot that is not a cache key of this model is left as
    it was. *)
Theorem read_keeps_entries_and_namespace
    (JSON_stringify : value -> string) (JSON_parse : string -> option value)
    (ctx : CacheContext) (cacheKey : string) (keys : list string) (w : world)
    (slot : string) :
  let w' :=
    snd (cacheGetManyBy JSON_stringify JSON_parse ctx cacheKey keys w) in
  (is_Some (redis w !! slot) -> is_Some (redis w' !! slot))
  /\ ((forall key, slot <> withCachePrefix ctx key) ->
      redis w' !! slot = redis w !! slot).
Proof.
  intros w'. unfold w'.
  destruct (cacheGetManyBy_effects JSON_stringify JSON_parse ctx cacheKey
              keys w) as [_ ->].
  unfold read_redis.
  destruct (enable ctx); [|split; auto].
  destruct (fill_of_spec JSON_stringify ctx cacheKey
              (misses JSON_parse ctx (redis w) keys)) as (l & ->).
  split.
  - apply apply_sets_keeps.
  - apply apply_sets_other.
Qed.

Lemma or_null_spec v : or_null v = VNull \/ truthy (or_null v) = true.
Proof. unfold or_null. destruct (truthy v) eqn:Ht; auto. Qed.

(** X14. A list returned by [cacheGetManyBy] holds nothing falsy but
    [null]: each result is [null] or a truthy value, never [undefined],
    [false], [0] or the empty string, whatever the cache held. *)
Theorem read_answers_null_or_truthy
    (JSON_stringify : value -> string) (JSON_parse : string -> option value)
    (ctx : CacheContext) (cacheKey : string) (keys : list string) (w : world) :
  match fst (cacheGetManyBy JSON_stringify JSON_parse ctx cacheKey keys w) with
  | Ok res => Forall (fun v => v = VNull \/ truthy v = true) res
  | Throw _ => True
  end.
Proof.
  rewrite cacheGetManyBy_run. simpl. unfold read_result, resolver_result.
  destruct (enable ctx); simpl.
  - destruct (cachedKeyValue JSON_parse ctx (redis w) keys) as [hits|e];
      [|exact I].
    destruct (misses JSON_parse ctx (redis w) keys) as [|m ms].
    + apply List.Forall_forall. intros v Hv.
      apply in_map_iff in Hv as (key & <- & _). apply or_null_spec.
    + destruct (returns ctx cacheKey (m :: ms)); [|exact I].
      apply List.Forall_forall. intros v Hv.
      apply in_map_iff in Hv as (key & <- & _). apply or_null_spec.
  - destruct (returns ctx cacheKey keys); [|exact I].
    apply List.Forall_forall. intros v Hv. unfold answers in Hv.
    apply in_map_iff in Hv as (key & <- & _). unfold settle.
    destruct (DocDict.get key (byKey ctx cacheKey keys)) as [d|v];
      [now right|].
    destruct (truthy v); now left.
Qed.

(** ** Which keys are reported, and which records reach the caller *)

Lemma missed_In JSON_parse ctx (db : gmap string string) keys k :
  In k (missed JSON_parse ctx db keys) <->
  In k keys /\ cache_hit JSON_parse ctx db k = None.
Proof.
  unfold missed. rewrite filter_In.
  destruct (cache_hit JSON_parse ctx db k); split; intros [Hin H];
    split; auto; discriminate.
Qed.

Lemma cache_miss_events_In ctx keys e :
  In e (cache_miss_events ctx keys) ->
  exists k, e = ECacheMiss (name ctx) k /\ In k keys.
Proof.
  unfold cache_miss_events. destruct (onCacheMiss ctx); [|intros []].
  rewrite in_map_iff. intros (k & <- & Hin). eauto.
Qed.

Lemma data_miss_events_In ctx keys e :
  In e (data_miss_events ctx keys) ->
  exists k, e = EDataMiss (name ctx) k /\ In k keys.
Proof.
  unfold data_miss_events. destruct (onDataMiss ctx); [|intros []].
  rewrite in_map_iff. intros (k & <- & Hin). eauto.
Qed.

(** The events that follow the batched cache read, one kind at a time. *)
Lemma after_hits_In JSON_stringify ctx cacheKey ms e :
  In e (after_hits JSON_stringify ctx cacheKey ms) ->
  In (EFind (keyLookup cacheKey) ms)
     (after_hits JSON_stringify ctx cacheKey ms) /\
  ((exists k, e = ECacheMiss (name ctx) k /\ In k ms)
   \/ e = EFind (keyLookup cacheKey) ms
   \/ (exists k, e = EDataMiss (name ctx) k /\ In k ms)
   \/ exists batch, e = EMulti batch).
Proof.
  intros Hin. unfold after_hits in *.
  destruct ms as [|m ms']; [destruct Hin|].
  split; [apply in_or_app; right; now left|].
  apply in_app_or in Hin as [Hin|[<-|Hin]].
  - left. now apply cache_miss_events_In.
  - right. now left.
  - apply in_app_or in Hin as [Hin|Hin].
    + right. right. left.
      apply data_miss_events_In in Hin as (k & -> & Hk).
      exists k. split; [reflexivity|]. eapply reported_in_sub; eauto.
    + right. right. right.
      destruct (fill_of _ _ _ _) as [|o batch]; [destruct Hin|].
      destruct Hin as [<-|[]]. eauto.
Qed.

(** X15. Whatever the outcome of a read, the store is asked only for
    requested keys, under the looked-up field, and with the cache enabled
    only for keys that did not hit the cache; a cache miss is reported only
    for a key without a cache hit, and that key is then asked of the store;
    a data miss is reported only for a key the store was asked for.  The
    key [__proto__] is the exception to "without a cache hit": it may be
    taken for missing although its cached string parses to an object. *)
Theorem misses_are_asked_of_the_store
    (JSON_stringify : value -> string) (JSON_parse : string -> option value)
    (ctx : CacheContext) (cacheKey : string) (keys : list string) (w : world) :
  exists events,
    trace (snd (cacheGetManyBy JSON_stringify JSON_parse ctx cacheKey keys w))
      = trace w ++ events
    /\ (forall field ks, In (EFind field ks) events ->
          field = keyLookup cacheKey /\
          forall k, In k ks ->
            In k keys /\
            (enable ctx = true -> k <> "__proto__" ->
             cache_hit JSON_parse ctx (redis w) k = None))
    /\ (forall n k, In (ECacheMiss n k) events ->
          (k <> "__proto__" -> cache_hit JSON_parse ctx (redis w) k = None) /\
          exists ks, In (EFind (keyLookup cacheKey) ks) events /\ In k ks)
    /\ (forall n k, In (EDataMiss n k) events ->
          exists ks, In (EFind (keyLookup cacheKey) ks) events /\ In k ks).
Proof.
  destruct (cacheGetManyBy_effects JSON_stringify JSON_parse ctx cacheKey
              keys w) as [Htrace _].
  eexists. split; [exact Htrace|]. unfold read_events.
  destruct (enable ctx); simpl.
  - split; [|split].
    + intros field ks [H|H]; [discriminate|].
      apply after_hits_In in H
        as [_ [(k & H & _)|[H|[(k & H & _)|(b & H)]]]];
        try discriminate.
      injection H as -> ->. split; [reflexivity|].
      intros k Hk. split; [eapply misses_sub; eauto|].
      intros _ Hne. eapply misses_no_hit; eauto.
    + intros n k [H|H]; [discriminate|].
      apply after_hits_In in H
        as [Hfind [(k' & H & Hk)|[H|[(k' & H & _)|(b & H)]]]];
        try discriminate.
      injection H as -> ->. split.
      * intros Hne. eapply misses_no_hit; eauto.
      * eexists. split; [right; exact Hfind|exact Hk].
    + intros n k [H|H]; [discriminate|].
      apply after_hits_In in H
        as [Hfind [(k' & H & _)|[H|[(k' & H & Hk)|(b & H)]]]];
        try discriminate.
      injection H as -> ->.
      eexists. split; [right; exact Hfind|exact Hk].
  - split; [|split].
    + intros field ks [H|H].
      * injection H as <- <-. split; [reflexivity|].
        intros k Hk. split; [exact Hk|discriminate].
      * apply data_miss_events_In in H as (k & H & _). discriminate.
    + intros n k [H|H]; [discriminate|].
      apply data_miss_events_In in H as (k' & H & _). discriminate.
    + intros n k [H|H]; [discriminate|].
      apply data_miss_events_In in H as (k' & H & Hk).
      injection H as -> ->. exists keys.
      split; [now left|]. eapply reported_in_sub; eauto.
Qed.

(** The exception of X15.  [JSON.parse] makes [__proto__] an own property
    of the object it returns; assigned to the hit map under the key
    [__proto__], that object becomes the prototype of the map, and the map
    then reads [__proto__] from it: here [null], so the key is taken for
    missing although its cached string parses to an object. *)
Example proto_key_hit_is_taken_for_missing :
  let cached := Fixture.payload [("__proto__", VNull)] in
  Json.parse cached = Some (VObj [("__proto__", VNull)]) /\
  cache_hit Json.parse Fixture.bySlug
    (redis (Fixture.holding "entry:__proto__" cached)) "__proto__" =
    Some (VObj [("__proto__", VNull)]) /\
  trace (snd (Fixture.read Fixture.bySlug "_id" ["__proto__"]
                (Fixture.holding "entry:__proto__" cached))) =
    [EMulti [OpGet "entry:__proto__"];
     ECacheMiss "Entry" "__proto__";
     EFind "_id" ["__proto__"]].
Proof. repeat split; vm_compute; reflexivity. Qed.

(** A record retained from the resolver is the plain object of a document
    the store returned. *)
Lemma retained_is_found ctx cacheKey ms r :
  In r (retained cacheKey (resolved ctx cacheKey ms)) ->
  exists d, In d (find (model ctx) (keyLookup cacheKey) ms) /\
            r = VObj (toObject d).
Proof.
  intros Hr. apply retained_In in Hr as [Hr Ht].
  unfold resolved in Hr. apply in_map_iff in Hr as (k & Hr & _).
  unfold resolve_key in Hr.
  destruct (JsObj.get k (found ctx cacheKey ms)) as [d|] eqn:Hget.
  - apply found_get_Some in Hget as [Hin _]. eauto.
  - subst r. discriminate.
Qed.

(** X16. In a plain read (the field is a plain property name, no key names
    a member of [Object.prototype], no returned document is keyed
    [__proto__]), a record of the store reaches the caller only under a key
    that its plain object carries, in the looked-up field or in an
    additional field.  When no document the store returns carries a
    requested key there, the read answers as if the store were empty: every
    key gets its cache-hit value, or [null]. *)
Theorem unclaimed_keys_are_answered_from_cache
    (JSON_stringify : value -> string) (JSON_parse : string -> option value)
    (ctx : CacheContext) (cacheKey : string) (keys : list string) (w : world) :
  enable ctx = true ->
  payloads_ok JSON_parse ctx (redis w) keys = true ->
  plain_read JSON_parse ctx cacheKey (redis w) keys = true ->
  (forall d key,
     In d (find (model ctx) (keyLookup cacheKey)
                (missed JSON_parse ctx (redis w) keys)) ->
     In key keys ->
     ~ claims ctx cacheKey (VObj (toObject d)) key) ->
  fst (cacheGetManyBy JSON_stringify JSON_parse ctx cacheKey keys w) =
    Ok (List.map (fun key =>
                    match cache_hit JSON_parse ctx (redis w) key with
                    | Some v => v
                    | None => VNull
                    end) keys).
Proof.
  intros Hon Hok Hplain Hnone.
  rewrite (plain_read_run JSON_stringify JSON_parse ctx cacheKey keys w
             Hon Hok Hplain). simpl. f_equal.
  apply map_ext_in. intros key Hkey. unfold answer.
  destruct (JsObj.get key _) as [r|] eqn:Hget; [|reflexivity].
  exfalso. apply staged_get_Some in Hget as [Hr Hclaims].
  apply retained_is_found in Hr as (d & Hd & ->).
  exact (Hnone d key Hd Hkey Hclaims).
Qed.

Lemma unclaimed_keys_are_answered_from_cache_witness :
  fst (Fixture.read (Fixture.context true []) "id" ["id1"; "id3"]
                    Fixture.cold) = Ok [VNull; VNull]
  /\ fst (getManyBy (Fixture.context true []) "id" ["id1"; "id3"]
                    Fixture.cold) =
       Ok [VObj Fixture.entry1; VObj Fixture.entry3].
Proof.
  split; [|vm_compute; reflexivity].
  apply (unclaimed_keys_are_answered_from_cache
           Json.stringify Json.parse (Fixture.context true []) "id"
           ["id1"; "id3"] Fixture.cold).
  - reflexivity.
  - reflexivity.
  - reflexivity.
  - intros d key Hd Hkey [H|(a & [] & _)].
    vm_compute in Hd.
    destruct Hd as [<-|[<-|[]]]; destruct Hkey as [<-|[<-|[]]];
      vm_compute in H; discriminate.
Defined.

(** ** Single keys and empty requests *)

(** A read of one key throws or returns exactly one result, [null] or
    truthy. *)
Lemma read_result_one JSON_parse ctx cacheKey db key :
  (exists e, read_result JSON_parse ctx cacheKey db [key] = Throw e) \/
  exists v, read_result JSON_parse ctx cacheKey db [key] = Ok [v] /\
            (v = VNull \/ truthy v = true).
Proof.
  unfold read_result, resolver_result.
  destruct (enable ctx); simpl.
  - destruct (cachedKeyValue JSON_parse ctx db [key]) as [hits|e];
      [|left; eauto].
    destruct (misses JSON_parse ctx db [key]) as [|m ms].
    + right. eexists. split; [reflexivity|apply or_null_spec].
    + destruct (returns ctx cacheKey (m :: ms)); [|left; eauto].
      right. eexists. split; [reflexivity|apply or_null_spec].
  - destruct (returns ctx cacheKey [key]); [|left; eauto].
    right. eexists. split; [reflexivity|]. unfold settle.
    destruct (DocDict.get key (byKey ctx cacheKey [key])) as [d|v];
      [now right|].
    destruct (truthy v); now left.
Qed.

(** X17. The single-key read [cacheGetBy] is the batched read of one key:
    it has the same effects, it throws when the batched read throws, and
    otherwise the batched read returns exactly one result, which
    [cacheGetBy] hands over.  That result is [null] or truthy, never
    [undefined]. *)
Theorem cacheGetBy_is_the_one_key_read
    (JSON_stringify : value -> string) (JSON_parse : string -> option value)
    (ctx : CacheContext) (cacheKey key : string) (w : world) :
  snd (cacheGetBy JSON_stringify JSON_parse ctx cacheKey key w) =
    snd (cacheGetManyBy JSON_stringify JSON_parse ctx cacheKey [key] w)
  /\ match fst (cacheGetBy JSON_stringify JSON_parse ctx cacheKey key w) with
     | Ok v =>
         fst (cacheGetManyBy JSON_stringify JSON_parse ctx cacheKey [key] w)
           = Ok [v]
         /\ (v = VNull \/ truthy v = true)
     | Throw e =>
         fst (cacheGetManyBy JSON_stringify JSON_parse ctx cacheKey [key] w)
           = Throw e
     end.
Proof.
  unfold cacheGetBy, bind. rewrite cacheGetManyBy_run.
  destruct (read_result_one JSON_parse ctx cacheKey (redis w) key)
    as [(e & ->)|(v & -> & Hv)]; simpl.
  - split; reflexivity.
  - split; [reflexivity|]. split; [reflexivity|exact Hv].
Qed.

(** X18. Requests that name no key.  With the cache enabled a read of no
    keys still makes one (empty) round trip to the cache and does not ask
    the store; with the cache disabled it still queries the store.
    Clearing no keys still sends an empty batch, while writing no entries
    sends nothing at all. *)
Theorem requests_without_keys
    (JSON_stringify : value -> string) (JSON_parse : string -> option value)
    (ctx : CacheContext) (cacheKey : string) (w : world) :
  cacheGetManyBy JSON_stringify JSON_parse ctx cacheKey [] w =
    (Ok [],
     log w [if enable ctx then EMulti []
            else EFind (keyLookup cacheKey) []])
  /\ cacheClearMany ctx [] w = (Ok tt, log w [EMulti []])
  /\ cacheSetMany JSON_stringify ctx [] w = (Ok tt, w).
Proof.
  split; [|split].
  - rewrite cacheGetManyBy_run.
    unfold read_result, read_redis, read_events, resolver_result.
    destruct (enable ctx) eqn:Hon; simpl; [reflexivity|].
    unfold data_miss_events. simpl. now destruct (onDataMiss ctx).
  - now rewrite cacheClearMany_run.
  - rewrite cacheSetMany_run. simpl. now rewrite andb_false_r.
Qed.

(** * The plugin *)

(** ** The hooks *)

Lemma log_self w : {| redis := redis w; trace := trace w ++ [] |} = w.
Proof. destruct w. simpl. now rewrite app_nil_r. Qed.

Lemma truthy_object (o : JsObj.t value) : truthy (VObj o) = true.
Proof. reflexivity. Qed.

(** A run of single writes of one value, key after key. *)
Lemma forEach_cacheSet {A} JSON_stringify ctx (slot_key : A -> string)
    (v : value) (l : list A) w :
  enable ctx = true ->
  truthy v = true ->
  forEach (fun x => cacheSet JSON_stringify ctx (slot_key x) v) l w =
    (Ok tt,
     {| redis :=
          fold_left (fun db x => <[withCachePrefix ctx (slot_key x) :=
                                     JSON_stringify v]> db) l (redis w);
        trace :=
          trace w ++
            List.map (fun x => EMulti [OpSet (withCachePrefix ctx (slot_key x))
                                             (JSON_stringify v)]) l |}).
Proof.
  intros Hon Ht. revert w.
  induction l as [|x l IH]; intros w; simpl.
  - unfold ret. now rewrite log_self.
  - unfold bind, cacheSet. rewrite cacheSetMany_run. cbv zeta.
    rewrite Hon, set_batch_spec. simpl. rewrite Ht. simpl.
    rewrite IH. simpl.
    rewrite apply_batch_cons_set, apply_batch_nil, <- app_assoc.
    reflexivity.
Qed.

(** A run of single deletes, key after key. *)
Lemma forEach_cacheClear {A} ctx (slot_key : A -> string) (l : list A) w :
  forEach (fun x => cacheClear ctx (slot_key x)) l w =
    (Ok tt,
     {| redis :=
          fold_left (fun db x => delete (withCachePrefix ctx (slot_key x)) db)
                    l (redis w);
        trace :=
          trace w ++
            List.map
              (fun x => EMulti [OpDel (withCachePrefix ctx (slot_key x))])
                     l |}).
Proof.
  revert w. induction l as [|x l IH]; intros w; simpl.
  - unfold ret. now rewrite log_self.
  - unfold bind, cacheClear. rewrite cacheClearMany_run.
    rewrite IH. simpl. rewrite <- app_assoc. reflexivity.
Qed.

Lemma fold_insert_lookup {A} (slot_of : A -> string) (s : string)
    (l : list A) (db : gmap string string) slot :
  fold_left (fun db x => <[slot_of x := s]> db) l db !! slot =
    if existsb (String.eqb slot) (List.map slot_of l) then Some s
    else db !! slot.
Proof.
  induction l as [|x l IH] using rev_ind; [reflexivity|].
  rewrite fold_left_app, map_app, existsb_app. simpl.
  rewrite orb_false_r.
  destruct (String.eqb_spec slot (slot_of x)) as [->|Hne].
  - rewrite orb_true_r. apply lookup_insert_eq.
  - rewrite orb_false_r, lookup_insert_ne by congruence. exact IH.
Qed.

Lemma fold_delete_lookup_all {A} (slot_of : A -> string)
    (l : list A) (db : gmap string string) slot :
  fold_left (fun db x => delete (slot_of x) db) l db !! slot =
    if existsb (String.eqb slot) (List.map slot_of l) then None
    else db !! slot.
Proof.
  induction l as [|x l IH] using rev_ind; [reflexivity|].
  rewrite fold_left_app, map_app, existsb_app. simpl.
  rewrite orb_false_r.
  destruct (String.eqb_spec slot (slot_of x)) as [->|Hne].
  - rewrite orb_true_r. apply lookup_delete_eq.
  - rewrite orb_false_r, lookup_delete_ne by congruence. exact IH.
Qed.

Lemma existsb_eqb_iff slot (slots : list string) :
  existsb (String.eqb slot) slots = true <-> In slot slots.
Proof.
  rewrite existsb_exists. split.
  - intros (s & Hin & Heq). apply String.eqb_eq in Heq. now subst.
  - intros Hin. exists slot. split; [exact Hin|apply String.eqb_refl].
Qed.

(** The world [onSave] leaves when the plugin is enabled. *)
Lemma onSave_run JSON_stringify options m d w :
  plugin_enable options = true ->
  onSave JSON_stringify options m d w =
    (Ok tt,
     {| redis :=
          fold_left
            (fun db field =>
               <[withCachePrefix (plugin_context options m)
                                 (doc_key d field) :=
                   JSON_stringify (VObj (toObject d))]> db)
            (hook_fields options) (redis w);
        trace :=
          trace w ++
            List.map
              (fun field =>
                 EMulti [OpSet (withCachePrefix (plugin_context options m)
                                                (doc_key d field))
                               (JSON_stringify (VObj (toObject d)))])
              (hook_fields options) |}).
Proof.
  intros Hon. unfold onSave. rewrite Hon. simpl negb. cbv iota.
  exact (forEach_cacheSet JSON_stringify (plugin_context options m)
           (doc_key d) (VObj (toObject d)) (hook_fields options) w Hon
           eq_refl).
Qed.

(** The world [onRemove] leaves for a document when the plugin is
    enabled. *)
Lemma onRemove_run options m d w :
  plugin_enable options = true ->
  onRemove options m (Some d) w =
    (Ok tt,
     {| redis :=
          fold_left
            (fun db field =>
               delete (withCachePrefix (plugin_context options m)
                                       (doc_key d field)) db)
            (hook_fields options) (redis w);
        trace :=
          trace w ++
            List.map
              (fun field =>
                 EMulti [OpDel (withCachePrefix (plugin_context options m)
                                                (doc_key d field))])
              (hook_fields options) |}).
Proof.
  intros Hon. unfold onRemove. rewrite Hon. simpl negb. cbv iota.
  exact (forEach_cacheClear (plugin_context options m) (doc_key d)
           (hook_fields options) w).
Qed.

(** X19. With the plugin enabled, [onSave] writes the serialized plain
    object of the document once under [_id] and once under each additional
    cache key, in that order and each in a batch of its own.  Afterwards
    each of those slots holds that one payload, also the slot a missing
    field addresses, and every other slot is as it was. *)
Theorem onSave_writes_every_slot
    (JSON_stringify : value -> string) (options : PluginOptions)
    (m : Model) (d : doc) (w : world) :
  plugin_enable options = true ->
  let payload := JSON_stringify (VObj (toObject d)) in
  exists w',
    onSave JSON_stringify options m d w = (Ok tt, w')
    /\ trace w' =
         trace w ++
           List.map (fun slot => EMulti [OpSet slot payload])
                    (hook_slots options m d)
    /\ length (hook_slots options m d) =
         S (length (plugin_additionalCacheKeys options))
    /\ (forall slot, In slot (hook_slots options m d) ->
          redis w' !! slot = Some payload)
    /\ (forall slot, ~ In slot (hook_slots options m d) ->
          redis w' !! slot = redis w !! slot).
Proof.
  intros Hon payload. rewrite (onSave_run JSON_stringify options m d w Hon).
  eexists. split; [reflexivity|]. cbn [redis trace].
  split; [unfold hook_slots; now rewrite map_map|].
  split; [unfold hook_slots, hook_fields; now rewrite length_map|].
  split; intros slot Hslot;
    rewrite (fold_insert_lookup
               (fun field => withCachePrefix (plugin_context options m)
                                             (doc_key d field)));
    fold (hook_slots options m d).
  - apply existsb_eqb_iff in Hslot. now rewrite Hslot.
  - destruct (existsb _ _) eqn:H; [|reflexivity].
    apply existsb_eqb_iff in H. contradiction.
Qed.

Lemma onSave_writes_every_slot_witness :
  exists w',
    onSave Json.stringify Fixture.options Fixture.Entry
           (document Fixture.entry5) Fixture.cold = (Ok tt, w')
    /\ redis w' !! "entry:id5" = Some (Fixture.payload Fixture.entry5)
    /\ redis w' !! "entry:undefined" = Some (Fixture.payload Fixture.entry5).
Proof.
  destruct (onSave_writes_every_slot Json.stringify Fixture.options
              Fixture.Entry (document Fixture.entry5) Fixture.cold)
    as (w' & Hrun & _ & _ & Hin & _).
  - reflexivity.
  - exists w'. split; [exact Hrun|].
    split; apply Hin; vm_compute; auto.
Defined.

(** X20. With the plugin enabled, [onRemove] of a document deletes the slot
    of [_id] and the slot of each additional cache key, each in a batch of
    its own: afterwards those slots are empty and every other slot is as it
    was.  Handed no document, [onRemove] does nothing. *)
Theorem onRemove_clears_every_slot
    (options : PluginOptions) (m : Model) (d : doc) (w : world) :
  plugin_enable options = true ->
  onRemove options m None w = (Ok tt, w)
  /\ exists w',
       onRemove options m (Some d) w = (Ok tt, w')
       /\ trace w' =
            trace w ++
              List.map (fun slot => EMulti [OpDel slot])
                       (hook_slots options m d)
       /\ (forall slot, In slot (hook_slots options m d) ->
             redis w' !! slot = None)
       /\ (forall slot, ~ In slot (hook_slots options m d) ->
             redis w' !! slot = redis w !! slot).
Proof.
  intros Hon. split; [unfold onRemove; now rewrite Hon|].
  rewrite (onRemove_run options m d w Hon).
  eexists. split; [reflexivity|]. cbn [redis trace].
  split; [unfold hook_slots; now rewrite map_map|].
  split; intros slot Hslot;
    rewrite (fold_delete_lookup_all
               (fun field => withCachePrefix (plugin_context options m)
                                             (doc_key d field)));
    fold (hook_slots options m d).
  - apply existsb_eqb_iff in Hslot. now rewrite Hslot.
  - destruct (existsb _ _) eqn:H; [|reflexivity].
    apply existsb_eqb_iff in H. contradiction.
Qed.

Lemma onRemove_clears_every_slot_witness :
  exists w',
    onRemove Fixture.options Fixture.Entry (Some (document Fixture.entry3))
             Fixture.staleSlug = (Ok tt, w')
    /\ redis w' !! "entry:slug3" = None.
Proof.
  destruct (onRemove_clears_every_slot Fixture.options Fixture.Entry
              (document Fixture.entry3) Fixture.staleSlug)
    as (_ & w' & Hrun & _ & Hin & _).
  - reflexivity.
  - exists w'. split; [exact Hrun|]. apply Hin. vm_compute. auto.
Defined.

(** X21. Removing a document takes back what saving it wrote: after
    [onSave] and then [onRemove] of the same document, the slots of the
    document are empty and the rest of the cache is as it was before the
    save; if those slots were empty before, the whole cache is. *)
Theorem onRemove_undoes_onSave
    (JSON_stringify : value -> string) (options : PluginOptions)
    (m : Model) (d : doc) (w : world) :
  plugin_enable options = true ->
  exists w1 w2,
    onSave JSON_stringify options m d w = (Ok tt, w1)
    /\ onRemove options m (Some d) w1 = (Ok tt, w2)
    /\ (forall slot,
          redis w2 !! slot =
            if existsb (String.eqb slot) (hook_slots options m d) then None
            else redis w !! slot)
    /\ ((forall slot, In slot (hook_slots options m d) ->
           redis w !! slot = None) ->
        redis w2 = redis w).
Proof.
  intros Hon. rewrite (onSave_run JSON_stringify options m d w Hon).
  eexists. eexists. split; [reflexivity|].
  rewrite (onRemove_run options m d _ Hon).
  split; [reflexivity|]. cbn [redis trace].
  assert (Hslot : forall slot,
    fold_left
      (fun db field =>
         delete (withCachePrefix (plugin_context options m) (doc_key d field))
                db)
      (hook_fields options)
      (fold_left
         (fun db field =>
            <[withCachePrefix (plugin_context options m) (doc_key d field) :=
                JSON_stringify (VObj (toObject d))]> db)
         (hook_fields options) (redis w)) !! slot =
    if existsb (String.eqb slot) (hook_slots options m d) then None
    else redis w !! slot).
  { intros slot.
    rewrite (fold_delete_lookup_all
               (fun field => withCachePrefix (plugin_context options m)
                                             (doc_key d field))).
    fold (hook_slots options m d).
    destruct (existsb _ _) eqn:H; [reflexivity|].
    rewrite (fold_insert_lookup
               (fun field => withCachePrefix (plugin_context options m)
                                             (doc_key d field))).
    fold (hook_slots options m d). now rewrite H. }
  split; [exact Hslot|].
  intros Hfree. apply map_eq. intros slot. rewrite Hslot.
  destruct (existsb _ _) eqn:H; [|reflexivity].
  apply existsb_eqb_iff in H. symmetry. now apply Hfree.
Qed.

Lemma onRemove_undoes_onSave_witness :
  exists w1 w2,
    onSave Json.stringify Fixture.options Fixture.Entry
           (document Fixture.entry3) Fixture.cold = (Ok tt, w1)
    /\ onRemove Fixture.options Fixture.Entry (Some (document Fixture.entry3))
                w1 = (Ok tt, w2)
    /\ redis w2 = redis Fixture.cold.
Proof.
  destruct (onRemove_undoes_onSave Json.stringify Fixture.options
              Fixture.Entry (document Fixture.entry3) Fixture.cold)
    as (w1 & w2 & Hsave & Hremove & _ & Hfree).
  - reflexivity.
  - exists w1, w2. split; [exact Hsave|]. split; [exact Hremove|].
    apply Hfree. intros slot _. reflexivity.
Defined.

(** ** The statics *)

(** The key [__proto__], cached with an object that has no property of
    that name, is served from the cache: the object becomes the prototype of
    the hit map, and the map reads it back under [__proto__]. *)
Lemma read_proto_object JSON_stringify JSON_parse ctx cacheKey w fields :
  enable ctx = true ->
  cache_hit JSON_parse ctx (redis w) "__proto__" = Some (VObj fields) ->
  JsObj.has "__proto__" fields = false ->
  cacheGetManyBy JSON_stringify JSON_parse ctx cacheKey ["__proto__"] w =
    (Ok [VObj fields],
     log w [EMulti [OpGet (withCachePrefix ctx "__proto__")]]).
Proof.
  intros Hon Hhit Hown. rewrite cacheGetManyBy_run.
  unfold read_result, read_redis, read_events, misses, cachedKeyValue,
    cachedData.
  rewrite Hon. simpl negb. cbv iota.
  unfold cache_hit, cache_entry in Hhit. simpl.
  destruct (redis w !! withCachePrefix ctx "__proto__") as [[|c s]|];
    try discriminate.
  simpl. destruct (JSON_parse (String c s)) as [v|]; [|discriminate].
  destruct (truthy v); [|discriminate]. injection Hhit as ->.
  unfold missedKeysFromCache, Dict.set, Dict.get. simpl.
  unfold JsObj.has in Hown.
  destruct (JsObj.get "__proto__" fields); [discriminate|]. reflexivity.
Qed.

(** X22. A document saved through the plugin is served from the cache.
    With the plugin enabled and a plain object that survives
    serialization, after [onSave] the static [getBy], asked for the value
    of [_id] or of an additional cache key of the document, answers the
    plain object of the document with one round trip to the cache and
    without asking the store; so does the static [get] for the value of
    [_id].  The one exception is a document addressed by the value
    [__proto__] whose plain object has a property of that name. *)
Theorem saved_document_is_served_from_cache
    (JSON_stringify : value -> string) (JSON_parse : string -> option value)
    (options : PluginOptions) (m : Model) (d : doc) (w : world) :
  plugin_enable options = true ->
  roundtrips JSON_stringify JSON_parse d ->
  exists w1,
    onSave JSON_stringify options m d w = (Ok tt, w1)
    /\ (forall cacheKey field, In field (hook_fields options) ->
          (doc_key d field = "__proto__" ->
           JsObj.has "__proto__" (toObject d) = false) ->
          statics_getBy JSON_stringify JSON_parse options m cacheKey
                        (OneKey (doc_key d field)) w1 =
            (Ok (VObj (toObject d)),
             log w1 [EMulti [OpGet (withCachePrefix (plugin_context options m)
                                                    (doc_key d field))]]))
    /\ ((doc_key d "_id" = "__proto__" ->
         JsObj.has "__proto__" (toObject d) = false) ->
        statics_get JSON_stringify JSON_parse options m
                    (OneKey (doc_key d "_id")) w1 =
          (Ok (VObj (toObject d)),
           log w1 [EMulti [OpGet (withCachePrefix (plugin_context options m)
                                                  (doc_key d "_id"))]])).
Proof.
  intros Hon [Hne Hparse].
  rewrite (onSave_run JSON_stringify options m d w Hon).
  set (w1 := {| redis := _; trace := _ |}).
  assert (Hin : forall field, In field (hook_fields options) ->
    redis w1 !! withCachePrefix (plugin_context options m) (doc_key d field)
      = Some (JSON_stringify (VObj (toObject d)))).
  { intros field Hfield. unfold w1. cbn [redis].
    rewrite (fold_insert_lookup
               (fun field => withCachePrefix (plugin_context options m)
                                             (doc_key d field))).
    rewrite (proj2 (existsb_eqb_iff _ _)); [reflexivity|].
    apply in_map_iff. eauto. }
  clearbody w1.
  exists w1. split; [reflexivity|].
  assert (Hread : forall cacheKey field, In field (hook_fields options) ->
    (doc_key d field = "__proto__" ->
     JsObj.has "__proto__" (toObject d) = false) ->
    cacheGetBy JSON_stringify JSON_parse (plugin_context options m) cacheKey
               (doc_key d field) w1 =
      (Ok (VObj (toObject d)),
       log w1 [EMulti [OpGet (withCachePrefix (plugin_context options m)
                                              (doc_key d field))]])).
  { intros cacheKey field Hfield Hproto.
    assert (Hhit : cache_hit JSON_parse (plugin_context options m) (redis w1)
                             (doc_key d field) = Some (VObj (toObject d))).
    { unfold cache_hit, cache_entry. rewrite (Hin field Hfield).
      destruct (JSON_stringify (VObj (toObject d))) as [|c s];
        [congruence|]. now rewrite Hparse. }
    unfold cacheGetBy, bind.
    destruct (String.eqb_spec (doc_key d field) "__proto__") as [Heq|Hneq].
    - rewrite Heq in *.
      now rewrite (read_proto_object JSON_stringify JSON_parse
                     (plugin_context options m) cacheKey w1 (toObject d)
                     Hon Hhit (Hproto eq_refl)).
    - rewrite (read_without_miss JSON_stringify JSON_parse
                 (plugin_context options m) cacheKey [doc_key d field] w1
                 Hon).
      + unfold ret. simpl List.map. rewrite Hhit. reflexivity.
      + unfold payloads_ok. simpl forallb.
        now rewrite (cache_hit_payload_ok _ _ _ _ _ Hhit).
      + intros [H|[]]. congruence.
      + unfold missed. simpl List.filter. now rewrite Hhit. }
  split.
  - intros cacheKey field Hfield. now apply Hread.
  - apply Hread. now left.
Qed.

(** The exception of X22: the plain object of such a document, once it is
    the prototype of the hit map, answers [__proto__] with its own property
    of that name, and the read takes the key for missing. *)
Example proto_document_is_not_served :
  let d := document [("_id", VStr "__proto__"); ("__proto__", VNull)] in
  exists w1,
    onSave Json.stringify Fixture.options Fixture.Entry d Fixture.cold =
      (Ok tt, w1) /\
    roundtrips Json.stringify Json.parse d /\
    trace (snd (statics_getBy Json.stringify Json.parse Fixture.options
                              Fixture.Entry "_id" (OneKey "__proto__") w1)) =
      trace w1 ++ [EMulti [OpGet "entry:__proto__"];
                   ECacheMiss "Entry" "__proto__";
                   EFind "_id" ["__proto__"]].
Proof.
  eexists. split; [vm_compute; reflexivity|].
  split; [split; [vm_compute; discriminate|vm_compute; reflexivity]|].
  vm_compute. reflexivity.
Qed.

Lemma saved_document_is_served_from_cache_witness :
  exists w1,
    onSave Json.stringify Fixture.options Fixture.Entry
           (document Fixture.entry3) Fixture.cold = (Ok tt, w1)
    /\ statics_getBy Json.stringify Json.parse Fixture.options Fixture.Entry
                     "slug" (OneKey "slug3") w1 =
         (Ok (VObj Fixture.entry3), log w1 [EMulti [OpGet "entry:slug3"]]).
Proof.
  destruct (saved_document_is_served_from_cache
              Json.stringify Json.parse Fixture.options Fixture.Entry
              (document Fixture.entry3) Fixture.cold)
    as (w1 & Hsave & Hget & _).
  - reflexivity.
  - split; [vm_compute; discriminate|vm_compute; reflexivity].
  - exists w1. split; [exact Hsave|].
    apply (Hget "slug" "slug"); [right; now left|discriminate].
Defined.

(** X23. A plugin that is not enabled, which is the default, touches the
    cache only to clear it.  Its hooks do nothing, its reads go to the
    store as [getManyBy] does, and its static [clearMany] still sends the
    batched delete and empties the slots of the keys. *)
Theorem disabled_plugin_only_clears
    (JSON_stringify : value -> string) (JSON_parse : string -> option value)
    (options : PluginOptions) (m : Model) (d : doc) (removed : option doc)
    (cacheKey : string) (keys : list string) (w : world) :
  opt_enable options <> Some true ->
  onSave JSON_stringify options m d w = (Ok tt, w)
  /\ onRemove options m removed w = (Ok tt, w)
  /\ statics_getManyBy JSON_stringify JSON_parse options m cacheKey keys w =
       getManyBy (plugin_context options m) cacheKey keys w
  /\ exists w',
       statics_clearMany options m keys w = (Ok tt, w')
       /\ trace w' =
            trace w ++
              [EMulti (List.map
                         (fun key =>
                            OpDel (withCachePrefix (plugin_context options m)
                                                   key)) keys)]
       /\ forall key, In key keys ->
            redis w' !! withCachePrefix (plugin_context options m) key = None.
Proof.
  intros Hoff.
  assert (Hen : plugin_enable options = false).
  { unfold plugin_enable. destruct (opt_enable options) as [[|]|];
      [congruence|reflexivity|reflexivity]. }
  split; [unfold onSave; now rewrite Hen|].
  split; [unfold onRemove; now rewrite Hen|].
  split.
  - unfold statics_getManyBy, cacheGetManyBy.
    change (enable (plugin_context options m)) with (plugin_enable options).
    now rewrite Hen.
  - unfold statics_clearMany. rewrite cacheClearMany_run.
    eexists. split; [reflexivity|]. split; [reflexivity|].
    intros key Hkey. cbn [redis].
    rewrite (fold_delete_lookup_all
               (fun key => withCachePrefix (plugin_context options m) key)).
    rewrite (proj2 (existsb_eqb_iff _ _)); [reflexivity|].
    apply in_map_iff. eauto.
Qed.

Lemma disabled_plugin_only_clears_witness :
  onSave Json.stringify
         {| opt_enable := None;
            opt_additionalCacheKeys := Some ["slug"];
            opt_onCacheMiss := true;
            opt_onDataMiss := true |}
         Fixture.Entry (document Fixture.entry3) Fixture.staleSlug =
    (Ok tt, Fixture.staleSlug).
Proof.
  apply (disabled_plugin_only_clears
           Json.stringify Json.parse
           {| opt_enable := None;
              opt_additionalCacheKeys := Some ["slug"];
              opt_onCacheMiss := true;
              opt_onDataMiss := true |}
           Fixture.Entry (document Fixture.entry3) None "_id" []
           Fixture.staleSlug).
  discriminate.
Defined.

(** X24. The plugin never reports a data miss.  [createCachePlugin] does
    not hand [onDataMiss] on to the cache methods, so no read through the
    statics calls that observer, whatever the options say and whether the
    cache is enabled or not. *)
Theorem plugin_never_reports_data_misses
    (JSON_stringify : value -> string) (JSON_parse : string -> option value)
    (options : PluginOptions) (m : Model) (cacheKey : string)
    (keys : list string) (w : world) :
  exists events,
    trace (snd (statics_getManyBy JSON_stringify JSON_parse options m
                                  cacheKey keys w)) = trace w ++ events
    /\ forall n key, ~ In (EDataMiss n key) events.
Proof.
  unfold statics_getManyBy.
  destruct (cacheGetManyBy_effects JSON_stringify JSON_parse
              (plugin_context options m) cacheKey keys w) as [Htrace _].
  eexists. split; [exact Htrace|].
  intros n key. unfold read_events.
  destruct (enable (plugin_context options m)); simpl.
  - intros [H|H]; [discriminate|].
    unfold after_hits in H.
    destruct (misses _ _ _ _) as [|k ks]; [destruct H|].
    apply in_app_or in H as [H|[H|H]].
    + apply cache_miss_events_In in H as (k' & H & _). discriminate.
    + discriminate.
    + unfold data_miss_events in H. simpl in H.
      destruct (fill_of _ _ _ _); [destruct H|].
      destruct H as [H|[]]. discriminate.
  - intros [H|H]; [discriminate|].
    unfold data_miss_events in H. simpl in H. destruct H.
Qed.

(** A read of one key returns one result, or throws. *)
Lemma one_key_read JSON_stringify JSON_parse ctx cacheKey key w :
  exists w',
    (exists v, cacheGetManyBy JSON_stringify JSON_parse ctx cacheKey [key] w
               = (Ok [v], w'))
    \/ (exists e, cacheGetManyBy JSON_stringify JSON_parse ctx cacheKey [key] w
                  = (Throw e, w')).
Proof.
  rewrite cacheGetManyBy_run.
  destruct (read_result_one JSON_parse ctx cacheKey (redis w) key)
    as [(e & ->)|(v & -> & _)]; eauto.
Qed.

(** X25. The statics [getBy] and [get] treat a key and the array of that
    one key alike: both calls leave the same world, both throw the same
    error or neither throws, and the call with the array answers the array
    whose only element is the answer of the call with the key. *)
Theorem statics_key_or_array_of_one_key
    (JSON_stringify : value -> string) (JSON_parse : string -> option value)
    (options : PluginOptions) (m : Model) (cacheKey key : string)
    (w : world) :
  (exists w',
     (exists v,
        statics_getBy JSON_stringify JSON_parse options m cacheKey
                      (OneKey key) w = (Ok v, w')
        /\ statics_getBy JSON_stringify JSON_parse options m cacheKey
                         (ManyKeys [key]) w = (Ok (VArr [v]), w'))
     \/ (exists e,
           statics_getBy JSON_stringify JSON_parse options m cacheKey
                         (OneKey key) w = (Throw e, w')
           /\ statics_getBy JSON_stringify JSON_parse options m cacheKey
                            (ManyKeys [key]) w = (Throw e, w')))
  /\ statics_get JSON_stringify JSON_parse options m (OneKey key) w =
       statics_getBy JSON_stringify JSON_parse options m "_id" (OneKey key) w
  /\ statics_get JSON_stringify JSON_parse options m (ManyKeys [key]) w =
       statics_getBy JSON_stringify JSON_parse options m "_id"
                     (ManyKeys [key]) w.
Proof.
  split; [|split; reflexivity].
  unfold statics_getBy, statics_getManyBy, cacheGetBy, bind.
  destruct (one_key_read JSON_stringify JSON_parse (plugin_context options m)
              cacheKey key w) as (w' & [(v & ->)|(e & ->)]);
    exists w'; [left; exists v|right; exists e]; split; reflexivity.
Qed.
